(** * pubsub-sse: the client and topic registry, fanout and wire envelope

    A shallow embedding of [client.go], of the handler file (type
    [sSEPubSubHandler], its HTTP handlers [AddClient], [Subscribe] and
    [Unsubscribe], and its [Pub]) and of [Topic] of package [pubsubsse],
    with the properties of the specification that concern them and the
    invariants of the registry.

    Conventions of the embedding.
    - A Go [map[string]T] is a [gmap string T].  [for ... range m] visits
      the entries in an order the runtime chooses; that choice is the
      argument [range] of every function that loops over a map.
    - A [*client] is an address into [heap], the store of client objects;
      [s.clients] and [topic.Clients] hold addresses, so that two references
      to one client see the same object.
    - A [*topic] is held by exactly one map entry (of [s.publicTopics], which
      every client shares by reference, or of one client's
      [privateTopics]); the entry holds the topic record itself.
    - The channel [stream] is the sequence of frames sent on it, oldest
      first, each taken as received: the channel has no buffer, and a send
      returns when a goroutine has received the frame.  Every operation
      runs alone, with the locks left out.  Module [locking] has the lock of
      a client and the wait of a send for a receiver, for the operations
      whose return depends on them.
    - A field carries the initial of its struct ([c_id], [t_Name]), the
      handler's [Pub] is [sSEPubSubHandler_Pub], the client's is [Pub]. *)

From Stdlib Require Import ZArith Ascii String DecimalString.
From stdpp Require Import base option strings list gmap fin_maps.

Set Warnings "-register-all,-clear-no-such-hyp".

(** ** encoding/json, for the shapes the program marshals *)

Module json.

(** A value passed as [interface{}].  [Object] lists the members in the
    order [json.Marshal] writes them (struct fields in declaration order,
    map keys sorted).  [Unsupported] stands for the Go values that
    [json.Marshal] refuses: channels, functions, complex numbers. *)
Inductive value :=
| Null
| Bool (b : bool)
| Number (n : Z)
| Str (s : string)
| Array (l : list value)
| Object (members : list (string * value))
| Unsupported.

Definition dquote : string := String "034"%char "".
Definition backslash : string := String "092"%char "".

Definition hexdigit (n : nat) : string :=
  String (default "0"%char (list_ascii_of_string "0123456789abcdef" !! n)) "".

(** One byte of a string literal, as the encoder writes it with HTML
    escaping on (the default of [json.Marshal]): the quote and the
    backslash after a backslash, the line feed, carriage return and tab
    by their letter, the other control characters (the backspace and the
    form feed among them, as Go writes them before 1.22) and the characters
    less-than, greater-than and ampersand as a four-digit escape.  Bytes
    from 128 on are copied, which is what the encoder does for valid UTF-8
    other than U+2028 and U+2029; the names and data of the properties
    below that are written out are ASCII. *)
Definition quote_byte (c : ascii) : string :=
  let n := nat_of_ascii c in
  if decide (n = 34) then backslash +:+ dquote
  else if decide (n = 92) then backslash +:+ backslash
  else if decide (n = 10) then backslash +:+ "n"
  else if decide (n = 13) then backslash +:+ "r"
  else if decide (n = 9) then backslash +:+ "t"
  else if decide (n < 32 ∨ n = 60 ∨ n = 62 ∨ n = 38) then
    backslash +:+ "u00" +:+ hexdigit (n / 16) +:+ hexdigit (n mod 16)
  else String c "".

Fixpoint quote_bytes (s : string) : string :=
  match s with
  | EmptyString => ""
  | String c r => quote_byte c +:+ quote_bytes r
  end.

Definition quote (s : string) : string := dquote +:+ quote_bytes s +:+ dquote.

Fixpoint join (sep : string) (l : list string) : string :=
  match l with
  | [] => ""
  | [x] => x
  | x :: r => x +:+ sep +:+ join sep r
  end.

Definition member (k v : string) : string := quote k +:+ ":" +:+ v.
Definition object (ms : list string) : string := "{" +:+ join "," ms +:+ "}".
Definition array (vs : list string) : string := "[" +:+ join "," vs +:+ "]".

(** [json.Marshal] of an [interface{}]; [None] is its error. *)
Fixpoint marshal (v : value) : option string :=
  match v with
  | Null => Some "null"
  | Bool b => Some (if b then "true" else "false")
  | Number n => Some (NilZero.string_of_int (Z.to_int n))
  | Str s => Some (quote s)
  | Array l =>
      array <$>
        (fix elems (l : list value) : option (list string) :=
           match l with
           | [] => Some []
           | x :: r => match marshal x, elems r with
                       | Some s, Some ss => Some (s :: ss)
                       | _, _ => None
                       end
           end) l
  | Object ms =>
      object <$>
        (fix membs (l : list (string * value)) : option (list string) :=
           match l with
           | [] => Some []
           | (k, x) :: r => match marshal x, membs r with
                            | Some s, Some ss => Some (member k s :: ss)
                            | _, _ => None
                            end
           end) ms
  | Unsupported => None
  end.

(** A slice: [None] is the nil slice, which is marshalled as [null]; an
    empty slice that is not nil is marshalled as [[]]. *)
Definition slice (A : Type) : Type := option (list A).

Definition len {A} (s : slice A) : nat := length (default [] s).
Definition append {A} (s : slice A) (x : A) : slice A := Some (default [] s ++ [x]).

Definition marshal_slice {A} (f : A → option string) (s : slice A) : option string :=
  match s with
  | None => Some "null"
  | Some l => array <$> mapM f l
  end.

(** Writes a JSON text with ['] for the double quote. *)
Definition js_byte (c : ascii) : ascii :=
  if decide (c = "039"%char) then "034"%char else c.

Fixpoint js (s : string) : string :=
  match s with
  | EmptyString => EmptyString
  | String c r => String (js_byte c) (js r)
  end.

End json.

Import json.

(** ** Data model *)

(** [type status int], with its two constants. *)
Inductive status := Waiting | Receving.

Global Instance status_eq_dec : EqDecision status.
Proof. solve_decision. Defined.

(** Modelled from the spec: the declaration of [topic] of package main and
    of its topic-type constants is not in the sources; the fields are the
    ones [client.go] uses ([Name], [Type], [Clients]; [Type] is spelled
    [t_Type] here), and the constants are written on the wire as
    "public", "private" and "group". *)
Inductive topicType := Public | Private | Group.

Definition topicType_string (ty : topicType) : string :=
  match ty with
  | Public => "public"
  | Private => "private"
  | Group => "group"
  end.

Record topic := {
  t_Name : string;
  t_Type : topicType;
  t_Clients : gmap string nat   (* id ↦ address of the subscriber *)
}.

Record client := {
  c_id : string;
  c_stream : list string;
  c_status : status;
  c_privateTopics : gmap string topic
  (* [publicTopics] is the handler's map itself: see [state] *)
}.

(** The handler [s] with the store of client objects. *)
Record state := {
  heap : list client;
  clients : gmap string nat;
  publicTopics : gmap string topic
}.

(** The errors the operations build with [fmt.Errorf], by message. *)
Inductive error :=
| TopicAlreadyExists (name : string)      (* topic %s already exists *)
| TopicDoesNotExist (name : string)       (* topic %s does not exists *)
| ClientDoesNotExist (id : string)        (* client %s does not exists *)
| ClientNotSubscribed (id name : string)  (* client %s is not subscribed to topic %s *)
| ClientNotReceiving (id : string)        (* client %s is not receving data *)
| MarshalError.                           (* the error of json.Marshal *)

(** The error kinds of the specification. *)
Inductive kind := AlreadyExists | NotFound | NotSubscribed | NotReceiving | Unencodable.

Definition kind_of (e : error) : kind :=
  match e with
  | TopicAlreadyExists _ => AlreadyExists
  | TopicDoesNotExist _ | ClientDoesNotExist _ => NotFound
  | ClientNotSubscribed _ _ => NotSubscribed
  | ClientNotReceiving _ => NotReceiving
  | MarshalError => Unencodable
  end.

(** ** Runs that may panic *)

Inductive panic :=
| IndexOutOfRange   (* indexing a slice at or beyond its length *)
| InvalidPointer.   (* an address that [heap] does not hold; Go has none *)

Inductive run (A : Type) :=
| Return (x : A)
| Panic (p : panic).
Arguments Return {A} x.
Arguments Panic {A} p.

Global Instance run_ret : MRet run := λ A x, Return x.
Global Instance run_bind : MBind run := λ A B f m,
  match m with
  | Return x => f x
  | Panic p => Panic p
  end.

(** [for _, x := range l { s = f(s, x) }] with a body that may panic. *)
Fixpoint forEach {A S : Type} (f : S → A → run S) (l : list A) (s : S) : run S :=
  match l with
  | [] => Return s
  | x :: r => s' ← f s x; forEach f r s'
  end.

(** ** The wire envelope *)

Record eventDataSysList := {
  entry_Name : string;   (* json:"name" *)
  entry_Type : string    (* json:"type,omitempty" *)
}.

Record eventDataSys := {
  sys_Type : string;                   (* json:"type" *)
  sys_List : slice eventDataSysList    (* json:"list,omitempty" *)
}.

Record eventDataUpdates := {
  upd_Topic : string;   (* json:"topic" *)
  upd_Data : value      (* json:"data" *)
}.

Record eventData := {
  Sys : slice eventDataSys;           (* json:"sys" *)
  Updates : slice eventDataUpdates    (* json:"updates" *)
}.

Definition marshal_entry (e : eventDataSysList) : option string :=
  Some (object (member "name" (quote (entry_Name e)) ::
                if decide (entry_Type e = "") then []
                else [member "type" (quote (entry_Type e))])).

Definition marshal_sys (s : eventDataSys) : option string :=
  l ← marshal_slice marshal_entry (sys_List s);
  Some (object (member "type" (quote (sys_Type s)) ::
                if decide (len (sys_List s) = 0) then []
                else [member "list" l])).

Definition marshal_update (u : eventDataUpdates) : option string :=
  d ← marshal (upd_Data u);
  Some (object [member "topic" (quote (upd_Topic u)); member "data" d]).

(** [json.Marshal(fulldata)]; [None] is its error. *)
Definition Marshal (fulldata : eventData) : option string :=
  s ← marshal_slice marshal_sys (Sys fulldata);
  u ← marshal_slice marshal_update (Updates fulldata);
  Some (object [member "sys" s; member "updates" u]).

(** The zero value [eventDataSys{}]. *)
Definition eventDataSys_zero : eventDataSys := {| sys_Type := ""; sys_List := None |}.

(** [fulldata.Sys[i].Type = ty] then
    [fulldata.Sys[i].List = append(fulldata.Sys[i].List, t)]. *)
Definition setSys (i : nat) (ty : string) (t : eventDataSysList)
    (fulldata : eventData) : run eventData :=
  match Sys fulldata with
  | Some sys =>
      match sys !! i with
      | Some e =>
          Return {| Sys := Some (<[i := {| sys_Type := ty;
                                          sys_List := append (sys_List e) t |}]> sys);
                    Updates := Updates fulldata |}
      | None => Panic IndexOutOfRange
      end
  | None => Panic IndexOutOfRange
  end.

Definition appendSys (e : eventDataSys) (fulldata : eventData) : eventData :=
  {| Sys := append (Sys fulldata) e; Updates := Updates fulldata |}.

Definition appendUpdates (u : eventDataUpdates) (fulldata : eventData) : eventData :=
  {| Sys := Sys fulldata; Updates := append (Updates fulldata) u |}.

(** ** Operations *)

(** The order in which [for ... range m] visits a map. *)
Definition ranging : Type := ∀ A : Type, gmap string A → list (string * A).

(** The runtime visits every entry once. *)
Definition range_ok (range : ranging) : Prop :=
  ∀ (A : Type) (m : gmap string A), range A m ≡ₚ map_to_list m.

(** Two orders: the one in which the map lists its entries, and its
    reverse. *)
Definition range_forward : ranging := λ A m, map_to_list m.
Definition range_backward : ranging := λ A m, reverse (map_to_list m).

(** [*c] for the receiver [c]. *)
Definition deref (a : nat) (σ : state) : run client :=
  match heap σ !! a with
  | Some c => Return c
  | None => Panic InvalidPointer
  end.

Definition set_heap (h : list client) (σ : state) : state :=
  {| heap := h; clients := clients σ; publicTopics := publicTopics σ |}.

Definition set_stream (l : list string) (c : client) : client :=
  {| c_id := c_id c; c_stream := l; c_status := c_status c;
     c_privateTopics := c_privateTopics c |}.

Definition set_privateTopics (m : gmap string topic) (c : client) : client :=
  {| c_id := c_id c; c_stream := c_stream c; c_status := c_status c;
     c_privateTopics := m |}.

Definition set_Clients (m : gmap string nat) (t : topic) : topic :=
  {| t_Name := t_Name t; t_Type := t_Type t; t_Clients := m |}.

(** [c.stream <- msg], the frame received.  The wait for a receiver is in
    [locking.send]. *)
Definition send (a : nat) (msg : string) (σ : state) : run state :=
  c ← deref a σ;
  Return (set_heap (<[a := set_stream (c_stream c ++ [msg]) c]> (heap σ)) σ).

(** The block that ends every send function of [client.go]:
    [if c.status == Receving { c.stream <- string(jsonData) }]. *)
Definition sendIfReceving (a : nat) (jsonData : string) (σ : state) : run state :=
  c ← deref a σ;
  if decide (c_status c = Receving) then send a jsonData σ else Return σ.

(** Where a [*topic] lives: in the private topics of the client at an
    address, or in the shared public topics. *)
Inductive place := PrivateOf (a : nat) | Shared.

Global Instance place_eq_dec : EqDecision place.
Proof. solve_decision. Defined.

(** The search of [Sub] and of [Unsub]: private topics first, then public
    topics.  The result is the pointer [topic] of the source: the place of
    the entry and the record it holds. *)
Definition findTopic (a : nat) (c : client) (name : string) (σ : state)
    : option (place * topic) :=
  match c_privateTopics c !! name with
  | Some t => Some (PrivateOf a, t)
  | None =>
      match publicTopics σ !! name with
      | Some t => Some (Shared, t)
      | None => None
      end
  end.

(** An assignment to [topic.Clients] through the pointer found under
    [name]. *)
Definition storeClients (p : place) (name : string) (m : gmap string nat)
    (σ : state) : state :=
  match p with
  | Shared =>
      {| heap := heap σ; clients := clients σ;
         publicTopics := alter (set_Clients m) name (publicTopics σ) |}
  | PrivateOf a =>
      set_heap (alter (λ c, set_privateTopics
                              (alter (set_Clients m) name (c_privateTopics c)) c)
                      a (heap σ)) σ
  end.

Section Operations.

Variable range : ranging.

(** [s.NewClient(id)]; [uuid] is what [uuid.New().String()] returns. *)
Definition NewClient (uuid : string) (id : string) (σ : state) : nat * state :=
  let id := if decide (id = "") then uuid else id in
  match clients σ !! id with
  | Some a => (a, σ)
  | None =>
      let cl := {| c_id := id; c_stream := []; c_status := Waiting;
                   c_privateTopics := ∅ |} in
      let a := length (heap σ) in
      (a, {| heap := heap σ ++ [cl];
             clients := <[id := a]> (clients σ);
             publicTopics := publicTopics σ |})
  end.

Definition getClient (id : string) (σ : state) : option nat * option error :=
  match clients σ !! id with
  | None => (None, Some (ClientDoesNotExist id))
  | Some a => (Some a, None)
  end.

Definition addByName (topics : gmap string topic) (kt : string * topic)
    : gmap string topic :=
  <[t_Name kt.2 := kt.2]> topics.

Definition GetTopics (a : nat) (σ : state) : run (gmap string topic) :=
  c ← deref a σ;
  let topics := foldl addByName ∅ (range _ (publicTopics σ)) in
  Return (foldl addByName topics (range _ (c_privateTopics c))).

Definition GetSubscribedTopics (a : nat) (σ : state) : run (gmap string topic) :=
  topics ← GetTopics a σ;
  c ← deref a σ;
  Return (foldl (λ subs kt,
                   if decide (is_Some (t_Clients kt.2 !! c_id c))
                   then addByName subs kt else subs)
                ∅ (range _ topics)).

Definition topicsEntry (topic : topic) : eventDataSysList :=
  {| entry_Name := t_Name topic; entry_Type := topicType_string (t_Type topic) |}.

Definition nameEntry (topic : topic) : eventDataSysList :=
  {| entry_Name := t_Name topic; entry_Type := "" |}.

(** The second result of [json.Marshal], as the functions return it. *)
Definition marshalled (fulldata : eventData) : string * option error :=
  match Marshal fulldata with
  | Some jsonData => (jsonData, None)
  | None => ("", Some MarshalError)
  end.

(** The frame of [sendUpdate]. *)
Definition updateData (to : topic) (data : value) : eventData :=
  let fulldata := {| Sys := None; Updates := Some [] |} in
  let u := {| upd_Topic := t_Name to; upd_Data := data |} in
  appendUpdates u fulldata.

Definition sendUpdate (a : nat) (to : topic) (data : value) (σ : state)
    : run (option error * state) :=
  match marshalled (updateData to data) with
  | (_, Some err) => Return (Some err, σ)
  | (jsonData, None) => σ' ← sendIfReceving a jsonData σ; Return (None, σ')
  end.

Definition generateInit (a : nat) (σ : state) : run (string * option error) :=
  topics ← GetTopics a σ;
  subtopics ← GetSubscribedTopics a σ;
  let fulldata := {| Sys := Some []; Updates := None |} in
  let fulldata :=
    if decide (0 < size topics) then appendSys eventDataSys_zero fulldata
    else fulldata in
  let fulldata :=
    if decide (0 < size subtopics) then appendSys eventDataSys_zero fulldata
    else fulldata in
  fulldata ← forEach (λ fd kt, setSys 0 "topics" (topicsEntry kt.2) fd)
                     (range _ topics) fulldata;
  fulldata ← forEach (λ fd kt, setSys 1 "subscribed" (nameEntry kt.2) fd)
                     (range _ subtopics) fulldata;
  Return (marshalled fulldata).

(** The frame of [sendNewTopicsList]. *)
Definition topicsListData (topics : gmap string topic) : run eventData :=
  let fulldata := {| Sys := Some []; Updates := None |} in
  if decide (0 < size topics) then
    forEach (λ fd kt, setSys 0 "topics" (topicsEntry kt.2) fd)
            (range _ topics) (appendSys eventDataSys_zero fulldata)
  else Return fulldata.

Definition sendNewTopicsList (a : nat) (σ : state) : run (option error * state) :=
  topics ← GetTopics a σ;
  fulldata ← topicsListData topics;
  match marshalled fulldata with
  | (_, Some err) => Return (Some err, σ)
  | (jsonData, None) => σ' ← sendIfReceving a jsonData σ; Return (None, σ')
  end.

(** The frame of [sendNewSubscribedTopic] ([ty] is "subscribed") and of
    [sendUnsubscribedTopic] ([ty] is "unsubscribed"). *)
Definition noticeData (ty : string) (top : topic) : run eventData :=
  let fulldata := {| Sys := Some []; Updates := None |} in
  setSys 0 ty (nameEntry top) (appendSys eventDataSys_zero fulldata).

Definition sendNewSubscribedTopic (a : nat) (top : topic) (σ : state)
    : run (option error * state) :=
  fulldata ← noticeData "subscribed" top;
  match marshalled fulldata with
  | (_, Some err) => Return (Some err, σ)
  | (jsonData, None) => σ' ← sendIfReceving a jsonData σ; Return (None, σ')
  end.

Definition sendUnsubscribedTopic (a : nat) (top : topic) (σ : state)
    : run (option error * state) :=
  fulldata ← noticeData "unsubscribed" top;
  match marshalled fulldata with
  | (_, Some err) => Return (Some err, σ)
  | (jsonData, None) => σ' ← sendIfReceving a jsonData σ; Return (None, σ')
  end.

Definition NewPrivateTopic (a : nat) (name : string) (σ : state)
    : run (option error * state) :=
  c ← deref a σ;
  if decide (is_Some (c_privateTopics c !! name)) then
    Return (Some (TopicAlreadyExists name), σ)
  else
    let top := {| t_Name := name; t_Type := Private; t_Clients := ∅ |} in
    let σ1 := set_heap (<[a := set_privateTopics (<[name := top]> (c_privateTopics c)) c]>
                          (heap σ)) σ in
    '(_, σ2) ← sendNewTopicsList a σ1;
    Return (None, σ2).

Definition Sub (a : nat) (name : string) (σ : state) : run (option error * state) :=
  c ← deref a σ;
  match findTopic a c name σ with
  | None => Return (Some (TopicDoesNotExist name), σ)
  | Some (p, topic) =>
      let σ1 := storeClients p name (<[c_id c := a]> (t_Clients topic)) σ in
      '(_, σ2) ← sendNewSubscribedTopic a topic σ1;
      Return (None, σ2)
  end.

Definition Unsub (a : nat) (name : string) (σ : state) : run (option error * state) :=
  c ← deref a σ;
  match findTopic a c name σ with
  | None => Return (Some (TopicDoesNotExist name), σ)
  | Some (p, topic) =>
      if decide (is_Some (t_Clients topic !! c_id c)) then
        let σ1 := storeClients p name (delete (c_id c) (t_Clients topic)) σ in
        '(_, σ2) ← sendUnsubscribedTopic a topic σ1;
        Return (None, σ2)
      else Return (Some (ClientNotSubscribed (c_id c) name), σ)
  end.

(** [c.Pub(to, message)] *)
Definition Pub (a : nat) (to : string) (message : value) (σ : state)
    : run (option error * state) :=
  c ← deref a σ;
  if decide (c_status c = Waiting) then
    Return (Some (ClientNotReceiving (c_id c)), σ)
  else
    match c_privateTopics c !! to with
    | None => Return (Some (TopicDoesNotExist to), σ)
    | Some t => sendUpdate a t message σ
    end.

(** [for _, topic := range m { cl.Unsub(topic.Name) }]: the error of
    [Unsub] is dropped. *)
Definition unsubEach (a : nat) (m : gmap string topic) (σ : state) : run state :=
  forEach (λ σ kt, '(_, σ') ← Unsub a (t_Name kt.2) σ; Return σ') (range _ m) σ.

Definition RemoveClient (id : string) (σ : state) : run (option error * state) :=
  match getClient id σ with
  | (Some a, None) =>
      cl ← deref a σ;
      σ1 ← unsubEach a (c_privateTopics cl) σ;
      σ2 ← unsubEach a (publicTopics σ1) σ1;
      Return (None, {| heap := heap σ2; clients := delete id (clients σ2);
                       publicTopics := publicTopics σ2 |})
  | (_, err) => Return (err, σ)
  end.

(** Modelled from the spec: [generateUpdateData], the method of [client]
    that the handler's [Pub] calls, is not in the sources.  The spec has a
    publish encode the update envelope of the topic name and the data; that
    is the frame [sendUpdate] builds and marshals. *)
Definition generateUpdateData (a : nat) (t : topic) (message : value)
    : string * option error :=
  marshalled (updateData t message).

(** The loop of the handler's [Pub] over [t.Clients]. *)
Fixpoint fanout (t : topic) (message : value) (subs : list (string * nat))
    (σ : state) : run (option error * state) :=
  match subs with
  | [] => Return (None, σ)
  | (_, client) :: rest =>
      match generateUpdateData client t message with
      | (_, Some err) => Return (Some err, σ)
      | (jsonMessage, None) => σ' ← send client jsonMessage σ; fanout t message rest σ'
      end
  end.

(** [s.Pub(topic, message)] of the handler. *)
Definition sSEPubSubHandler_Pub (topic : string) (message : value) (σ : state)
    : run (option error * state) :=
  match publicTopics σ !! topic with
  | None => Return (Some (TopicDoesNotExist topic), σ)
  | Some t => fanout t message (range _ (t_Clients t)) σ
  end.

End Operations.

(** [Topic.Pub] of package [pubsubsse]. *)
Module pubsubsse.

Inductive topicType := TPublic | TPrivate | TGroup.

Section Fanout.

(** Modelled from the spec: [Client] of package [pubsubsse] and its method
    [send] are not in the sources.  [send] pushes a frame onto the
    subscriber's queue and may fail (client gone, queue closed); here it is
    any function of the subscriber, the frame and the part [world] of the
    program it may change, with the text of its error. *)
Variable Client : Type.
Variable world : Type.
Variable send : Client → eventData → world → option string * world.

Variable range : ranging.

Record Topic := {
  name : string;
  id : string;
  ttype : topicType;
  clients : gmap string Client
}.

Definition GetName (t : Topic) : string := name t.

(** A copy of the map. *)
Definition GetClients (t : Topic) : gmap string Client := clients t.

(** The body of the loop of [Pub]; the second component is the log. *)
Definition sendOne (t : Topic) (fulldata : eventData) (wl : world * list string)
    (kc : string * Client) : world * list string :=
  match send kc.2 fulldata wl.1 with
  | (Some err, w) =>
      (w, wl.2 ++ ["[T:" +:+ GetName t +:+ "]: Error sending data to client: " +:+ err])
  | (None, w) => (w, wl.2)
  end.

Definition Pub (t : Topic) (msg : value) (w : world)
    : option error * (world * list string) :=
  let fulldata := {| Sys := None; Updates := Some [] |} in
  let u := {| upd_Topic := GetName t; upd_Data := msg |} in
  let fulldata := appendUpdates u fulldata in
  (None, foldl (sendOne t fulldata) (w, []) (range _ (GetClients t))).

(** The field [id] of a [Client], the key of a subscriber in [clients]. *)
Variable cid : Client → string.

Definition topicType_string (ty : topicType) : string :=
  match ty with
  | TPublic => "public"
  | TPrivate => "private"
  | TGroup => "group"
  end.

(** [newTopic(name, ttype)]; [uuid] is what [uuid.New().String()]
    returns. *)
Definition newTopic (uuid : string) (n : string) (ty : topicType) : Topic :=
  {| name := n; id := uuid; ttype := ty; clients := ∅ |}.

Definition GetID (t : Topic) : string := id t.

Definition GetType (t : Topic) : string := topicType_string (ttype t).

Definition addClient (t : Topic) (c : Client) : Topic :=
  {| name := name t; id := id t; ttype := ttype t;
     clients := <[cid c := c]> (clients t) |}.

Definition removeClient (t : Topic) (c : Client) : Topic :=
  {| name := name t; id := id t; ttype := ttype t;
     clients := delete (cid c) (clients t) |}.

Definition IsSubscribed (t : Topic) (c : Client) : bool :=
  bool_decide (is_Some (clients t !! cid c)).

End Fanout.

End pubsubsse.

(** ** Reading the state *)

(** What a pointer to a topic points to. *)
Definition loadTopic (p : place) (name : string) (σ : state) : option topic :=
  match p with
  | Shared => publicTopics σ !! name
  | PrivateOf a => c ← heap σ !! a; c_privateTopics c !! name
  end.

(** The subscriber set of the topic a pointer points to. *)
Definition subscribers (p : place) (name : string) (σ : state) : option (gset string) :=
  dom ∘ t_Clients <$> loadTopic p name σ.

(** The frames sent so far to the client at an address. *)
Definition streamOf (a : nat) (σ : state) : list string :=
  default [] (c_stream <$> heap σ !! a).

(** A send function applied to a live client: the frame is appended when
    the client is receiving, dropped otherwise. *)
Definition delivered (a : nat) (c : client) (frame : string) (σ : state) : state :=
  match c_status c with
  | Receving => set_heap (<[a := set_stream (c_stream c ++ [frame]) c]> (heap σ)) σ
  | Waiting => σ
  end.

(** The notices of [sendNewSubscribedTopic] and [sendUnsubscribedTopic] on
    the wire. *)
Definition noticeFrame (ty : string) (name : string) : string :=
  js "{'sys':[{'type':" +:+ quote ty +:+ js ",'list':[{'name':" +:+ quote name
     +:+ js "}]}],'updates':null}".

(** The frame of [sendUpdate] on the wire, given the text of the data. *)
Definition updateFrame (name : string) (d : string) : string :=
  js "{'sys':null,'updates':[{'topic':" +:+ quote name +:+ js ",'data':"
     +:+ d +:+ js "}]}".

(** The map [GetTopics] builds for a client with private topics [priv]. *)
Definition topicsOf (range : ranging) (pub priv : gmap string topic) : gmap string topic :=
  foldl addByName (foldl addByName ∅ (range _ pub)) (range _ priv).

(** The map [GetSubscribedTopics] builds from it for the client [id]. *)
Definition subscribedOf (range : ranging) (id : string) (topics : gmap string topic)
    : gmap string topic :=
  foldl (λ subs kt,
           if decide (is_Some (t_Clients kt.2 !! id)) then addByName subs kt else subs)
        ∅ (range _ topics).

(** A topic after subscribers were removed from it. *)
Definition topic_shrinks (t t' : topic) : Prop :=
  t_Name t' = t_Name t ∧ dom (t_Clients t') ⊆ dom (t_Clients t).

(** [σ'] is [σ] after the client at [a] was unsubscribed from topics and
    sent frames: the same clients and topics, with fewer subscribers. *)
Definition shrinks (a : nat) (σ σ' : state) : Prop :=
  clients σ' = clients σ ∧
  (∀ b, b ≠ a → heap σ' !! b = heap σ !! b) ∧
  (∀ c, heap σ !! a = Some c → ∃ c', heap σ' !! a = Some c' ∧ c_id c' = c_id c) ∧
  (∀ p n, option_Forall2 topic_shrinks (loadTopic p n σ) (loadTopic p n σ')).

(** ** What the sources leave to their callers *)

(** [NewSSEPubSubHandler()], with no client object allocated. *)
Definition NewSSEPubSubHandler : state :=
  {| heap := []; clients := ∅; publicTopics := ∅ |}.

(** Modelled from the spec: public topics are registered with the hub at
    configuration time; no function of the sources adds one. *)
Definition registerPublic (name : string) (σ : state) : state :=
  {| heap := heap σ; clients := clients σ;
     publicTopics := <[name := {| t_Name := name; t_Type := Public; t_Clients := ∅ |}]>
                       (publicTopics σ) |}.

(** The assignment to [c.status]; no function of the sources makes it,
    it belongs to the code that drains the stream. *)
Definition set_status (st : status) (c : client) : client :=
  {| c_id := c_id c; c_stream := c_stream c; c_status := st;
     c_privateTopics := c_privateTopics c |}.

(** The status of the client at an address set from outside. *)
Definition setStatus (a : nat) (st : status) (σ : state) : state :=
  set_heap (alter (set_status st) a (heap σ)) σ.

(** ** States to run the operations on *)

(** The client "c1" with a status, a stream and private topics. *)
Definition c1 (st : status) (q : list string) (priv : gmap string topic) : client :=
  {| c_id := "c1"; c_stream := q; c_status := st; c_privateTopics := priv |}.

Definition orders (subs : gmap string nat) : topic :=
  {| t_Name := "orders"; t_Type := Private; t_Clients := subs |}.

Definition news (subs : gmap string nat) : topic :=
  {| t_Name := "news"; t_Type := Public; t_Clients := subs |}.

Definition alerts : topic := {| t_Name := "alerts"; t_Type := Private; t_Clients := ∅ |}.

(** The hub whose only client object is [c], at address 0 and registered
    under "c1". *)
Definition hub_of (c : client) (pub : gmap string topic) : state :=
  {| heap := [c]; clients := {["c1" := 0]}; publicTopics := pub |}.

Definition ordersListed : string :=
  js "{'sys':[{'type':'topics','list':[{'name':'orders','type':'private'}]}],'updates':null}".

Definition ordersSubscribed : string :=
  js "{'sys':[{'type':'subscribed','list':[{'name':'orders'}]}],'updates':null}".

(** "c1" receiving, with no topic. *)
Definition hub_c1 : state := hub_of (c1 Receving [] ∅) ∅.

(** Then with its private topic "orders". *)
Definition hub_orders : state :=
  hub_of (c1 Receving [ordersListed] {["orders" := orders ∅]}) ∅.

(** Then subscribed to it. *)
Definition hub_subscribed : state :=
  hub_of (c1 Receving [ordersListed; ordersSubscribed]
             {["orders" := orders {["c1" := 0]}]}) ∅.

(** "c1" with two private topics. *)
Definition hub_two : state :=
  hub_of (c1 Receving [] (<["alerts" := alerts]> {["orders" := orders ∅]})) ∅.

(** The public topic "news" is registered and "c1", which is waiting, has
    subscribed to it. *)
Definition hub_news : state :=
  hub_of (c1 Waiting [] ∅) {["news" := news {["c1" := 0]}]}.

(** Then "c1" has created a private topic of the same name. *)
Definition hub_shadow : state :=
  hub_of (c1 Waiting [] {["news" := {| t_Name := "news"; t_Type := Private;
                                        t_Clients := ∅ |}]})
         {["news" := news {["c1" := 0]}]}.

(** Two clients, "c1" at address 0 and "c2" at address 1, both receiving,
    both subscribed to the public topic "news". *)
Definition hub_pair : state :=
  {| heap := [c1 Receving [] ∅;
              {| c_id := "c2"; c_stream := []; c_status := Receving;
                 c_privateTopics := ∅ |}];
     clients := <["c2" := 1]> {["c1" := 0]};
     publicTopics := {["news" := news (<["c2" := 1]> {["c1" := 0]})]} |}.

(** ** The HTTP handlers *)

(** The fields of [sSEPubSubHandler] that configure the handlers, with the
    values [NewSSEPubSubHandler] gives them ([Timeout] in nanoseconds). *)
Record settings := {
  Timeout : Z;
  ClientIDQueryParameter : string;
  TopicQueryParameter : string
}.

Definition defaultSettings : settings :=
  {| Timeout := 10 * 1000000000;
     ClientIDQueryParameter := "client_id";
     TopicQueryParameter := "topic" |}.

(** A request, as the handlers read it: [r.URL.Query().Get(key)], which is
    the empty string for a parameter that is absent. *)
Definition request : Type := string → string.

(** What a handler has written to its [http.ResponseWriter]. *)
Record response := {
  Header : list (string * string);
  StatusCode : nat;
  Body : string
}.

Definition StatusOK : nat := 200.
Definition StatusNotFound : nat := 404.

Definition jsonResponse (code : nat) (body : string) : response :=
  {| Header := [("Content-Type", "application/json")]; StatusCode := code; Body := body |}.

(** The body of every success. *)
Definition okBody : string := js "{'ok': true}".

(** The body of an error: [what] is "client" or "topic", [arg] the text
    put in place of the verb of the format. *)
Definition errorBody (what arg : string) : string :=
  js "{'ok': false, 'error': '" +:+ what +:+ " " +:+ arg +:+ js " does not exists'}".

(** [s.GetClients()] *)
Definition GetClients (σ : state) : gmap string nat := clients σ.

(** [s.AddClient(w, r)]; [uuid] is what [uuid.New().String()] returns. *)
Definition AddClient (s : settings) (uuid : string) (r : request) (σ : state)
    : response * state :=
  let clientID := r (ClientIDQueryParameter s) in
  (jsonResponse StatusOK okBody, (NewClient uuid clientID σ).2).

(** [s.Subscribe(w, r)] *)
Definition Subscribe (range : ranging) (s : settings) (r : request) (σ : state)
    : run (response * state) :=
  let clientID := r (ClientIDQueryParameter s) in
  let topic := r (TopicQueryParameter s) in
  match clients σ !! clientID with
  | None => Return (jsonResponse StatusNotFound (errorBody "client" clientID), σ)
  | Some client =>
      clTop ← GetTopics range client σ;
      if decide (is_Some (clTop !! topic)) then
        '(_, σ') ← Sub client topic σ;
        Return (jsonResponse StatusOK okBody, σ')
      else Return (jsonResponse StatusNotFound (errorBody "topic" clientID), σ)
  end.

(** [s.Unsubscribe(w, r)] *)
Definition Unsubscribe (range : ranging) (s : settings) (r : request) (σ : state)
    : run (response * state) :=
  let clientID := r (ClientIDQueryParameter s) in
  let topic := r (TopicQueryParameter s) in
  match clients σ !! clientID with
  | None => Return (jsonResponse StatusNotFound (errorBody "client" clientID), σ)
  | Some client =>
      clTop ← GetTopics range client σ;
      if decide (is_Some (clTop !! topic)) then
        '(_, σ') ← Unsub client topic σ;
        Return (jsonResponse StatusOK okBody, σ')
      else Return (jsonResponse StatusNotFound (errorBody "topic" clientID), σ)
  end.

(** ** The states the operations keep to *)

(** Every registered id names a client object of that id; every topic is
    filed under its name; every subscriber entry of a topic points to a
    client object of the entry's id, and a private topic has no subscriber
    but its owner. *)
Definition wf (σ : state) : Prop :=
  (∀ id a, clients σ !! id = Some a → ∃ c, heap σ !! a = Some c ∧ c_id c = id) ∧
  (∀ p n t, loadTopic p n σ = Some t → t_Name t = n) ∧
  (∀ p n t id b, loadTopic p n σ = Some t → t_Clients t !! id = Some b →
     (∃ c, heap σ !! b = Some c ∧ c_id c = id) ∧ (∀ a, p = PrivateOf a → b = a)).

(** One call of an operation of the sources. *)
Inductive step (range : ranging) (s : settings) (σ : state) : state → Prop :=
| step_NewClient uuid id :
    step range s σ (NewClient uuid id σ).2
| step_NewPrivateTopic a name err σ' :
    NewPrivateTopic range a name σ = Return (err, σ') → step range s σ σ'
| step_Sub a name err σ' :
    Sub a name σ = Return (err, σ') → step range s σ σ'
| step_Unsub a name err σ' :
    Unsub a name σ = Return (err, σ') → step range s σ σ'
| step_Pub a to message err σ' :
    Pub a to message σ = Return (err, σ') → step range s σ σ'
| step_RemoveClient id err σ' :
    RemoveClient range id σ = Return (err, σ') → step range s σ σ'
| step_handler_Pub topic message err σ' :
    sSEPubSubHandler_Pub range topic message σ = Return (err, σ') → step range s σ σ'
| step_AddClient uuid r :
    step range s σ (AddClient s uuid r σ).2
| step_Subscribe r w σ' :
    Subscribe range s r σ = Return (w, σ') → step range s σ σ'
| step_Unsubscribe r w σ' :
    Unsubscribe range s r σ = Return (w, σ') → step range s σ σ'.

(** Between two states: the client objects of the first are in the second
    at the same address, with the same id and status and a stream that
    begins with what it was. *)
Definition keeps (σ σ' : state) : Prop :=
  ∀ b c, heap σ !! b = Some c →
    ∃ c', heap σ' !! b = Some c' ∧ c_id c' = c_id c ∧ c_status c' = c_status c ∧
          c_stream c `prefix_of` c_stream c'.

(** The same, and no stream has changed but that of the client at [a], and
    that one only if it is receiving. *)
Definition quiet (a : nat) (σ σ' : state) : Prop :=
  keeps σ σ' ∧
  ∀ b c, heap σ !! b = Some c → b ≠ a ∨ c_status c = Waiting →
    streamOf b σ' = c_stream c.

(** What an operation called on the client at [a] may do: it keeps the
    client objects, the registered ids and the well-formedness, and sends
    only to [a], and only if [a] is receiving. *)
Definition tame (a : nat) (σ σ' : state) : Prop :=
  quiet a σ σ' ∧ clients σ' = clients σ ∧ length (heap σ') = length (heap σ) ∧
  (wf σ → wf σ').

(** One call of an operation on behalf of the client at [a]: a method of
    the client, the removal of the client, or a handler called with the id
    of the client. *)
Inductive client_step (range : ranging) (s : settings) (a : nat) (σ : state)
    : state → Prop :=
| call_NewPrivateTopic name err σ' :
    NewPrivateTopic range a name σ = Return (err, σ') → client_step range s a σ σ'
| call_Sub name err σ' :
    Sub a name σ = Return (err, σ') → client_step range s a σ σ'
| call_Unsub name err σ' :
    Unsub a name σ = Return (err, σ') → client_step range s a σ σ'
| call_Pub to message err σ' :
    Pub a to message σ = Return (err, σ') → client_step range s a σ σ'
| call_RemoveClient id err σ' :
    clients σ !! id = Some a →
    RemoveClient range id σ = Return (err, σ') → client_step range s a σ σ'
| call_Subscribe r w σ' :
    clients σ !! r (ClientIDQueryParameter s) = Some a →
    Subscribe range s r σ = Return (w, σ') → client_step range s a σ σ'
| call_Unsubscribe r w σ' :
    clients σ !! r (ClientIDQueryParameter s) = Some a →
    Unsubscribe range s r σ = Return (w, σ') → client_step range s a σ σ'.

(** The request with the query [client_id=c1&topic=orders]. *)
Definition request_c1_orders : request :=
  λ key, if decide (key = "client_id") then "c1"
         else if decide (key = "topic") then "orders" else "".

(** The entry of [sys] for a list of topics: none when the list is
    empty. *)
Definition sysEntry (ty : string) (entries : list eventDataSysList) : list eventDataSys :=
  match entries with
  | [] => []
  | _ => [{| sys_Type := ty; sys_List := Some entries |}]
  end.

(** The envelope of [generateInit] for the topics and the subscribed
    topics in the order they are ranged over. *)
Definition initData (topics subtopics : list (string * topic)) : eventData :=
  {| Sys := Some (sysEntry "topics" (topicsEntry ∘ snd <$> topics) ++
                  sysEntry "subscribed" (nameEntry ∘ snd <$> subtopics));
     Updates := None |}.

(** The request with the query [client_id=c2&topic=news]. *)
Definition request_c2_news : request :=
  λ key, if decide (key = "client_id") then "c2"
         else if decide (key = "topic") then "news" else "".

(** * The locks of a client and the wait of a send

    The operations above leave [c.lock] out: each of them locks and unlocks
    it in turn and never while it holds it.  [RemovePrivateTopic] does not:
    it calls [Unsub] between its own [c.lock.Lock()] and the deferred
    [c.lock.Unlock()].  Its embedding therefore carries the locks.  A
    [sync.Mutex] is not reentrant: [Lock] by the goroutine that holds it
    waits until another goroutine unlocks it, and the sources have no
    [Unlock] but the one that follows a [Lock] in the same function, so the
    wait does not end.

    The operations above also take every frame sent as received.  [stream]
    is made by [make(chan string)], without a buffer: [c.stream <- msg]
    waits until a goroutine receives the frame, and the only receive of the
    sources is in the loop of the handler [Event].  Here a send to a client
    that no goroutine receives from waits.

    A [task] is a call made by one goroutine that holds [c.lock] of the
    clients at the addresses of a set; the other goroutines are the
    receivers. *)
Module locking.

Inductive outcome (A : Type) : Type :=
| Done (x : A) (h : gset nat) (σ : state)  (* returns, holding [h] *)
| Panics (p : panic)
| Blocks (a : nat)   (* waits for ever in [Lock] of the client at [a] *)
| Waits (a : nat) (h : gset nat) (σ : state)
    (* waits in [c.stream <- msg] of the client at [a], holding [h], in the
       state [σ], for as long as nobody receives *)
| Fatal (a : nat).   (* "sync: unlock of unlocked mutex" *)
Arguments Done {A} x h σ.
Arguments Panics {A} p.
Arguments Blocks {A} a.
Arguments Waits {A} a h σ.
Arguments Fatal {A} a.

Definition task (A : Type) : Type := gset nat → state → outcome A.

Definition andThen {A B : Type} (m : task A) (f : A → task B) : task B :=
  λ h σ,
    match m h σ with
    | Done x h' σ' => f x h' σ'
    | Panics p => Panics p
    | Blocks a => Blocks a
    | Waits a h' σ' => Waits a h' σ'
    | Fatal a => Fatal a
    end.

#[global] Instance task_ret : MRet task := λ A x h σ, Done x h σ.
#[global] Instance task_bind : MBind task := λ A B f m, andThen m f.

(** [c.lock.Lock()] and [c.lock.Unlock()] of the client at [a]. *)
Definition Lock (a : nat) : task unit :=
  λ h σ, if decide (a ∈ h) then Blocks a else Done () ({[a]} ∪ h) σ.

Definition Unlock (a : nat) : task unit :=
  λ h σ, if decide (a ∈ h) then Done () (h ∖ {[a]}) σ else Fatal a.

(** A computation that reads the state, one that changes it, and one that
    does neither. *)
Definition reading {A : Type} (f : state → run A) : task A :=
  λ h σ, match f σ with Return x => Done x h σ | Panic p => Panics p end.

Definition writing (f : state → run state) : task unit :=
  λ h σ, match f σ with Return σ' => Done () h σ' | Panic p => Panics p end.

Definition pure {A : Type} (m : run A) : task A := reading (λ _, m).

Section Receivers.

(** The clients, by address, from whose [stream] a goroutine receives. *)
Variable receivers : gset nat.

Variable range : ranging.

(** [c.stream <- msg] *)
Definition send (a : nat) (msg : string) : task unit :=
  reading (deref a);;
  if decide (a ∈ receivers) then writing (send a msg) else λ h σ, Waits a h σ.

(** [if c.status == Receving { c.stream <- string(jsonData) }] *)
Definition sendIfReceving (a : nat) (jsonData : string) : task unit :=
  c ← reading (deref a);
  if decide (c_status c = Receving) then send a jsonData else mret ().

(** [c.sendUnsubscribedTopic(top)] *)
Definition sendUnsubscribedTopic (a : nat) (top : topic) : task (option error) :=
  fulldata ← pure (noticeData "unsubscribed" top);
  match marshalled fulldata with
  | (_, Some err) => mret (Some err)
  | (jsonData, None) =>
      Lock a;;
      sendIfReceving a jsonData;;
      Unlock a;;
      mret None
  end.

(** [c.Unsub(name)] *)
Definition Unsub (a : nat) (name : string) : task (option error) :=
  Lock a;;
  c ← reading (deref a);
  found ← reading (λ σ, Return (findTopic a c name σ));
  match found with
  | None => Unlock a;; mret (Some (TopicDoesNotExist name))
  | Some (p, topic) =>
      if decide (is_Some (t_Clients topic !! c_id c)) then
        writing (λ σ, Return (storeClients p name (delete (c_id c) (t_Clients topic)) σ));;
        Unlock a;;
        sendUnsubscribedTopic a topic;;
        mret None
      else Unlock a;; mret (Some (ClientNotSubscribed (c_id c) name))
  end.

(** [delete(c.privateTopics, name)] *)
Definition deletePrivate (a : nat) (name : string) (σ : state) : run state :=
  c ← deref a σ;
  Return (set_heap (<[a := set_privateTopics (delete name (c_privateTopics c)) c]>
                      (heap σ)) σ).

(** [c.RemovePrivateTopic(name)]; the deferred [Unlock] runs last. *)
Definition RemovePrivateTopic (a : nat) (name : string) : task (option error) :=
  c ← reading (deref a);
  if decide (is_Some (c_privateTopics c !! name)) then
    Lock a;;
    Unsub a name;;
    writing (deletePrivate a name);;
    Unlock a;;
    mret None
  else mret (Some (TopicDoesNotExist name)).

(** The loop of the handler's [Pub] over [t.Clients]. *)
Fixpoint fanout (t : topic) (message : value) (subs : list (string * nat))
    : task (option error) :=
  match subs with
  | [] => mret None
  | (_, client) :: rest =>
      match generateUpdateData client t message with
      | (_, Some err) => mret (Some err)
      | (jsonMessage, None) => send client jsonMessage;; fanout t message rest
      end
  end.

(** [s.Pub(topic, message)] of the handler.  It holds [s.lock] for reading
    from its first statement to its return, so also while it waits; [s.lock]
    is not among the locks followed here, as nothing the call runs takes
    it. *)
Definition sSEPubSubHandler_Pub (topic : string) (message : value)
    : task (option error) :=
  found ← reading (λ σ, Return (publicTopics σ !! topic));
  match found with
  | None => mret (Some (TopicDoesNotExist topic))
  | Some t => fanout t message (range _ (t_Clients t))
  end.

End Receivers.

(** An operation of the sections above as a task: it returns holding what
    the caller held, every frame received. *)
Definition lockfree {A : Type} (f : state → run (A * state)) : task A :=
  λ h σ, match f σ with Return (x, σ') => Done x h σ' | Panic p => Panics p end.

End locking.


(** The calls of a client and of the hub that return an error. *)
Inductive call :=
| CallNewPrivateTopic (a : nat) (name : string)
| CallSub (a : nat) (name : string)
| CallUnsub (a : nat) (name : string)
| CallPub (a : nat) (to : string) (message : value)
| CallRemoveClient (id : string).

Definition exec (range : ranging) (k : call) (σ : state) : run (option error * state) :=
  match k with
  | CallNewPrivateTopic a name => NewPrivateTopic range a name σ
  | CallSub a name => Sub a name σ
  | CallUnsub a name => Unsub a name σ
  | CallPub a to message => Pub a to message σ
  | CallRemoveClient id => RemoveClient range id σ
  end.


(** The statements of [generateInit] that follow its two snapshots. *)
Definition generateInitFrom (range : ranging) (topics subtopics : gmap string topic)
    : run (string * option error) :=
  let fulldata := {| Sys := Some []; Updates := None |} in
  let fulldata :=
    if decide (0 < size topics) then appendSys eventDataSys_zero fulldata
    else fulldata in
  let fulldata :=
    if decide (0 < size subtopics) then appendSys eventDataSys_zero fulldata
    else fulldata in
  fulldata ← forEach (λ fd kt, setSys 0 "topics" (topicsEntry kt.2) fd)
                     (range _ topics) fulldata;
  fulldata ← forEach (λ fd kt, setSys 1 "subscribed" (nameEntry kt.2) fd)
                     (range _ subtopics) fulldata;
  Return (marshalled fulldata).

(** [generateInit] among other goroutines.  [c.GetTopics()] and
    [c.GetSubscribedTopics()] each take [c.lock] and release it before they
    return, and [generateInit] holds no lock of its own: [others] is what
    other goroutines do to the state between the two snapshots. *)
Definition generateInit_among (range : ranging) (a : nat) (others : state → run state)
    (σ : state) : run ((string * option error) * state) :=
  topics ← GetTopics range a σ;
  σ' ← others σ;
  subtopics ← GetSubscribedTopics range a σ';
  r ← generateInitFrom range topics subtopics;
  Return (r, σ').

(** Another goroutine creates a private topic of the client at [a] and
    subscribes the client to it: [c.NewPrivateTopic(name)], [c.Sub(name)]. *)
Definition createAndSubscribe (range : ranging) (a : nat) (name : string) (σ : state)
    : run state :=
  '(_, σ1) ← NewPrivateTopic range a name σ;
  '(_, σ2) ← Sub a name σ1;
  Return σ2.


(** [send] with a record of its calls: the client, the envelope and what
    the call returned. *)
Definition traced {Client world : Type}
    (send : Client → eventData → world → option string * world)
    (c : Client) (fd : eventData) (wt : world * list (Client * eventData * option string))
    : option string * (world * list (Client * eventData * option string)) :=
  let '(e, w) := send c fd wt.1 in (e, (w, wt.2 ++ [(c, fd, e)])).

(** The line [Topic.Pub] logs for a send that returned the error [err]. *)
Definition errorLine (topicName err : string) : string :=
  "[T:" +:+ topicName +:+ "]: Error sending data to client: " +:+ err.

(** The lines logged for a record of calls. *)
Definition errorLines {Client : Type} (topicName : string)
    (calls : list (Client * eventData * option string)) : list string :=
  omap (λ call, errorLine topicName <$> call.2) calls.

(** A [send] that fails for the client "gone" and hands the frame over to
    every other client; the world is the list of the clients served. *)
Definition send_but_gone (c : string) (fd : eventData) (w : list string)
    : option string * list string :=
  if decide (c = "gone") then (Some "closed", w) else (None, w ++ [c]).

(** The topic "news" of package [pubsubsse] with the subscribers "c1",
    "c2" and "gone", a client being its id. *)
Definition news_of_three : pubsubsse.Topic string :=
  {| pubsubsse.name := "news"; pubsubsse.id := "6ba7b810";
     pubsubsse.ttype := pubsubsse.TPublic;
     pubsubsse.clients := <["c2" := "c2"]> (<["gone" := "gone"]> {["c1" := "c1"]}) |}.


(** "c1" at address 0 and "c2" at address 1 as [NewClient] makes them,
    both subscribed to the public topic "news". *)
Definition hub_pair_new : state :=
  {| heap := [c1 Waiting [] ∅;
              {| c_id := "c2"; c_stream := []; c_status := Waiting;
                 c_privateTopics := ∅ |}];
     clients := <["c2" := 1]> {["c1" := 0]};
     publicTopics := {["news" := news (<["c2" := 1]> {["c1" := 0]})]} |}.


(** * Properties *)

Arguments send : simpl never.
Arguments sendIfReceving : simpl never.
Arguments sendUpdate : simpl never.
Arguments sendNewTopicsList : simpl never.
Arguments sendNewSubscribedTopic : simpl never.
Arguments sendUnsubscribedTopic : simpl never.
Arguments storeClients : simpl never.
Arguments Sub : simpl never.
Arguments Unsub : simpl never.
Arguments GetTopics : simpl never.
Arguments GetSubscribedTopics : simpl never.
Arguments marshalled : simpl never.

(** ** The store *)

Lemma deref_live a c σ : heap σ !! a = Some c → deref a σ = Return c.
Proof. unfold deref. by intros ->. Qed.

Lemma deref_Return a c σ : deref a σ = Return c → heap σ !! a = Some c.
Proof. unfold deref. by destruct (heap σ !! a); intros [=->]. Qed.

Lemma send_live a c msg σ :
  heap σ !! a = Some c →
  send a msg σ = Return (set_heap (<[a := set_stream (c_stream c ++ [msg]) c]> (heap σ)) σ).
Proof. intros H. unfold send. by rewrite (deref_live _ _ _ H). Qed.

Lemma sendIfReceving_live a c jsonData σ :
  heap σ !! a = Some c →
  sendIfReceving a jsonData σ = Return (delivered a c jsonData σ).
Proof.
  intros H. unfold sendIfReceving, delivered.
  rewrite (deref_live _ _ _ H). cbn.
  destruct (c_status c); cbn; [done|]. by rewrite (send_live _ _ _ _ H).
Qed.

Lemma set_heap_id σ : set_heap (heap σ) σ = σ.
Proof. by destruct σ. Qed.

Lemma heap_delivered a c frame σ :
  heap σ !! a = Some c →
  heap (delivered a c frame σ) !! a =
    Some (match c_status c with
          | Receving => set_stream (c_stream c ++ [frame]) c
          | Waiting => c
          end).
Proof.
  intros H. unfold delivered. destruct (c_status c); [done|]. cbn.
  apply list_lookup_insert_eq. by eapply lookup_lt_Some.
Qed.

Lemma heap_delivered_ne a b c frame σ :
  a ≠ b → heap (delivered a c frame σ) !! b = heap σ !! b.
Proof.
  intros H. unfold delivered. destruct (c_status c); [done|]. cbn.
  by apply list_lookup_insert_ne.
Qed.

Lemma publicTopics_delivered a c frame σ :
  publicTopics (delivered a c frame σ) = publicTopics σ.
Proof. unfold delivered. by destruct (c_status c). Qed.

Lemma clients_delivered a c frame σ :
  clients (delivered a c frame σ) = clients σ.
Proof. unfold delivered. by destruct (c_status c). Qed.

(** ** The frames *)

Lemma append_assoc (s1 s2 s3 : string) : (s1 +:+ s2) +:+ s3 = s1 +:+ s2 +:+ s3.
Proof.
  induction s1 as [|c s1 IH]; [done|].
  change (String c ((s1 +:+ s2) +:+ s3) = String c (s1 +:+ s2 +:+ s3)).
  by rewrite IH.
Qed.

(** Two texts made of the same pieces are equal. *)
Ltac same_text :=
  cbv -[String.append quote_bytes]; rewrite ?append_assoc; reflexivity.

Lemma noticeData_frame ty top :
  ∃ fulldata, noticeData ty top = Return fulldata ∧
    marshalled fulldata = (noticeFrame ty (t_Name top), None).
Proof.
  eexists. split; [reflexivity|].
  unfold marshalled, noticeFrame. cbn. f_equal. same_text.
Qed.

Lemma updateData_frame to data d :
  marshal data = Some d →
  marshalled (updateData to data) = (updateFrame (t_Name to) d, None).
Proof.
  intros H. unfold marshalled, Marshal, updateData, updateFrame. cbn.
  unfold marshal_update. cbn. rewrite H. cbn. f_equal. same_text.
Qed.

Lemma updateData_error to data :
  marshal data = None → marshalled (updateData to data) = ("", Some MarshalError).
Proof.
  intros H. unfold marshalled, Marshal, updateData. cbn.
  unfold marshal_update. cbn. by rewrite H.
Qed.

Lemma sendNewSubscribedTopic_live a c top σ :
  heap σ !! a = Some c →
  sendNewSubscribedTopic a top σ =
    Return (None, delivered a c (noticeFrame "subscribed" (t_Name top)) σ).
Proof.
  intros H. unfold sendNewSubscribedTopic.
  destruct (noticeData_frame "subscribed" top) as (fd & -> & Hfd). cbn.
  rewrite Hfd. by rewrite (sendIfReceving_live _ _ _ _ H).
Qed.

Lemma sendUnsubscribedTopic_live a c top σ :
  heap σ !! a = Some c →
  sendUnsubscribedTopic a top σ =
    Return (None, delivered a c (noticeFrame "unsubscribed" (t_Name top)) σ).
Proof.
  intros H. unfold sendUnsubscribedTopic.
  destruct (noticeData_frame "unsubscribed" top) as (fd & -> & Hfd). cbn.
  rewrite Hfd. by rewrite (sendIfReceving_live _ _ _ _ H).
Qed.

Lemma sendUpdate_live a c to data d σ :
  heap σ !! a = Some c → marshal data = Some d →
  sendUpdate a to data σ = Return (None, delivered a c (updateFrame (t_Name to) d) σ).
Proof.
  intros H Hd. unfold sendUpdate. rewrite (updateData_frame _ _ _ Hd).
  by rewrite (sendIfReceving_live _ _ _ _ H).
Qed.

Lemma sendUpdate_error a to data σ :
  marshal data = None → sendUpdate a to data σ = Return (Some MarshalError, σ).
Proof. intros Hd. unfold sendUpdate. by rewrite (updateData_error _ _ Hd). Qed.

(** ** Publishing from a client *)

Lemma Pub_delivers a c to t message d σ :
  heap σ !! a = Some c → c_status c = Receving →
  c_privateTopics c !! to = Some t → marshal message = Some d →
  Pub a to message σ =
    Return (None, set_heap (<[a := set_stream (c_stream c ++ [updateFrame (t_Name t) d]) c]>
                              (heap σ)) σ).
Proof.
  intros H Hs Ht Hd. unfold Pub. rewrite (deref_live _ _ _ H). cbn.
  rewrite decide_False by by rewrite Hs.
  rewrite Ht, (sendUpdate_live _ _ _ _ _ _ H Hd).
  unfold delivered. by rewrite Hs.
Qed.

(** C6.  [Pub] of a client fails with the error "not receving" when the
    client's status is [Waiting]; otherwise it fails with the error "topic
    does not exists" when the name is not among the client's private topics
    (whatever the public topics hold).  In both cases nothing is sent.  When
    a call changes the state, both checks have passed, and the change is the
    update frame appended to the client's own stream. *)
Theorem Pub_checks (a : nat) (c : client) (to : string) (message : value) (σ : state) :
  heap σ !! a = Some c →
  (c_status c = Waiting →
     Pub a to message σ = Return (Some (ClientNotReceiving (c_id c)), σ) ∧
     kind_of (ClientNotReceiving (c_id c)) = NotReceiving) ∧
  (c_status c = Receving → c_privateTopics c !! to = None →
     Pub a to message σ = Return (Some (TopicDoesNotExist to), σ) ∧
     kind_of (TopicDoesNotExist to) = NotFound) ∧
  (∀ err σ', Pub a to message σ = Return (err, σ') → σ' ≠ σ →
     c_status c = Receving ∧ err = None ∧
     ∃ t d, c_privateTopics c !! to = Some t ∧ marshal message = Some d ∧
            σ' = set_heap (<[a := set_stream (c_stream c ++ [updateFrame (t_Name t) d]) c]>
                             (heap σ)) σ) ∧
  (∀ t d, c_status c = Receving → c_privateTopics c !! to = Some t →
     marshal message = Some d →
     Pub a to message σ =
       Return (None, set_heap (<[a := set_stream (c_stream c ++ [updateFrame (t_Name t) d]) c]>
                                 (heap σ)) σ)).
Proof.
  intros H. unfold Pub. rewrite (deref_live _ _ _ H). cbn.
  split; [|split; [|split]].
  - intros ->. by rewrite decide_True.
  - intros Hs ->. rewrite decide_False; [done|]. by rewrite Hs.
  - intros err σ' Hrun Hne.
    destruct (c_status c) eqn:Hs.
    { rewrite decide_True in Hrun by done. by simplify_eq. }
    rewrite decide_False in Hrun by done.
    destruct (c_privateTopics c !! to) as [t|] eqn:Ht; [|by simplify_eq].
    destruct (marshal message) as [d|] eqn:Hd.
    + rewrite (sendUpdate_live _ _ _ _ _ _ H Hd) in Hrun.
      unfold delivered in Hrun. rewrite Hs in Hrun. simplify_eq.
      split; [done|]. split; [done|]. by exists t, d.
    + rewrite (sendUpdate_error _ _ _ _ Hd) in Hrun. by simplify_eq.
  - intros t d Hs Ht Hd.
    pose proof (Pub_delivers _ _ _ _ _ _ _ H Hs Ht Hd) as HPub.
    unfold Pub in HPub. by rewrite (deref_live _ _ _ H) in HPub.
Qed.

Lemma Pub_checks_witness :
  heap hub_orders !! 0 = Some (c1 Receving [ordersListed] {["orders" := orders ∅]}) ∧
  Pub 0 "orders" (Object [("id", Number 1)]) hub_orders =
    Return (None,
            hub_of (c1 Receving
                       [ordersListed;
                        js "{'sys':null,'updates':[{'topic':'orders','data':{'id':1}}]}"]
                       {["orders" := orders ∅]}) ∅).
Proof.
  split; [reflexivity|].
  apply (proj2 (proj2 (proj2 (Pub_checks 0 _ "orders" (Object [("id", Number 1)])
                                hub_orders eq_refl))) (orders ∅) (js "{'id':1}"));
    reflexivity.
Defined.

(** ** Creating clients *)

(** C7.  Two calls of [NewClient] with the same id that is not empty return
    the same client object (the same address, holding an object that the
    second call does not touch); the second call changes nothing at all.
    After them [s.clients] differs from what it was by the one entry of the
    id, which is new when the id was unknown and the old one otherwise. *)
Theorem NewClient_idempotent (uuid1 uuid2 id : string) (σ : state) :
  id ≠ "" →
  ∃ a σ1,
    NewClient uuid1 id σ = (a, σ1) ∧
    NewClient uuid2 id σ1 = (a, σ1) ∧
    clients σ1 = <[id := a]> (clients σ) ∧
    (clients σ !! id = None →
       size (clients σ1) = S (size (clients σ)) ∧
       heap σ1 = heap σ ++ [{| c_id := id; c_stream := []; c_status := Waiting;
                               c_privateTopics := ∅ |}] ∧
       a = length (heap σ)) ∧
    (∀ a0, clients σ !! id = Some a0 → a = a0 ∧ σ1 = σ).
Proof.
  intros Hid. unfold NewClient. rewrite !decide_False by done.
  destruct (clients σ !! id) as [a0|] eqn:Hc.
  - exists a0, σ. rewrite Hc.
    split; [done|]. split; [done|]. split; [by rewrite insert_id|].
    split; [done|]. by intros a1 [= ->].
  - eexists _, _. split; [reflexivity|]. cbn. rewrite lookup_insert_eq.
    split; [done|]. split; [done|]. split; [|done].
    intros _. by rewrite map_size_insert_None.
Qed.

Lemma NewClient_idempotent_witness :
  "c1" ≠ "" ∧
  ∃ a σ1,
    NewClient "7b0e" "c1" NewSSEPubSubHandler = (a, σ1) ∧
    NewClient "41c2" "c1" σ1 = (a, σ1) ∧
    clients σ1 = <["c1" := a]> (clients NewSSEPubSubHandler) ∧
    (clients NewSSEPubSubHandler !! "c1" = None →
       size (clients σ1) = S (size (clients NewSSEPubSubHandler)) ∧
       heap σ1 = heap NewSSEPubSubHandler ++ [c1 Waiting [] ∅] ∧
       a = length (heap NewSSEPubSubHandler)) ∧
    (∀ a0, clients NewSSEPubSubHandler !! "c1" = Some a0 → a = a0 ∧ σ1 = NewSSEPubSubHandler).
Proof.
  split; [done|].
  apply (NewClient_idempotent "7b0e" "41c2" "c1" NewSSEPubSubHandler). done.
Defined.

(** ** Pointers to topics *)

Lemma loadTopic_storeClients p name m σ p' n' :
  loadTopic p' n' (storeClients p name m σ) =
    if decide (p' = p ∧ n' = name) then set_Clients m <$> loadTopic p name σ
    else loadTopic p' n' σ.
Proof.
  unfold storeClients. destruct p as [a|], p' as [b|]; cbn.
  - rewrite list_lookup_alter.
    destruct (decide (a = b)) as [->|Hab].
    + destruct (heap σ !! b) as [c|]; cbn.
      * rewrite lookup_alter.
        destruct (decide (name = n')) as [->|Hn].
        -- by rewrite decide_True.
        -- rewrite decide_False; [done|]. by intros [_ ->].
      * by case_decide.
    + rewrite decide_False; [done|]. by intros [[= ->] _].
  - by rewrite decide_False by (by intros [[=] _]).
  - by rewrite decide_False by (by intros [[=] _]).
  - rewrite lookup_alter.
    destruct (decide (name = n')) as [->|Hn].
    + by rewrite decide_True.
    + rewrite decide_False; [done|]. by intros [_ ->].
Qed.

Lemma loadTopic_delivered p n a c frame σ :
  heap σ !! a = Some c →
  loadTopic p n (delivered a c frame σ) = loadTopic p n σ.
Proof.
  intros H. destruct p as [b|]; cbn; [|by rewrite publicTopics_delivered].
  destruct (decide (a = b)) as [<-|Hab].
  - rewrite (heap_delivered _ _ _ _ H), H. by destruct (c_status c).
  - by rewrite heap_delivered_ne.
Qed.

Lemma findTopic_load a c name σ p topic :
  heap σ !! a = Some c → findTopic a c name σ = Some (p, topic) →
  loadTopic p name σ = Some topic.
Proof.
  intros H. unfold findTopic.
  destruct (c_privateTopics c !! name) as [t|] eqn:Ht.
  - intros [= <- <-]. cbn. by rewrite H.
  - destruct (publicTopics σ !! name) as [t|] eqn:Ht'; [|done].
    by intros [= <- <-].
Qed.

(** The client object of the receiver after an assignment to the
    subscribers of a topic: only its private topics may differ. *)
Lemma storeClients_live p name m a c σ :
  heap σ !! a = Some c →
  ∃ c1, heap (storeClients p name m σ) !! a = Some c1 ∧
        c_id c1 = c_id c ∧ c_status c1 = c_status c ∧ c_stream c1 = c_stream c.
Proof.
  intros H. unfold storeClients. destruct p as [b|]; cbn; [|by exists c].
  rewrite list_lookup_alter. destruct (decide (b = a)) as [->|]; [|by exists c].
  rewrite H. cbn. by eexists.
Qed.

(** The search finds the same pointer after an assignment through it. *)
Lemma findTopic_storeClients a c name σ p topic m c1 :
  heap σ !! a = Some c → findTopic a c name σ = Some (p, topic) →
  heap (storeClients p name m σ) !! a = Some c1 →
  findTopic a c1 name (storeClients p name m σ) = Some (p, set_Clients m topic).
Proof.
  intros H. unfold findTopic, storeClients.
  destruct (c_privateTopics c !! name) as [t|] eqn:Ht.
  - intros [= <- <-]. cbn. rewrite list_lookup_alter_eq, H. cbn.
    intros [= <-]. cbn. by rewrite lookup_alter_eq, Ht.
  - destruct (publicTopics σ !! name) as [t|] eqn:Ht'; [|done].
    intros [= <- <-]. cbn. rewrite H. intros [= <-]. rewrite Ht.
    by rewrite lookup_alter_eq, Ht'.
Qed.

Lemma findTopic_stream a c l name σ :
  findTopic a (set_stream l c) name σ = findTopic a c name σ.
Proof. done. Qed.

Lemma findTopic_delivered a b c c' frame name σ :
  findTopic a c name (delivered b c' frame σ) = findTopic a c name σ.
Proof. unfold findTopic. by rewrite publicTopics_delivered. Qed.

(** ** Subscribing and unsubscribing *)

Lemma Sub_live a c name p topic σ :
  heap σ !! a = Some c → findTopic a c name σ = Some (p, topic) →
  ∃ c1, heap (storeClients p name (<[c_id c := a]> (t_Clients topic)) σ) !! a = Some c1 ∧
        c_id c1 = c_id c ∧ c_status c1 = c_status c ∧ c_stream c1 = c_stream c ∧
        Sub a name σ =
          Return (None, delivered a c1 (noticeFrame "subscribed" (t_Name topic))
                          (storeClients p name (<[c_id c := a]> (t_Clients topic)) σ)).
Proof.
  intros H Hf.
  destruct (storeClients_live p name (<[c_id c := a]> (t_Clients topic)) _ _ _ H)
    as (c1 & H1 & ? & ? & ?).
  exists c1. repeat (split; [done|]).
  unfold Sub. rewrite (deref_live _ _ _ H). cbn. rewrite Hf.
  by rewrite (sendNewSubscribedTopic_live _ _ _ _ H1).
Qed.

Lemma Sub_missing a c name σ :
  heap σ !! a = Some c → findTopic a c name σ = None →
  Sub a name σ = Return (Some (TopicDoesNotExist name), σ).
Proof. intros H Hf. unfold Sub. rewrite (deref_live _ _ _ H). cbn. by rewrite Hf. Qed.

Lemma Unsub_live a c name p topic σ :
  heap σ !! a = Some c → findTopic a c name σ = Some (p, topic) →
  is_Some (t_Clients topic !! c_id c) →
  ∃ c1, heap (storeClients p name (delete (c_id c) (t_Clients topic)) σ) !! a = Some c1 ∧
        c_id c1 = c_id c ∧ c_status c1 = c_status c ∧ c_stream c1 = c_stream c ∧
        Unsub a name σ =
          Return (None, delivered a c1 (noticeFrame "unsubscribed" (t_Name topic))
                          (storeClients p name (delete (c_id c) (t_Clients topic)) σ)).
Proof.
  intros H Hf Hs.
  destruct (storeClients_live p name (delete (c_id c) (t_Clients topic)) _ _ _ H)
    as (c1 & H1 & ? & ? & ?).
  exists c1. repeat (split; [done|]).
  unfold Unsub. rewrite (deref_live _ _ _ H). cbn. rewrite Hf.
  rewrite decide_True by done.
  by rewrite (sendUnsubscribedTopic_live _ _ _ _ H1).
Qed.

Lemma Unsub_not_subscribed a c name p topic σ :
  heap σ !! a = Some c → findTopic a c name σ = Some (p, topic) →
  t_Clients topic !! c_id c = None →
  Unsub a name σ = Return (Some (ClientNotSubscribed (c_id c) name), σ).
Proof.
  intros H Hf Hs. unfold Unsub. rewrite (deref_live _ _ _ H). cbn. rewrite Hf.
  rewrite decide_False; [done|]. rewrite Hs. by intros [? [=]].
Qed.

Lemma Unsub_missing a c name σ :
  heap σ !! a = Some c → findTopic a c name σ = None →
  Unsub a name σ = Return (Some (TopicDoesNotExist name), σ).
Proof. intros H Hf. unfold Unsub. rewrite (deref_live _ _ _ H). cbn. by rewrite Hf. Qed.

Lemma findTopic_ext a c c' name σ σ' :
  c_privateTopics c = c_privateTopics c' → publicTopics σ = publicTopics σ' →
  findTopic a c name σ = findTopic a c' name σ'.
Proof. unfold findTopic. by intros -> ->. Qed.

Lemma delivered_live a c frame σ :
  heap σ !! a = Some c →
  ∃ c', heap (delivered a c frame σ) !! a = Some c' ∧
        c_id c' = c_id c ∧ c_status c' = c_status c ∧
        c_privateTopics c' = c_privateTopics c ∧
        c_stream c' = c_stream c ++ match c_status c with
                                    | Receving => [frame]
                                    | Waiting => []
                                    end.
Proof.
  intros H. rewrite (heap_delivered _ _ _ _ H).
  destruct (c_status c) eqn:Hs; eexists; (split; [done|]); cbn.
  - by rewrite app_nil_r.
  - done.
Qed.

Lemma streamOf_storeClients b p name m σ :
  streamOf b (storeClients p name m σ) = streamOf b σ.
Proof.
  unfold streamOf, storeClients. destruct p as [a|]; cbn; [|done].
  rewrite list_lookup_alter. case_decide; [|done]. subst.
  by destruct (heap σ !! b).
Qed.

Lemma streamOf_delivered_ne a b c frame σ :
  a ≠ b → streamOf b (delivered a c frame σ) = streamOf b σ.
Proof. intros H. unfold streamOf. by rewrite heap_delivered_ne. Qed.

Lemma subscribers_delivered p n a c frame σ :
  heap σ !! a = Some c →
  subscribers p n (delivered a c frame σ) = subscribers p n σ.
Proof. intros H. unfold subscribers. by rewrite (loadTopic_delivered _ _ _ _ _ _ H). Qed.

(** C9, amended.  A client that is already among the subscribers of the
    topic a name resolves to subscribes again without error; no topic's set of
    subscribers changes; the "subscribed" notice is sent once more to the
    client's own stream, where it is appended if the client is receiving
    and dropped if it is waiting, as for every notice; no other stream
    changes. *)
Theorem Sub_again (a : nat) (c : client) (name : string) (p : place) (topic : topic)
    (σ : state) :
  heap σ !! a = Some c →
  findTopic a c name σ = Some (p, topic) →
  c_id c ∈ dom (t_Clients topic) →
  ∃ σ', Sub a name σ = Return (None, σ') ∧
        (∀ p' n', subscribers p' n' σ' = subscribers p' n' σ) ∧
        streamOf a σ' =
          c_stream c ++ match c_status c with
                        | Receving => [noticeFrame "subscribed" (t_Name topic)]
                        | Waiting => []
                        end ∧
        (∀ b, b ≠ a → streamOf b σ' = streamOf b σ).
Proof.
  intros H Hf Hin.
  destruct (Sub_live _ _ _ _ _ _ H Hf) as (c1 & H1 & Hid & Hst & Hq & ->).
  eexists. split; [done|].
  destruct (delivered_live _ _ (noticeFrame "subscribed" (t_Name topic)) _ H1)
    as (c' & H' & _ & _ & _ & Hq').
  split; [|split].
  - intros p' n'. rewrite (subscribers_delivered _ _ _ _ _ _ H1).
    unfold subscribers. rewrite loadTopic_storeClients.
    case_decide as Hpn; [|done]. destruct Hpn as [-> ->].
    rewrite (findTopic_load _ _ _ _ _ _ H Hf). cbn. f_equal.
    rewrite dom_insert_L. set_solver.
  - unfold streamOf. rewrite H'. cbn. by rewrite Hq', Hq, Hst.
  - intros b Hb. rewrite streamOf_delivered_ne by done.
    apply streamOf_storeClients.
Qed.

Lemma Sub_again_witness :
  heap hub_subscribed !! 0 =
    Some (c1 Receving [ordersListed; ordersSubscribed] {["orders" := orders {["c1" := 0]}]}) ∧
  findTopic 0 (c1 Receving [ordersListed; ordersSubscribed]
                  {["orders" := orders {["c1" := 0]}]}) "orders" hub_subscribed =
    Some (PrivateOf 0, orders {["c1" := 0]}) ∧
  "c1" ∈ dom (t_Clients (orders {["c1" := 0]})) ∧
  ∃ σ', Sub 0 "orders" hub_subscribed = Return (None, σ') ∧
        (∀ p' n', subscribers p' n' σ' = subscribers p' n' hub_subscribed) ∧
        streamOf 0 σ' = [ordersListed; ordersSubscribed] ++ [ordersSubscribed] ∧
        (∀ b, b ≠ 0 → streamOf b σ' = streamOf b hub_subscribed).
Proof.
  split; [reflexivity|]. split; [reflexivity|].
  assert ("c1" ∈ dom (t_Clients (orders {["c1" := 0]}))) as Hin.
  { apply elem_of_dom. by exists 0. }
  split; [exact Hin|].
  exact (Sub_again 0 _ "orders" _ _ hub_subscribed eq_refl eq_refl Hin).
Defined.

(** C9 as stated fails for a subscriber that is waiting: "c1" is among the
    subscribers of "news" and subscribes again, without error, and no
    notice is put on its stream: the state is what it was. *)
Lemma Sub_again_no_notice :
  heap hub_news !! 0 = Some (c1 Waiting [] ∅) ∧
  findTopic 0 (c1 Waiting [] ∅) "news" hub_news = Some (Shared, news {["c1" := 0]}) ∧
  "c1" ∈ dom (t_Clients (news {["c1" := 0]})) ∧
  Sub 0 "news" hub_news = Return (None, hub_news) ∧
  streamOf 0 hub_news = [] ∧
  ¬ ∃ σ', Sub 0 "news" hub_news = Return (None, σ') ∧
          noticeFrame "subscribed" "news" ∈ streamOf 0 σ'.
Proof.
  assert (Sub 0 "news" hub_news = Return (None, hub_news)) as HSub
    by (vm_compute; reflexivity).
  split; [reflexivity|]. split; [reflexivity|].
  split; [apply elem_of_dom; by exists 0|].
  split; [exact HSub|]. split; [reflexivity|].
  intros (σ' & HSub' & Hin). rewrite HSub in HSub'. injection HSub' as <-.
  by apply elem_of_nil in Hin.
Qed.

(** ** Subscribe, then unsubscribe *)

(** C5, amended.  After a [Sub] that succeeds, [Unsub] of the same name
    succeeds and leaves in the topic's set of subscribers what it held
    before the pair, less the client: the set is as it was exactly when the
    client was not a subscriber before.  No other topic's set changes, and
    one more [Unsub] fails with the error "not subscribed", changing
    nothing. *)
Theorem Sub_Unsub (a : nat) (c : client) (name : string) (σ σ1 : state) :
  heap σ !! a = Some c →
  Sub a name σ = Return (None, σ1) →
  ∃ p topic σ2,
    findTopic a c name σ = Some (p, topic) ∧
    Unsub a name σ1 = Return (None, σ2) ∧
    subscribers p name σ = Some (dom (t_Clients topic)) ∧
    subscribers p name σ2 = Some (dom (t_Clients topic) ∖ {[c_id c]}) ∧
    (c_id c ∉ dom (t_Clients topic) → subscribers p name σ2 = subscribers p name σ) ∧
    (∀ p' n', ¬ (p' = p ∧ n' = name) → subscribers p' n' σ2 = subscribers p' n' σ) ∧
    Unsub a name σ2 = Return (Some (ClientNotSubscribed (c_id c) name), σ2) ∧
    kind_of (ClientNotSubscribed (c_id c) name) = NotSubscribed.
Proof.
  intros H HSub.
  destruct (findTopic a c name σ) as [[p topic]|] eqn:Hf;
    [|by rewrite (Sub_missing _ _ _ _ H Hf) in HSub].
  destruct (Sub_live _ _ _ _ _ _ H Hf) as (c1 & H1 & Hid1 & _ & _ & HSub').
  rewrite HSub' in HSub. injection HSub as <-.
  set (m1 := <[c_id c := a]> (t_Clients topic)) in *.
  set (σa := storeClients p name m1 σ) in *.
  destruct (delivered_live _ _ (noticeFrame "subscribed" (t_Name topic)) _ H1)
    as (c1' & H1' & Hid1' & _ & Hpriv1' & _).
  set (σ1 := delivered a c1 (noticeFrame "subscribed" (t_Name topic)) σa) in *.
  assert (findTopic a c1' name σ1 = Some (p, set_Clients m1 topic)) as Hf1.
  { rewrite (findTopic_ext a c1' c1 name σ1 σa Hpriv1' (publicTopics_delivered _ _ _ _)).
    by apply (findTopic_storeClients _ c). }
  assert (is_Some (t_Clients (set_Clients m1 topic) !! c_id c1')) as Hsome.
  { cbn. rewrite Hid1', Hid1. unfold m1. rewrite lookup_insert_eq. by eexists. }
  destruct (Unsub_live _ _ _ _ _ _ H1' Hf1 Hsome) as (c2 & H2 & Hid2 & _ & _ & HUnsub).
  cbn [t_Clients set_Clients] in *.
  set (m2 := delete (c_id c1') m1) in *.
  set (σb := storeClients p name m2 σ1) in *.
  destruct (delivered_live _ _ (noticeFrame "unsubscribed" (t_Name (set_Clients m1 topic)))
              _ H2) as (c2' & H2' & Hid2' & _ & Hpriv2' & _).
  set (σ2 := delivered a c2 (noticeFrame "unsubscribed" (t_Name (set_Clients m1 topic))) σb) in *.
  assert (findTopic a c2' name σ2 = Some (p, set_Clients m2 (set_Clients m1 topic))) as Hf2.
  { rewrite (findTopic_ext a c2' c2 name σ2 σb Hpriv2' (publicTopics_delivered _ _ _ _)).
    by apply (findTopic_storeClients _ c1'). }
  assert (c_id c2' = c_id c) as Hid by congruence.
  assert (c_id c1' = c_id c) as Hid' by congruence.
  assert (subscribers p name σ = Some (dom (t_Clients topic))) as Hs0.
  { unfold subscribers. by rewrite (findTopic_load _ _ _ _ _ _ H Hf). }
  assert (subscribers p name σ2 = Some (dom (t_Clients topic) ∖ {[c_id c]})) as Hs2.
  { unfold subscribers. rewrite (findTopic_load _ _ _ _ _ _ H2' Hf2). cbn. f_equal.
    unfold m2, m1. rewrite Hid', dom_delete_L, dom_insert_L. set_solver. }
  exists p, topic, σ2. split; [done|]. split; [done|]. split; [done|].
  split; [done|]. split; [|split; [|split; [|done]]].
  - intros Hnin. rewrite Hs2, Hs0. f_equal. set_solver.
  - intros p' n' Hne. subst σ2 σb σ1 σa.
    rewrite (subscribers_delivered _ _ _ _ _ _ H2). unfold subscribers.
    rewrite loadTopic_storeClients, decide_False by done.
    rewrite (loadTopic_delivered _ _ _ _ _ _ H1).
    by rewrite loadTopic_storeClients, decide_False by done.
  - rewrite <- Hid. apply (Unsub_not_subscribed _ _ _ _ _ _ H2' Hf2).
    cbn. unfold m2. rewrite Hid, <- Hid'. apply lookup_delete_eq.
Qed.

(** The example states are the ones the operations build. *)
Example hub_c1_built :
  NewClient "7b0e" "c1" NewSSEPubSubHandler = (0, hub_of (c1 Waiting [] ∅) ∅) ∧
  setStatus 0 Receving (hub_of (c1 Waiting [] ∅) ∅) = hub_c1.
Proof. split; reflexivity. Qed.

Example hub_orders_built :
  NewPrivateTopic range_forward 0 "orders" hub_c1 = Return (None, hub_orders).
Proof. vm_compute. reflexivity. Qed.

Example hub_subscribed_built :
  Sub 0 "orders" hub_orders = Return (None, hub_subscribed).
Proof. vm_compute. reflexivity. Qed.

Example hub_two_built :
  ∃ σ1 σ2,
    NewPrivateTopic range_forward 0 "orders" (hub_of (c1 Waiting [] ∅) ∅) =
      Return (None, σ1) ∧
    NewPrivateTopic range_forward 0 "alerts" σ1 = Return (None, σ2) ∧
    setStatus 0 Receving σ2 = hub_two.
Proof. eexists _, _. repeat split; vm_compute; reflexivity. Qed.

Example hub_pair_built :
  ∃ σ1 σ2 σ3 σ4,
    NewClient "7b0e" "c1" (registerPublic "news" NewSSEPubSubHandler) = (0, σ1) ∧
    NewClient "41c2" "c2" σ1 = (1, σ2) ∧
    Sub 0 "news" σ2 = Return (None, σ3) ∧
    Sub 1 "news" σ3 = Return (None, σ4) ∧
    setStatus 1 Receving (setStatus 0 Receving σ4) = hub_pair.
Proof. eexists _, _, _, _. repeat split; vm_compute; reflexivity. Qed.

Example noticeFrame_orders : noticeFrame "subscribed" "orders" = ordersSubscribed.
Proof. reflexivity. Qed.

Lemma Sub_Unsub_witness :
  heap hub_orders !! 0 = Some (c1 Receving [ordersListed] {["orders" := orders ∅]}) ∧
  Sub 0 "orders" hub_orders = Return (None, hub_subscribed) ∧
  ∃ p topic σ2,
    findTopic 0 (c1 Receving [ordersListed] {["orders" := orders ∅]}) "orders" hub_orders =
      Some (p, topic) ∧
    Unsub 0 "orders" hub_subscribed = Return (None, σ2) ∧
    subscribers p "orders" hub_orders = Some (dom (t_Clients topic)) ∧
    subscribers p "orders" σ2 = Some (dom (t_Clients topic) ∖ {["c1"]}) ∧
    (("c1" : string) ∉ dom (t_Clients topic) →
       subscribers p "orders" σ2 = subscribers p "orders" hub_orders) ∧
    (∀ p' n', ¬ (p' = p ∧ n' = "orders") →
       subscribers p' n' σ2 = subscribers p' n' hub_orders) ∧
    Unsub 0 "orders" σ2 = Return (Some (ClientNotSubscribed "c1" "orders"), σ2) ∧
    kind_of (ClientNotSubscribed "c1" "orders") = NotSubscribed.
Proof.
  split; [reflexivity|].
  assert (Sub 0 "orders" hub_orders = Return (None, hub_subscribed)) as HSub
    by (vm_compute; reflexivity).
  split; [exact HSub|].
  exact (Sub_Unsub 0 _ "orders" hub_orders hub_subscribed eq_refl HSub).
Defined.

(** C5 as stated fails: "c1" is a subscriber of its topic "orders"; it
    subscribes again, which succeeds, and unsubscribes; the set of
    subscribers, which held "c1", is now empty. *)
Lemma Sub_Unsub_not_identity :
  ∃ σ1 σ2,
    Sub 0 "orders" hub_subscribed = Return (None, σ1) ∧
    Unsub 0 "orders" σ1 = Return (None, σ2) ∧
    subscribers (PrivateOf 0) "orders" hub_subscribed = Some {["c1"]} ∧
    subscribers (PrivateOf 0) "orders" σ2 = Some ∅ ∧
    subscribers (PrivateOf 0) "orders" σ2 ≠ subscribers (PrivateOf 0) "orders" hub_subscribed.
Proof.
  eexists _, _. split; [vm_compute; reflexivity|].
  split; [vm_compute; reflexivity|].
  split; [vm_compute; reflexivity|].
  split; [vm_compute; reflexivity|].
  vm_compute. intros H. discriminate H.
Qed.

(** ** The topics a client sees *)

Lemma GetTopics_live range a c σ :
  heap σ !! a = Some c →
  GetTopics range a σ = Return (topicsOf range (publicTopics σ) (c_privateTopics c)).
Proof. intros H. unfold GetTopics. by rewrite (deref_live _ _ _ H). Qed.

Lemma GetSubscribedTopics_live range a c σ :
  heap σ !! a = Some c →
  GetSubscribedTopics range a σ =
    Return (subscribedOf range (c_id c)
              (topicsOf range (publicTopics σ) (c_privateTopics c))).
Proof.
  intros H. unfold GetSubscribedTopics.
  rewrite (GetTopics_live _ _ _ _ H). cbn. by rewrite (deref_live _ _ _ H).
Qed.

(** A list that is a permutation of a list of at most one element is that
    list. *)
Lemma Permutation_small {A} (l l' : list A) : l ≡ₚ l' → length l' ≤ 1 → l = l'.
Proof.
  intros Hp Hl. destruct l' as [|x [|y l']]; cbn in Hl; [..|lia].
  - by apply Permutation_nil_r.
  - by apply Permutation_singleton_r.
Qed.

Lemma range_small range A (m : gmap string A) :
  range_ok range → size m ≤ 1 → range A m = map_to_list m.
Proof.
  intros Hr Hm. apply Permutation_small; [apply Hr|].
  by rewrite length_map_to_list.
Qed.

Lemma range_empty range A (m : gmap string A) :
  range_ok range → size m = 0 → range A m = [].
Proof.
  intros Hr Hm. rewrite (range_small _ _ _ Hr) by lia.
  apply map_size_empty_inv in Hm as ->. apply map_to_list_empty.
Qed.

Lemma range_length range A (m : gmap string A) :
  range_ok range → length (range A m) = size m.
Proof. intros Hr. by rewrite (Hr A m), length_map_to_list. Qed.

Lemma elem_of_range range A (m : gmap string A) k x :
  range_ok range → (k, x) ∈ range A m ↔ m !! k = Some x.
Proof. intros Hr. by rewrite (Hr A m), elem_of_map_to_list. Qed.

Lemma range_backward_ok : range_ok range_backward.
Proof. intros A m. unfold range_backward. apply reverse_Permutation. Qed.

Lemma range_forward_ok : range_ok range_forward.
Proof. by intros A m. Qed.

(** Every topic of [GetTopics] is filed under its own name. *)
Lemma addByName_keyed (l : list (string * topic)) (m : gmap string topic) :
  (∀ k t, m !! k = Some t → k = t_Name t) →
  ∀ k t, foldl addByName m l !! k = Some t → k = t_Name t.
Proof.
  revert m. induction l as [|[k0 t0] l IH]; intros m Hm; [done|].
  cbn. apply IH. intros k t. unfold addByName. cbn.
  rewrite lookup_insert. case_decide; [|by apply Hm].
  by intros [= <-].
Qed.

Lemma topicsOf_keyed range pub priv k t :
  topicsOf range pub priv !! k = Some t → k = t_Name t.
Proof.
  unfold topicsOf. apply addByName_keyed. apply addByName_keyed.
  intros k' t'. by rewrite lookup_empty.
Qed.

Lemma subscribed_fold_subseteq id (topics : gmap string topic) l acc :
  (∀ k t, (k, t) ∈ l → topics !! k = Some t ∧ k = t_Name t) →
  acc ⊆ topics →
  foldl (λ subs kt,
           if decide (is_Some (t_Clients kt.2 !! id)) then addByName subs kt else subs)
        acc l ⊆ topics.
Proof.
  revert acc. induction l as [|[k0 t0] l IH]; intros acc Hl Hacc; [done|].
  cbn. apply IH.
  - intros k t Hin. apply Hl. by right.
  - case_decide; [|done]. unfold addByName. cbn.
    destruct (Hl k0 t0) as [Ht Hk]; [by left|].
    apply insert_subseteq_l; [|done]. by rewrite <- Hk.
Qed.

(** The subscribed topics are among the topics. *)
Lemma subscribedOf_subseteq range id pub priv :
  range_ok range →
  subscribedOf range id (topicsOf range pub priv) ⊆ topicsOf range pub priv.
Proof.
  intros Hr. unfold subscribedOf. apply subscribed_fold_subseteq.
  - intros k t Hin. apply (elem_of_range _ _ _ _ _ Hr) in Hin.
    split; [done|]. by eapply topicsOf_keyed.
  - apply map_empty_subseteq.
Qed.

Lemma subscribedOf_size range id topics :
  range_ok range → 0 < size (subscribedOf range id topics) → 0 < size topics.
Proof.
  intros Hr Hs. destruct (decide (size topics = 0)) as [Hz|]; [|lia].
  unfold subscribedOf in Hs. rewrite (range_empty _ _ _ Hr Hz) in Hs.
  cbn in Hs. rewrite map_size_empty in Hs. lia.
Qed.

(** ** Filling the [sys] array *)

Lemma forEach_setSys i ty (f : topic → eventDataSysList)
    (l : list (string * topic)) fd sys :
  Sys fd = Some sys → i < length sys →
  ∃ sys', forEach (λ fd kt, setSys i ty (f kt.2) fd) l fd =
            Return {| Sys := Some sys'; Updates := Updates fd |} ∧
          length sys' = length sys.
Proof.
  revert fd sys. induction l as [|kt l IH]; intros fd sys Hs Hi.
  - exists sys. split; [|done]. cbn. destruct fd. cbn in *. by subst.
  - cbn. unfold setSys at 2. rewrite Hs.
    destruct (lookup_lt_is_Some_2 sys i Hi) as [e He]. rewrite He. cbn.
    edestruct (IH {| Sys := Some (<[i := {| sys_Type := ty;
                                      sys_List := append (sys_List e) (f kt.2) |}]> sys);
                     Updates := Updates fd |}) as (sys' & Hrun & Hlen);
      [done| |].
    + by rewrite length_insert.
    + exists sys'. split; [exact Hrun|]. by rewrite Hlen, length_insert.
Qed.

Lemma marshal_entries_total (l : slice eventDataSysList) :
  is_Some (marshal_slice marshal_entry l).
Proof.
  destruct l as [l|]; cbn; [|by eexists].
  apply fmap_is_Some, mapM_is_Some, Forall_forall. intros e _. by eexists.
Qed.

Lemma marshal_sys_total (s : eventDataSys) : is_Some (marshal_sys s).
Proof.
  unfold marshal_sys. destruct (marshal_entries_total (sys_List s)) as [l ->].
  by eexists.
Qed.

(** A frame without updates is always marshalled. *)
Lemma Marshal_sys_total (fd : eventData) :
  Updates fd = None → ∃ jsonData, marshalled fd = (jsonData, None).
Proof.
  intros Hu. unfold marshalled, Marshal. rewrite Hu.
  assert (is_Some (marshal_slice marshal_sys (Sys fd))) as [s ->].
  { destruct (Sys fd) as [l|]; cbn; [|by eexists].
    apply fmap_is_Some, mapM_is_Some, Forall_forall. intros e _.
    apply marshal_sys_total. }
  cbn. by eexists.
Qed.

(** ** The initial snapshot *)

Lemma generateInit_live range a c σ :
  range_ok range → heap σ !! a = Some c →
  ∃ jsonData, generateInit range a σ = Return (jsonData, None).
Proof.
  intros Hr H. unfold generateInit.
  rewrite (GetTopics_live _ _ _ _ H), (GetSubscribedTopics_live _ _ _ _ H). cbn.
  set (topics := topicsOf range (publicTopics σ) (c_privateTopics c)).
  set (subtopics := subscribedOf range (c_id c) topics).
  assert (0 < size subtopics → 0 < size topics) as Hsub
    by apply (subscribedOf_size _ _ _ Hr).
  destruct (decide (0 < size topics)) as [Ht|Ht];
    destruct (decide (0 < size subtopics)) as [Hs|Hs]; try (by apply Hsub in Hs).
  - edestruct (forEach_setSys 0 "topics" topicsEntry (range _ topics)
                 (appendSys eventDataSys_zero
                    (appendSys eventDataSys_zero {| Sys := Some []; Updates := None |})))
      as (sys1 & -> & Hlen1); [done|cbn; lia|]. cbn.
    edestruct (forEach_setSys 1 "subscribed" nameEntry (range _ subtopics)
                 {| Sys := Some sys1; Updates := None |})
      as (sys2 & -> & Hlen2); [done|rewrite Hlen1; cbn; lia|]. cbn.
    destruct (Marshal_sys_total {| Sys := Some sys2; Updates := None |}) as [j ->];
      [done|]. by exists j.
  - edestruct (forEach_setSys 0 "topics" topicsEntry (range _ topics)
                 (appendSys eventDataSys_zero {| Sys := Some []; Updates := None |}))
      as (sys1 & -> & Hlen1); [done|cbn; lia|]. cbn.
    rewrite (range_empty range _ subtopics Hr) by lia. cbn.
    destruct (Marshal_sys_total {| Sys := Some sys1; Updates := None |}) as [j ->];
      [done|]. by exists j.
  - rewrite (range_empty range _ topics Hr) by lia.
    rewrite (range_empty range _ subtopics Hr) by lia. cbn.
    by eexists.
Qed.

(** When both snapshots are taken in one state, [generateInit] does not
    index [Sys] out of range, whatever the order in which the runtime
    ranges over the maps: the subscribed topics are among the topics, so
    that [Sys] has two entries whenever the second loop runs its body. *)
Lemma generateInit_in_range (range : ranging) (a : nat) (σ : state) :
  range_ok range →
  generateInit range a σ ≠ Panic IndexOutOfRange ∧
  ∀ c, heap σ !! a = Some c →
    ∃ topics subtopics jsonData,
      GetTopics range a σ = Return topics ∧
      GetSubscribedTopics range a σ = Return subtopics ∧
      subtopics ⊆ topics ∧
      (0 < size subtopics → 0 < size topics) ∧
      generateInit range a σ = Return (jsonData, None).
Proof.
  intros Hr. split.
  - destruct (heap σ !! a) as [c|] eqn:H.
    + by destruct (generateInit_live _ _ _ _ Hr H) as [j ->].
    + unfold generateInit, GetTopics, deref. by rewrite H.
  - intros c H. destruct (generateInit_live _ _ _ _ Hr H) as [j Hj].
    eexists _, _, j. split; [by apply GetTopics_live|].
    split; [by apply GetSubscribedTopics_live|].
    split; [by apply subscribedOf_subseteq|].
    split; [by apply subscribedOf_size|done].
Qed.

(** The second loop writes [Sys[1]] whenever the second snapshot is not
    empty; [Sys] has that entry only if the first snapshot is not empty
    either. *)
Lemma generateInitFrom_panics range (topics subtopics : gmap string topic) :
  range_ok range → size topics = 0 → 0 < size subtopics →
  generateInitFrom range topics subtopics = Panic IndexOutOfRange.
Proof.
  intros Hr Ht Hs. unfold generateInitFrom.
  rewrite (decide_False (P := 0 < size topics)) by lia.
  rewrite (decide_True (P := 0 < size subtopics)) by done.
  rewrite (range_empty range _ topics Hr Ht). cbn [forEach mbind run_bind].
  pose proof (range_length range _ subtopics Hr) as Hl.
  destruct (range _ subtopics) as [|kt l]; [cbn in Hl; lia|]. done.
Qed.

Lemma generateInit_alone range a σ :
  generateInit_among range a Return σ = (r ← generateInit range a σ; Return (r, σ)).
Proof.
  unfold generateInit_among, generateInit, generateInitFrom.
  destruct (GetTopics range a σ) as [topics|p]; [|done]. cbn [mbind run_bind].
  destruct (GetSubscribedTopics range a σ) as [subtopics|p]; [|done]. done.
Qed.

(** C10 fails when the two snapshots are not of one state.  "c1" is new
    and sees no topic.  Alone, [generateInit] returns its frame.  When
    another goroutine creates the private topic "orders" and subscribes
    "c1" to it after [GetTopics] has returned and before
    [GetSubscribedTopics] is called, the first snapshot is empty and the
    second is not, [Sys] gets one entry and the second loop indexes
    [Sys[1]]: the call panics, whatever the order of ranging. *)
Theorem generateInit_races :
  heap (NewClient "7b0e" "c1" NewSSEPubSubHandler).2 !! 0 = Some (c1 Waiting [] ∅) ∧
  generateInit range_forward 0 (NewClient "7b0e" "c1" NewSSEPubSubHandler).2 =
    Return (js "{'sys':[],'updates':null}", None) ∧
  GetTopics range_forward 0 (NewClient "7b0e" "c1" NewSSEPubSubHandler).2 = Return ∅ ∧
  (∃ σ', createAndSubscribe range_forward 0 "orders"
           (NewClient "7b0e" "c1" NewSSEPubSubHandler).2 = Return σ' ∧
         GetSubscribedTopics range_forward 0 σ' =
           Return {["orders" := orders {["c1" := 0]}]}) ∧
  generateInit_among range_forward 0 (createAndSubscribe range_forward 0 "orders")
    (NewClient "7b0e" "c1" NewSSEPubSubHandler).2 = Panic IndexOutOfRange ∧
  generateInit_among range_backward 0 (createAndSubscribe range_backward 0 "orders")
    (NewClient "7b0e" "c1" NewSSEPubSubHandler).2 = Panic IndexOutOfRange.
Proof.
  split; [reflexivity|]. split; [vm_compute; reflexivity|].
  split; [vm_compute; reflexivity|]. split.
  - eexists. split; vm_compute; reflexivity.
  - split; vm_compute; reflexivity.
Qed.

(** The snapshot of "c1" subscribed to its topic "orders". *)
Example generateInit_hub_subscribed :
  generateInit range_forward 0 hub_subscribed =
    Return (js "{'sys':[{'type':'topics','list':[{'name':'orders','type':'private'}]},{'type':'subscribed','list':[{'name':'orders'}]}],'updates':null}",
            None).
Proof. vm_compute. reflexivity. Qed.

(** ** The encoder *)

Lemma topicsListData_total range topics :
  ∃ fulldata, topicsListData range topics = Return fulldata ∧ Updates fulldata = None.
Proof.
  unfold topicsListData. case_decide; [|by eexists].
  edestruct (forEach_setSys 0 "topics" topicsEntry (range _ topics)
               (appendSys eventDataSys_zero {| Sys := Some []; Updates := None |}))
    as (sys1 & -> & _); [done|cbn; lia|]. by eexists.
Qed.

(** The frame [sendNewTopicsList] sends for a map of topics. *)
Lemma sendNewTopicsList_live range a c σ :
  heap σ !! a = Some c →
  ∃ fulldata jsonData,
    topicsListData range (topicsOf range (publicTopics σ) (c_privateTopics c)) =
      Return fulldata ∧
    marshalled fulldata = (jsonData, None) ∧
    sendNewTopicsList range a σ = Return (None, delivered a c jsonData σ).
Proof.
  intros H. unfold sendNewTopicsList. rewrite (GetTopics_live _ _ _ _ H). cbn.
  destruct (topicsListData_total range
              (topicsOf range (publicTopics σ) (c_privateTopics c)))
    as (fd & Hfd & Hu).
  destruct (Marshal_sys_total fd Hu) as [j Hj].
  exists fd, j. split; [done|]. split; [done|].
  rewrite Hfd. cbn. rewrite Hj. by rewrite (sendIfReceving_live _ _ _ _ H).
Qed.

Lemma size_foldl_addByName (l : list (string * topic)) (m : gmap string topic) :
  size (foldl addByName m l) ≤ size m + length l.
Proof.
  revert m. induction l as [|kt l IH]; intros m; cbn; [lia|].
  etrans; [apply IH|]. unfold addByName. rewrite map_size_insert.
  destruct (m !! t_Name kt.2); unfold id; lia.
Qed.

Lemma topicsOf_size range pub priv :
  range_ok range → size (topicsOf range pub priv) ≤ size pub + size priv.
Proof.
  intros Hr. unfold topicsOf.
  etrans; [apply size_foldl_addByName|].
  rewrite (range_length _ _ priv Hr).
  pose proof (size_foldl_addByName (range _ pub) ∅) as Hp.
  rewrite (range_length _ _ pub Hr), map_size_empty in Hp. lia.
Qed.

(** With at most one topic to range over, the order cannot show. *)
Lemma generateInit_small range a c σ :
  range_ok range → heap σ !! a = Some c →
  size (publicTopics σ) + size (c_privateTopics c) ≤ 1 →
  generateInit range a σ = generateInit range_forward a σ.
Proof.
  intros Hr H Hsize. unfold generateInit.
  rewrite !(GetTopics_live _ _ _ _ H), !(GetSubscribedTopics_live _ _ _ _ H). cbn.
  assert (topicsOf range (publicTopics σ) (c_privateTopics c) =
          topicsOf range_forward (publicTopics σ) (c_privateTopics c)) as ->.
  { unfold topicsOf. by rewrite !(range_small range) by (done || lia). }
  set (topics := topicsOf range_forward (publicTopics σ) (c_privateTopics c)).
  assert (size topics ≤ 1) as Ht.
  { etrans; [apply (topicsOf_size _ _ _ range_forward_ok)|done]. }
  assert (subscribedOf range (c_id c) topics = subscribedOf range_forward (c_id c) topics)
    as ->.
  { unfold subscribedOf. by rewrite (range_small range) by done. }
  set (subtopics := subscribedOf range_forward (c_id c) topics).
  assert (size subtopics ≤ 1) as Hs.
  { etrans; [|exact Ht]. apply map_subseteq_size.
    apply (subscribedOf_subseteq _ _ _ _ range_forward_ok). }
  by rewrite !(range_small range) by done.
Qed.

(** ** Private topics *)

Lemma NewPrivateTopic_live range a c name σ :
  heap σ !! a = Some c → c_privateTopics c !! name = None →
  ∃ jsonData,
    NewPrivateTopic range a name σ =
      Return (None,
              delivered a
                (set_privateTopics
                   (<[name := {| t_Name := name; t_Type := Private; t_Clients := ∅ |}]>
                      (c_privateTopics c)) c)
                jsonData
                (set_heap
                   (<[a := set_privateTopics
                             (<[name := {| t_Name := name; t_Type := Private;
                                           t_Clients := ∅ |}]> (c_privateTopics c)) c]>
                      (heap σ)) σ)).
Proof.
  intros H Hn. unfold NewPrivateTopic. rewrite (deref_live _ _ _ H). cbn.
  rewrite decide_False by (rewrite Hn; by intros [? [=]]).
  set (c0 := set_privateTopics _ c). set (σ0 := set_heap _ σ).
  assert (heap σ0 !! a = Some c0) as H0.
  { cbn. apply list_lookup_insert_eq. by eapply lookup_lt_Some. }
  destruct (sendNewTopicsList_live range _ _ _ H0) as (fd & j & _ & _ & ->).
  by exists j.
Qed.

Lemma NewPrivateTopic_exists range a c name σ :
  heap σ !! a = Some c → is_Some (c_privateTopics c !! name) →
  NewPrivateTopic range a name σ = Return (Some (TopicAlreadyExists name), σ).
Proof.
  intros H Hn. unfold NewPrivateTopic. rewrite (deref_live _ _ _ H). cbn.
  by rewrite decide_True.
Qed.

Lemma storeClients_private a c name m σ :
  heap σ !! a = Some c →
  heap (storeClients (PrivateOf a) name m σ) !! a =
    Some (set_privateTopics (alter (set_Clients m) name (c_privateTopics c)) c).
Proof. intros H. unfold storeClients. cbn. by rewrite list_lookup_alter_eq, H. Qed.

Lemma streamOf_live a c σ : heap σ !! a = Some c → streamOf a σ = c_stream c.
Proof. intros H. unfold streamOf. by rewrite H. Qed.

(** ** Scenario A *)

(** C2, amended.  A receiving client creates the private topic "orders"
    and subscribes to it, both with success.  Its stream then ends with the
    "subscribed" notice, and publishing the object with the member "id" of
    value 1 on "orders" succeeds and appends to the client's own stream
    exactly one frame, in which [sys] is [null]; no other stream changes. *)
Theorem scenario_A (range : ranging) (a : nat) (c : client) (σ σ1 σ2 : state) :
  heap σ !! a = Some c → c_status c = Receving →
  NewPrivateTopic range a "orders" σ = Return (None, σ1) →
  Sub a "orders" σ1 = Return (None, σ2) →
  ∃ q σ3,
    streamOf a σ2 = q ++ [ordersSubscribed] ∧
    Pub a "orders" (Object [("id", Number 1)]) σ2 = Return (None, σ3) ∧
    streamOf a σ3 =
      q ++ [ordersSubscribed;
            js "{'sys':null,'updates':[{'topic':'orders','data':{'id':1}}]}"] ∧
    (∀ b, b ≠ a → streamOf b σ3 = streamOf b σ2).
Proof.
  intros H Hs HNew HSub.
  destruct (c_privateTopics c !! "orders") as [t|] eqn:Hn.
  { rewrite (NewPrivateTopic_exists _ _ _ _ _ H) in HNew by by eexists. done. }
  destruct (NewPrivateTopic_live range _ _ _ _ H Hn) as (j & HNew').
  rewrite HNew' in HNew. injection HNew as Heq1. clear HNew'.
  set (top := {| t_Name := "orders"; t_Type := Private; t_Clients := ∅ |}) in *.
  set (c0 := set_privateTopics (<["orders" := top]> (c_privateTopics c)) c) in *.
  set (σ0 := set_heap (<[a := c0]> (heap σ)) σ) in *.
  assert (heap σ0 !! a = Some c0) as H0.
  { cbn. apply list_lookup_insert_eq. by eapply lookup_lt_Some. }
  destruct (delivered_live _ _ j _ H0) as (c1' & H1 & Hid1 & Hst1 & Hpriv1 & _).
  rewrite Heq1 in H1. clear Heq1 H0. clearbody σ0.
  assert (findTopic a c1' "orders" σ1 = Some (PrivateOf a, top)) as Hf1.
  { unfold findTopic. rewrite Hpriv1. cbn. by rewrite lookup_insert_eq. }
  destruct (Sub_live _ _ _ _ _ _ H1 Hf1) as (c2 & H2 & Hid2 & Hst2 & Hq2 & HSub').
  rewrite HSub' in HSub. injection HSub as Heq2. clear HSub'.
  set (m := <[c_id c1' := a]> (t_Clients top)) in *.
  pose proof (storeClients_private a c1' "orders" m σ1 H1) as H2'.
  rewrite H2 in H2'. injection H2' as Hc2.
  destruct (delivered_live _ _ (noticeFrame "subscribed" (t_Name top)) _ H2)
    as (c3 & H3 & Hid3 & Hst3 & Hpriv3 & Hq3).
  assert (heap σ2 !! a = Some c3) as H3' by (rewrite <- Heq2; exact H3).
  clear H3 Heq2. rename H3' into H3.
  assert (c_status c3 = Receving) as Hs3 by (rewrite Hst3, Hst2, Hst1; exact Hs).
  assert (c_privateTopics c3 !! "orders" = Some (set_Clients m top)) as Ht3.
  { rewrite Hpriv3, Hc2. cbn. rewrite lookup_alter_eq, Hpriv1. cbn.
    by rewrite lookup_insert_eq. }
  pose proof (Pub_delivers a c3 "orders" _ (Object [("id", Number 1)]) (js "{'id':1}")
                σ2 H3 Hs3 Ht3 eq_refl) as HPub.
  assert (c_status c2 = Receving) as Hs2 by (rewrite Hst2, Hst1; exact Hs).
  exists (c_stream c2). eexists. split; [|split; [exact HPub|split]].
  - by rewrite (streamOf_live _ _ _ H3), Hq3, Hs2.
  - unfold streamOf. cbn. rewrite list_lookup_insert_eq by by eapply lookup_lt_Some.
    cbn. rewrite Hq3, Hs2. by rewrite <- app_assoc.
  - intros b Hb. unfold streamOf. cbn. by rewrite list_lookup_insert_ne.
Qed.

Lemma scenario_A_witness :
  heap hub_c1 !! 0 = Some (c1 Receving [] ∅) ∧
  c_status (c1 Receving [] ∅) = Receving ∧
  NewPrivateTopic range_forward 0 "orders" hub_c1 = Return (None, hub_orders) ∧
  Sub 0 "orders" hub_orders = Return (None, hub_subscribed) ∧
  ∃ q σ3,
    streamOf 0 hub_subscribed = q ++ [ordersSubscribed] ∧
    Pub 0 "orders" (Object [("id", Number 1)]) hub_subscribed = Return (None, σ3) ∧
    streamOf 0 σ3 =
      q ++ [ordersSubscribed;
            js "{'sys':null,'updates':[{'topic':'orders','data':{'id':1}}]}"] ∧
    (∀ b, b ≠ 0 → streamOf b σ3 = streamOf b hub_subscribed).
Proof.
  assert (NewPrivateTopic range_forward 0 "orders" hub_c1 = Return (None, hub_orders))
    as HNew by (vm_compute; reflexivity).
  assert (Sub 0 "orders" hub_orders = Return (None, hub_subscribed))
    as HSub by (vm_compute; reflexivity).
  split; [reflexivity|]. split; [reflexivity|].
  split; [exact HNew|]. split; [exact HSub|].
  exact (scenario_A range_forward 0 _ hub_c1 hub_orders hub_subscribed
           eq_refl eq_refl HNew HSub).
Defined.

(** C2 as stated fails: the update frame that reaches the stream of "c1"
    has [null] for [sys], not the empty array. *)
Lemma scenario_A_sys_null :
  ∃ σ3,
    Pub 0 "orders" (Object [("id", Number 1)]) hub_subscribed = Return (None, σ3) ∧
    streamOf 0 σ3 =
      [ordersListed; ordersSubscribed;
       js "{'sys':null,'updates':[{'topic':'orders','data':{'id':1}}]}"] ∧
    last (streamOf 0 σ3) ≠
      Some (js "{'sys':[],'updates':[{'topic':'orders','data':{'id':1}}]}").
Proof.
  eexists. split; [vm_compute; reflexivity|].
  split; [vm_compute; reflexivity|].
  vm_compute. intros H. discriminate H.
Qed.

(** ** Sending to a client that is waiting *)

(** X20.  The send functions of [client.go] drop the frame of a client
    that is waiting, and return without error: the state is as it was. *)
Lemma send_functions_drop range a c σ :
  heap σ !! a = Some c → c_status c = Waiting →
  (∀ to data d, marshal data = Some d → sendUpdate a to data σ = Return (None, σ)) ∧
  sendNewTopicsList range a σ = Return (None, σ) ∧
  (∀ top, sendNewSubscribedTopic a top σ = Return (None, σ)) ∧
  (∀ top, sendUnsubscribedTopic a top σ = Return (None, σ)).
Proof.
  intros H Hs.
  assert (∀ frame, delivered a c frame σ = σ) as Hd.
  { intros frame. unfold delivered. by rewrite Hs. }
  split; [|split; [|split]].
  - intros to data d Hm. by rewrite (sendUpdate_live _ _ _ _ _ _ H Hm), Hd.
  - destruct (sendNewTopicsList_live range _ _ _ H) as (fd & j & _ & _ & ->).
    by rewrite Hd.
  - intros top. by rewrite (sendNewSubscribedTopic_live _ _ _ _ H), Hd.
  - intros top. by rewrite (sendUnsubscribedTopic_live _ _ _ _ H), Hd.
Qed.

Example hub_news_built :
  NewClient "7b0e" "c1" (registerPublic "news" NewSSEPubSubHandler) =
    (0, hub_of (c1 Waiting [] ∅) {["news" := news ∅]}) ∧
  Sub 0 "news" (hub_of (c1 Waiting [] ∅) {["news" := news ∅]}) = Return (None, hub_news).
Proof. split; vm_compute; reflexivity. Qed.

(** C3 fails on the handler's [Pub]: "c1" is waiting, and the update is
    sent on its stream all the same. *)
Theorem handler_Pub_reaches_waiting :
  heap hub_news !! 0 = Some (c1 Waiting [] ∅) ∧
  sSEPubSubHandler_Pub range_forward "news" (Number 1) hub_news =
    Return (None,
            hub_of (c1 Waiting [js "{'sys':null,'updates':[{'topic':'news','data':1}]}"] ∅)
                   {["news" := news {["c1" := 0]}]}).
Proof. split; vm_compute; reflexivity. Qed.

(** ** The fanout of the handler *)

(** The handler's [Pub] leaves its loop with the error of the first
    subscriber whose frame is not generated: nothing has been sent. *)
Lemma handler_Pub_error (range : ranging) topic t message σ :
  publicTopics σ !! topic = Some t → range _ (t_Clients t) ≠ [] →
  marshal message = None →
  sSEPubSubHandler_Pub range topic message σ = Return (Some MarshalError, σ).
Proof.
  intros Ht Hne Hm. unfold sSEPubSubHandler_Pub. rewrite Ht.
  destruct (range _ (t_Clients t)) as [|[k a] l]; [done|]. cbn.
  unfold generateUpdateData. by rewrite (updateData_error _ _ Hm).
Qed.

(** A message that [json.Marshal] refuses: the publisher gets the error of
    the encoder and neither subscriber of "news" is sent anything. *)
Example handler_Pub_propagates :
  sSEPubSubHandler_Pub range_forward "news" Unsupported hub_pair =
    Return (Some MarshalError, hub_pair) ∧
  sSEPubSubHandler_Pub range_backward "news" Unsupported hub_pair =
    Return (Some MarshalError, hub_pair) ∧
  ∃ σ', sSEPubSubHandler_Pub range_forward "news" (Number 1) hub_pair = Return (None, σ') ∧
        streamOf 0 σ' = [js "{'sys':null,'updates':[{'topic':'news','data':1}]}"] ∧
        streamOf 1 σ' = [js "{'sys':null,'updates':[{'topic':'news','data':1}]}"].
Proof.
  split; [vm_compute; reflexivity|]. split; [vm_compute; reflexivity|].
  eexists. split; [vm_compute; reflexivity|]. split; vm_compute; reflexivity.
Qed.

(** ** [Topic.Pub] of package [pubsubsse] *)

Lemma Topic_Pub_loop {Client world : Type}
    (send : Client → eventData → world → option string * world)
    (t : pubsubsse.Topic Client) (fd : eventData) (l : list (string * Client))
    (w : world) (tr : list (Client * eventData * option string)) (log : list string) :
  ∃ w' calls,
    foldl (pubsubsse.sendOne Client _ (traced send) t fd) ((w, tr), log) l =
      ((w', tr ++ calls), log ++ errorLines (pubsubsse.name Client t) calls) ∧
    foldl (pubsubsse.sendOne Client _ send t fd) (w, log) l =
      (w', log ++ errorLines (pubsubsse.name Client t) calls) ∧
    calls.*1.*1 = l.*2 ∧
    Forall (λ call, call.1.2 = fd) calls.
Proof.
  revert w tr log. induction l as [|kc l IH]; intros w tr log.
  - exists w, []. cbn. by rewrite !app_nil_r.
  - cbn [foldl].
    destruct (send kc.2 fd w) as [[err|] w1] eqn:Hsend.
    + replace (pubsubsse.sendOne Client _ (traced send) t fd (w, tr, log) kc)
        with (w1, tr ++ [(kc.2, fd, Some err)],
              log ++ [errorLine (pubsubsse.name Client t) err])
        by (unfold pubsubsse.sendOne, traced; cbn [fst snd]; by rewrite Hsend).
      replace (pubsubsse.sendOne Client _ send t fd (w, log) kc)
        with (w1, log ++ [errorLine (pubsubsse.name Client t) err])
        by (unfold pubsubsse.sendOne; cbn [fst snd]; by rewrite Hsend).
      destruct (IH w1 (tr ++ [(kc.2, fd, Some err)])
                  (log ++ [errorLine (pubsubsse.name Client t) err]))
        as (w' & calls & Ht & Hu & Hc & Hfd).
      exists w', ((kc.2, fd, Some err) :: calls).
      rewrite Ht, Hu, <- !app_assoc. split; [done|]. split; [done|].
      split; [cbn; by rewrite Hc|]. by constructor.
    + replace (pubsubsse.sendOne Client _ (traced send) t fd (w, tr, log) kc)
        with (w1, tr ++ [(kc.2, fd, @None string)], log)
        by (unfold pubsubsse.sendOne, traced; cbn [fst snd]; by rewrite Hsend).
      replace (pubsubsse.sendOne Client _ send t fd (w, log) kc) with (w1, log)
        by (unfold pubsubsse.sendOne; cbn [fst snd]; by rewrite Hsend).
      destruct (IH w1 (tr ++ [(kc.2, fd, None)]) log)
        as (w' & calls & Ht & Hu & Hc & Hfd).
      exists w', ((kc.2, fd, None) :: calls).
      rewrite Ht, Hu, <- !app_assoc. split; [done|]. split; [done|].
      split; [cbn; by rewrite Hc|]. by constructor.
Qed.

(** X16.  [Topic.Pub] of package [pubsubsse] is fire and forget.  Whatever
    [send] does, [Pub] returns no error, and the calls of [send] it makes
    are one for each subscriber of the snapshot [GetClients] returns, no
    more and no fewer, a failed call not stopping the loop; each call is
    given the envelope of the one update (the name of the topic, the
    message), and starts from what the call before it left.  One line is
    logged for each call that returned an error, in the order of the
    calls. *)
Theorem Topic_Pub_fire_and_forget {Client world : Type}
    (send : Client → eventData → world → option string * world) (range : ranging)
    (t : pubsubsse.Topic Client) (msg : value) (w : world) :
  range_ok range →
  ∃ w' calls,
    pubsubsse.Pub Client _ (traced send) range t msg (w, []) =
      (None, ((w', calls), errorLines (pubsubsse.name Client t) calls)) ∧
    pubsubsse.Pub Client world send range t msg w =
      (None, (w', errorLines (pubsubsse.name Client t) calls)) ∧
    calls.*1.*1 ≡ₚ (map_to_list (pubsubsse.GetClients Client t)).*2 ∧
    Forall (λ call, call.1.2 =
                    {| Sys := None;
                       Updates := Some [{| upd_Topic := pubsubsse.name Client t;
                                           upd_Data := msg |}] |}) calls.
Proof.
  intros Hr. unfold pubsubsse.Pub.
  destruct (Topic_Pub_loop send t
              (appendUpdates {| upd_Topic := pubsubsse.GetName Client t; upd_Data := msg |}
                 {| Sys := None; Updates := Some [] |})
              (range _ (pubsubsse.GetClients Client t)) w [] [])
    as (w' & calls & Ht & Hu & Hc & Hfd).
  exists w', calls. cbn [app] in Ht, Hu. rewrite Ht, Hu.
  split; [done|]. split; [done|]. split; [|exact Hfd].
  rewrite Hc. apply fmap_Permutation, Hr.
Qed.

Lemma Topic_Pub_fire_and_forget_witness :
  range_ok range_forward ∧
  ∃ w' calls,
    pubsubsse.Pub string _ (traced send_but_gone) range_forward news_of_three (Number 1)
                  ([], []) =
      (None, ((w', calls), errorLines "news" calls)) ∧
    pubsubsse.Pub string _ send_but_gone range_forward news_of_three (Number 1) [] =
      (None, (w', errorLines "news" calls)) ∧
    calls.*1.*1 ≡ₚ (map_to_list (pubsubsse.GetClients string news_of_three)).*2 ∧
    Forall (λ call, call.1.2 =
                    {| Sys := None;
                       Updates := Some [{| upd_Topic := "news";
                                           upd_Data := Number 1 |}] |}) calls.
Proof.
  split; [exact range_forward_ok|].
  exact (Topic_Pub_fire_and_forget send_but_gone range_forward news_of_three (Number 1) []
           range_forward_ok).
Defined.

(** The run of the witness: "gone" is the first of the three subscribers
    the runtime ranges over; its send fails and is logged, and the two
    after it are served all the same. *)
Example Topic_Pub_three :
  pubsubsse.Pub string _ (traced send_but_gone) range_forward news_of_three (Number 1)
                ([], []) =
    (None,
     ((["c1"; "c2"],
       let fd := {| Sys := None;
                    Updates := Some [{| upd_Topic := "news"; upd_Data := Number 1 |}] |} in
       [("gone", fd, Some "closed"); ("c1", fd, None); ("c2", fd, None)]),
      ["[T:news]: Error sending data to client: closed"])).
Proof. vm_compute. reflexivity. Qed.

(** ** Removing a client *)

Lemma RemoveClient_missing range id σ :
  clients σ !! id = None →
  RemoveClient range id σ = Return (Some (ClientDoesNotExist id), σ) ∧
  kind_of (ClientDoesNotExist id) = NotFound.
Proof. intros H. unfold RemoveClient, getClient. by rewrite H. Qed.

Example hub_shadow_built :
  NewPrivateTopic range_forward 0 "news" hub_news = Return (None, hub_shadow).
Proof. vm_compute. reflexivity. Qed.

(** C4 fails when a private topic of the client has the name of a public
    topic it subscribed to before: [Unsub], called with that name for the
    public topic, finds the private one.  "c1" is removed with success and
    is still in the subscribers of the public topic "news". *)
Theorem RemoveClient_leaves_subscriber :
  clients hub_shadow !! "c1" = Some 0 ∧
  ∃ σ', RemoveClient range_forward "c1" hub_shadow = Return (None, σ') ∧
        RemoveClient range_backward "c1" hub_shadow = Return (None, σ') ∧
        clients σ' !! "c1" = None ∧
        subscribers Shared "news" σ' = Some {["c1"]}.
Proof.
  split; [reflexivity|]. eexists.
  split; [vm_compute; reflexivity|]. split; [vm_compute; reflexivity|].
  split; vm_compute; reflexivity.
Qed.

(** ** The cascade of [RemoveClient] *)

Lemma topic_shrinks_refl t : topic_shrinks t t.
Proof. by split. Qed.

Lemma topic_shrinks_trans t1 t2 t3 :
  topic_shrinks t1 t2 → topic_shrinks t2 t3 → topic_shrinks t1 t3.
Proof. intros [? ?] [? ?]. split; [congruence|set_solver]. Qed.

Lemma shrinks_refl a σ : shrinks a σ σ.
Proof.
  split; [done|]. split; [done|]. split; [by eauto|].
  intros p n. destruct (loadTopic p n σ); constructor. apply topic_shrinks_refl.
Qed.

Lemma shrinks_trans a σ1 σ2 σ3 : shrinks a σ1 σ2 → shrinks a σ2 σ3 → shrinks a σ1 σ3.
Proof.
  intros (Hc & Hb & Ha & Ht) (Hc' & Hb' & Ha' & Ht').
  split; [congruence|]. split; [|split].
  - intros b Hne. by rewrite Hb', Hb.
  - intros c H. destruct (Ha c H) as (c' & H' & Hid).
    destruct (Ha' c' H') as (c'' & H'' & Hid'). exists c''. split; [done|congruence].
  - intros p n. specialize (Ht p n). specialize (Ht' p n).
    destruct Ht as [t1 t2 H12|]; inversion Ht' as [? t3 H23|]; subst; constructor.
    by eapply topic_shrinks_trans.
Qed.

Lemma delivered_shrinks a c frame σ :
  heap σ !! a = Some c → shrinks a σ (delivered a c frame σ).
Proof.
  intros H. split; [apply clients_delivered|]. split; [|split].
  - intros b Hne. by apply heap_delivered_ne.
  - intros c0 H0. rewrite H in H0. injection H0 as <-.
    destruct (delivered_live _ _ frame _ H) as (c' & H' & Hid & _). by exists c'.
  - intros p n. rewrite (loadTopic_delivered _ _ _ _ _ _ H).
    destruct (loadTopic p n σ); constructor. apply topic_shrinks_refl.
Qed.

Lemma findTopic_place a c name σ p t :
  findTopic a c name σ = Some (p, t) → p = PrivateOf a ∨ p = Shared.
Proof.
  unfold findTopic. destruct (c_privateTopics c !! name); [intros [= <- _]; by left|].
  destruct (publicTopics σ !! name); [intros [= <- _]; by right|done].
Qed.

Lemma storeClients_shrinks a c p name m t σ :
  heap σ !! a = Some c → p = PrivateOf a ∨ p = Shared →
  loadTopic p name σ = Some t → dom m ⊆ dom (t_Clients t) →
  shrinks a σ (storeClients p name m σ).
Proof.
  intros H Hp Ht Hm. split; [by destruct p|]. split; [|split].
  - intros b Hne. destruct Hp as [-> | ->]; unfold storeClients; cbn; [|done].
    by rewrite list_lookup_alter_ne.
  - intros c0 H0. rewrite H in H0. injection H0 as <-.
    destruct (storeClients_live p name m _ _ _ H) as (c' & H' & Hid & _). by exists c'.
  - intros p' n'. rewrite loadTopic_storeClients. case_decide as Hpn.
    + destruct Hpn as [-> ->]. rewrite Ht. by constructor.
    + destruct (loadTopic p' n' σ); constructor. apply topic_shrinks_refl.
Qed.

(** The search in terms of what the pointers hold. *)
Lemma findTopic_loadTopic a c name σ :
  heap σ !! a = Some c →
  findTopic a c name σ =
    match loadTopic (PrivateOf a) name σ with
    | Some t => Some (PrivateOf a, t)
    | None => match loadTopic Shared name σ with
              | Some t => Some (Shared, t)
              | None => None
              end
    end.
Proof. intros H. unfold findTopic. cbn. by rewrite H. Qed.

Lemma findTopic_shrinks a c c' name σ σ' p t :
  shrinks a σ σ' → heap σ !! a = Some c → heap σ' !! a = Some c' →
  findTopic a c name σ = Some (p, t) →
  ∃ t', findTopic a c' name σ' = Some (p, t') ∧ topic_shrinks t t'.
Proof.
  intros (_ & _ & _ & Ht) H H'.
  rewrite (findTopic_loadTopic _ _ _ _ H), (findTopic_loadTopic _ _ _ _ H').
  pose proof (Ht (PrivateOf a) name) as Hpriv. pose proof (Ht Shared name) as Hpub.
  destruct Hpriv as [t1 t1' H1|].
  - intros [= <- <-]. by exists t1'.
  - destruct Hpub as [t2 t2' H2|]; [|done]. intros [= <- <-]. by exists t2'.
Qed.

(** One [Unsub] of the cascade: whatever it returns, the client is not a
    subscriber of the topic the name resolves to. *)
Lemma Unsub_shrinks a c name σ :
  heap σ !! a = Some c →
  ∃ err σ', Unsub a name σ = Return (err, σ') ∧ shrinks a σ σ' ∧
    ∀ p t, findTopic a c name σ = Some (p, t) →
      ∃ t', loadTopic p name σ' = Some t' ∧ c_id c ∉ dom (t_Clients t').
Proof.
  intros H. destruct (findTopic a c name σ) as [[p t]|] eqn:Hf.
  - destruct (t_Clients t !! c_id c) as [x|] eqn:Hx.
    + destruct (Unsub_live _ _ _ _ _ _ H Hf) as (c1 & H1 & Hid1 & _ & _ & ->);
        [by eexists|].
      eexists _, _. split; [done|]. split.
      * eapply shrinks_trans; [|by apply delivered_shrinks].
        eapply storeClients_shrinks; [done|by eapply findTopic_place| |].
        -- by eapply findTopic_load.
        -- rewrite dom_delete_L. set_solver.
      * intros p' t' [= <- <-]. eexists. split.
        -- rewrite (loadTopic_delivered _ _ _ _ _ _ H1), loadTopic_storeClients.
           rewrite decide_True by done.
           by rewrite (findTopic_load _ _ _ _ _ _ H Hf).
        -- cbn. rewrite dom_delete_L. set_solver.
    + rewrite (Unsub_not_subscribed _ _ _ _ _ _ H Hf Hx).
      eexists _, _. split; [done|]. split; [apply shrinks_refl|].
      intros p' t' [= <- <-]. exists t.
      split; [by eapply findTopic_load|]. by apply not_elem_of_dom.
  - rewrite (Unsub_missing _ _ _ _ H Hf).
    eexists _, _. split; [done|]. split; [apply shrinks_refl|]. done.
Qed.

Lemma unsubEach_shrinks a (l : list (string * topic)) c σ :
  heap σ !! a = Some c →
  ∃ σ', forEach (λ σ kt, '(_, σ') ← Unsub a (t_Name kt.2) σ; Return σ') l σ = Return σ' ∧
    shrinks a σ σ' ∧
    ∀ kt p t, kt ∈ l → findTopic a c (t_Name kt.2) σ = Some (p, t) →
      ∃ t', loadTopic p (t_Name kt.2) σ' = Some t' ∧ c_id c ∉ dom (t_Clients t').
Proof.
  revert c σ. induction l as [|kt0 l IH]; intros c σ H.
  - exists σ. split; [done|]. split; [apply shrinks_refl|].
    intros kt p t Hin. by apply elem_of_nil in Hin.
  - destruct (Unsub_shrinks a c (t_Name kt0.2) σ H) as (err & σ1 & Hrun & Hsh & Hgone).
    destruct (proj1 (proj2 (proj2 Hsh)) c H) as (c1 & H1 & Hid1).
    destruct (IH c1 σ1 H1) as (σ' & Hrun' & Hsh' & Hgone').
    exists σ'. cbn. rewrite Hrun. cbn. split; [exact Hrun'|].
    split; [by eapply shrinks_trans|].
    intros kt p t Hin Hf. apply elem_of_cons in Hin as [-> | Hin].
    + destruct (Hgone p t Hf) as (t1 & Hl1 & Hn1).
      destruct Hsh' as (_ & _ & _ & Ht').
      specialize (Ht' p (t_Name kt0.2)). rewrite Hl1 in Ht'.
      inversion Ht' as [? t' [_ Hdom]|]; subst. exists t'. split; [done|]. set_solver.
    + destruct (findTopic_shrinks _ _ _ _ _ _ _ _ Hsh H H1 Hf) as (t1 & Hf1 & _).
      rewrite <- Hid1. by eapply Hgone'.
Qed.

Lemma shrinks_load a σ σ' p n t :
  shrinks a σ σ' → loadTopic p n σ = Some t →
  ∃ t', loadTopic p n σ' = Some t' ∧ topic_shrinks t t'.
Proof.
  intros (_ & _ & _ & Ht) Hl. specialize (Ht p n). rewrite Hl in Ht.
  destruct (loadTopic p n σ') as [t'|]; inversion Ht; subst. by exists t'.
Qed.

Lemma shrinks_load_back a σ σ' p n t' :
  shrinks a σ σ' → loadTopic p n σ' = Some t' →
  ∃ t, loadTopic p n σ = Some t ∧ topic_shrinks t t'.
Proof.
  intros (_ & _ & _ & Ht) Hl. specialize (Ht p n). rewrite Hl in Ht.
  destruct (loadTopic p n σ) as [t|]; inversion Ht; subst. by exists t.
Qed.

Lemma shrinks_load_None a σ σ' p n :
  shrinks a σ σ' → loadTopic p n σ = None → loadTopic p n σ' = None.
Proof.
  intros (_ & _ & _ & Ht) Hl. specialize (Ht p n). rewrite Hl in Ht.
  by destruct (loadTopic p n σ') as [t'|]; inversion Ht.
Qed.

(** X15.  When every topic is filed under its name and no private topic of
    the client has the name of a public topic, [RemoveClient] does unsubscribe
    the client everywhere: it is left in no public topic and in none of its
    own private topics, and no other client object is touched. *)
Lemma RemoveClient_cascade range id a c σ :
  range_ok range →
  clients σ !! id = Some a → heap σ !! a = Some c → c_id c = id →
  (∀ k t, c_privateTopics c !! k = Some t → t_Name t = k) →
  (∀ k t, publicTopics σ !! k = Some t → t_Name t = k) →
  (∀ k, is_Some (c_privateTopics c !! k) → publicTopics σ !! k = None) →
  ∃ σ', RemoveClient range id σ = Return (None, σ') ∧
    clients σ' = delete id (clients σ) ∧
    (∀ b, b ≠ a → heap σ' !! b = heap σ !! b) ∧
    (∀ n t, loadTopic Shared n σ' = Some t → id ∉ dom (t_Clients t)) ∧
    (∀ n t, loadTopic (PrivateOf a) n σ' = Some t → id ∉ dom (t_Clients t)).
Proof.
  intros Hr Hcl H Hid Hpriv Hpub Hshadow.
  unfold RemoveClient, getClient, unsubEach. rewrite Hcl, (deref_live _ _ _ H). cbn.
  destruct (unsubEach_shrinks a (range _ (c_privateTopics c)) c σ H)
    as (σ1 & -> & Hsh1 & Hg1). cbn.
  destruct (proj1 (proj2 (proj2 Hsh1)) c H) as (c1 & H1 & Hid1).
  destruct (unsubEach_shrinks a (range _ (publicTopics σ1)) c1 σ1 H1)
    as (σ2 & -> & Hsh2 & Hg2). cbn.
  eexists. split; [done|]. cbn.
  split; [by rewrite (proj1 Hsh2), (proj1 Hsh1)|].
  split.
  { intros b Hb. by rewrite (proj1 (proj2 Hsh2)), (proj1 (proj2 Hsh1)). }
  split.
  - intros n t Ht. change (loadTopic Shared n σ2 = Some t) in Ht.
    destruct (shrinks_load_back _ _ _ _ _ _ Hsh2 Ht) as (t1 & Hl1 & _).
    destruct (shrinks_load_back _ _ _ _ _ _ Hsh1 Hl1) as (t0 & Hl0 & Hname & _).
    assert (t_Name t1 = n) as Hn1 by (rewrite Hname; by apply Hpub).
    assert (loadTopic (PrivateOf a) n σ1 = None) as Hnone.
    { apply (shrinks_load_None _ _ _ _ _ Hsh1). cbn. rewrite H. cbn.
      destruct (c_privateTopics c !! n) as [t'|] eqn:Hp; [|done].
      cbn in Hl0. rewrite Hshadow in Hl0 by (rewrite Hp; by eexists). done. }
    assert (findTopic a c1 (t_Name t1) σ1 = Some (Shared, t1)) as Hf.
    { rewrite (findTopic_loadTopic _ _ _ _ H1), Hn1, Hnone. by rewrite Hl1. }
    destruct (Hg2 (n, t1) Shared t1) as (t' & Hl' & Hnotin); [|done|].
    { apply (elem_of_range _ _ _ _ _ Hr). exact Hl1. }
    cbn [snd] in Hl'. rewrite Hn1, Ht in Hl'. injection Hl' as <-. congruence.
  - intros n t Ht.
    assert (loadTopic (PrivateOf a) n σ2 = Some t) as Ht' by exact Ht.
    destruct (shrinks_load_back _ _ _ _ _ _ Hsh2 Ht') as (t1 & Hl1 & _ & Hdom).
    destruct (shrinks_load_back _ _ _ _ _ _ Hsh1 Hl1) as (t0 & Hl0 & _).
    cbn in Hl0. rewrite H in Hl0. cbn in Hl0.
    assert (t_Name t0 = n) as Hn0 by by apply Hpriv.
    assert (findTopic a c (t_Name t0) σ = Some (PrivateOf a, t0)) as Hf.
    { unfold findTopic. by rewrite Hn0, Hl0. }
    destruct (Hg1 (n, t0) (PrivateOf a) t0) as (t' & Hl' & Hnotin); [|done|].
    { by apply (elem_of_range _ _ _ _ _ Hr). }
    cbn [snd] in Hl'. rewrite Hn0, Hl1 in Hl'. injection Hl' as <-.
    rewrite <- Hid. set_solver.
Qed.

(** ** What every operation keeps *)

Lemma keeps_refl σ : keeps σ σ.
Proof. intros b c H. by exists c. Qed.

Lemma keeps_trans σ1 σ2 σ3 : keeps σ1 σ2 → keeps σ2 σ3 → keeps σ1 σ3.
Proof.
  intros H12 H23 b c H. destruct (H12 b c H) as (c2 & H2 & Hid2 & Hst2 & Hq2).
  destruct (H23 b c2 H2) as (c3 & H3 & Hid3 & Hst3 & Hq3).
  exists c3. split; [done|]. split; [congruence|]. split; [congruence|].
  by etrans.
Qed.

Lemma quiet_refl a σ : quiet a σ σ.
Proof. split; [apply keeps_refl|]. intros b c H _. by apply streamOf_live. Qed.

Lemma quiet_trans a σ1 σ2 σ3 : quiet a σ1 σ2 → quiet a σ2 σ3 → quiet a σ1 σ3.
Proof.
  intros [K12 Q12] [K23 Q23]. split; [by eapply keeps_trans|].
  intros b c H Hb. destruct (K12 b c H) as (c2 & H2 & _ & Hst2 & _).
  pose proof (Q12 b c H Hb) as Hq. rewrite (streamOf_live _ _ _ H2) in Hq.
  rewrite (Q23 b c2 H2); [done|]. destruct Hb; [by left|right; congruence].
Qed.

Lemma quiet_delivered a c frame σ :
  heap σ !! a = Some c → quiet a σ (delivered a c frame σ).
Proof.
  intros H. split.
  - intros b c0 H0. destruct (decide (b = a)) as [->|Hne].
    + rewrite H in H0. injection H0 as <-.
      destruct (delivered_live _ _ frame _ H) as (c' & H' & Hid & Hst & _ & Hq).
      exists c'. repeat (split; [done|]). rewrite Hq. by apply prefix_app_r.
    + exists c0. by rewrite heap_delivered_ne.
  - intros b c0 H0 [Hne|Hw].
    + rewrite streamOf_delivered_ne by done. by apply streamOf_live.
    + destruct (decide (b = a)) as [->|Hne].
      * rewrite H in H0. injection H0 as <-. unfold delivered. rewrite Hw.
        by apply streamOf_live.
      * rewrite streamOf_delivered_ne by done. by apply streamOf_live.
Qed.

Lemma quiet_storeClients a p name m σ : quiet a σ (storeClients p name m σ).
Proof.
  split.
  - intros b c H. destruct (storeClients_live p name m _ _ _ H) as (c' & H' & ? & ? & Hq).
    exists c'. repeat (split; [done|]). by rewrite Hq.
  - intros b c H _. rewrite streamOf_storeClients. by apply streamOf_live.
Qed.

(** The states that differ in private topics of one client only. *)
Lemma quiet_set_privateTopics a c m σ :
  heap σ !! a = Some c →
  quiet a σ (set_heap (<[a := set_privateTopics m c]> (heap σ)) σ).
Proof.
  intros H. assert (a < length (heap σ)) as Hlt by by eapply lookup_lt_Some.
  split.
  - intros b c0 H0. cbn. destruct (decide (b = a)) as [->|Hne].
    + rewrite H in H0. injection H0 as <-. rewrite list_lookup_insert_eq by done.
      by eexists.
    + rewrite list_lookup_insert_ne by done. by exists c0.
  - intros b c0 H0 _. unfold streamOf. cbn. destruct (decide (b = a)) as [->|Hne].
    + rewrite H in H0. injection H0 as <-. by rewrite list_lookup_insert_eq.
    + rewrite list_lookup_insert_ne by done. by rewrite H0.
Qed.

(** A way to show that a state is well formed from one that is. *)
Lemma wf_evolve σ σ' :
  wf σ →
  (∀ id a, clients σ' !! id = Some a → clients σ !! id = Some a) →
  (∀ b c, heap σ !! b = Some c → ∃ c', heap σ' !! b = Some c' ∧ c_id c' = c_id c) →
  (∀ p n t', loadTopic p n σ' = Some t' →
     t_Name t' = n ∧
     ∀ id b, t_Clients t' !! id = Some b →
       (∃ t, loadTopic p n σ = Some t ∧ t_Clients t !! id = Some b) ∨
       ((∃ c, heap σ !! b = Some c ∧ c_id c = id) ∧ (∀ a, p = PrivateOf a → b = a))) →
  wf σ'.
Proof.
  intros (W1 & W2 & W3) Hcl Hheap Htop. split; [|split].
  - intros id a Ha. destruct (W1 id a (Hcl _ _ Ha)) as (c & H & Hid).
    destruct (Hheap a c H) as (c' & H' & Hid'). exists c'. split; [done|congruence].
  - intros p n t' Ht'. by destruct (Htop p n t' Ht').
  - intros p n t' id b Ht' Hb. destruct (Htop p n t' Ht') as [_ Hsub].
    destruct (Hsub id b Hb) as [(t & Ht & Hb')|[(c & H & Hid) Hown]].
    + destruct (W3 p n t id b Ht Hb') as [(c & H & Hid) Hown].
      destruct (Hheap b c H) as (c' & H' & Hid'). split; [|done].
      exists c'. split; [done|congruence].
    + destruct (Hheap b c H) as (c' & H' & Hid'). split; [|done].
      exists c'. split; [done|congruence].
Qed.

Lemma keeps_ids σ σ' :
  keeps σ σ' → ∀ b c, heap σ !! b = Some c → ∃ c', heap σ' !! b = Some c' ∧ c_id c' = c_id c.
Proof. intros K b c H. destruct (K b c H) as (c' & ? & ? & _). by exists c'. Qed.

Lemma wf_delivered a c frame σ :
  wf σ → heap σ !! a = Some c → wf (delivered a c frame σ).
Proof.
  intros W H. apply (wf_evolve σ); [done| | |].
  - intros id b. by rewrite clients_delivered.
  - apply keeps_ids. by apply quiet_delivered.
  - intros p n t'. rewrite (loadTopic_delivered _ _ _ _ _ _ H). intros Ht'.
    split; [by eapply (proj1 (proj2 W))|]. intros id b Hb. left. by exists t'.
Qed.

(** An assignment to the subscribers of the topic a name resolves to, of a
    map that holds old entries and the entry of the receiver. *)
Lemma wf_storeClients a c name p t m σ :
  wf σ → heap σ !! a = Some c → findTopic a c name σ = Some (p, t) →
  (∀ id b, m !! id = Some b → t_Clients t !! id = Some b ∨ (id = c_id c ∧ b = a)) →
  wf (storeClients p name m σ).
Proof.
  intros W H Hf Hm. apply (wf_evolve σ); [done| | |].
  - intros id b. by destruct p.
  - apply keeps_ids. apply (quiet_storeClients a).
  - intros p' n' t'. rewrite loadTopic_storeClients. case_decide as Hpn.
    + destruct Hpn as [-> ->].
      pose proof (findTopic_load _ _ _ _ _ _ H Hf) as Hl. rewrite Hl. cbn.
      intros [= <-]. cbn. split.
      * by eapply (proj1 (proj2 W)).
      * intros id b Hb. destruct (Hm id b Hb) as [Hold|[-> ->]].
        -- left. by exists t.
        -- right. split; [by exists c|].
           intros a' ->. by destruct (findTopic_place _ _ _ _ _ _ Hf) as [[= ->]|[=]].
    + intros Ht'. split; [by eapply (proj1 (proj2 W))|].
      intros id b Hb. left. by exists t'.
Qed.

Lemma wf_newTopic a c name σ :
  wf σ → heap σ !! a = Some c →
  wf (set_heap (<[a := set_privateTopics
                         (<[name := {| t_Name := name; t_Type := Private;
                                       t_Clients := ∅ |}]> (c_privateTopics c)) c]>
                  (heap σ)) σ).
Proof.
  intros W H. assert (a < length (heap σ)) as Hlt by by eapply lookup_lt_Some.
  apply (wf_evolve σ); [done|done| |].
  - apply keeps_ids. by apply quiet_set_privateTopics.
  - intros p n t'. destruct p as [b|]; cbn.
    + destruct (decide (b = a)) as [->|Hne].
      * rewrite list_lookup_insert_eq by done. cbn. rewrite lookup_insert.
        case_decide as Hn.
        -- intros [= <-]. cbn. split; [done|]. intros id b'. by rewrite lookup_empty.
        -- intros Ht'. assert (loadTopic (PrivateOf a) n σ = Some t') as Hl
             by (cbn; by rewrite H).
           split; [by eapply (proj1 (proj2 W))|]. intros id b' Hb. left. by exists t'.
      * rewrite list_lookup_insert_ne by done. intros Ht'.
        assert (loadTopic (PrivateOf b) n σ = Some t') as Hl by done.
        split; [by eapply (proj1 (proj2 W))|]. intros id b' Hb. left. by exists t'.
    + intros Ht'. assert (loadTopic Shared n σ = Some t') as Hl by done.
      split; [by eapply (proj1 (proj2 W))|]. intros id b' Hb. left. by exists t'.
Qed.

Lemma keeps_NewClient uuid id σ : keeps σ (NewClient uuid id σ).2.
Proof.
  unfold NewClient. destruct (clients σ !! _); [apply keeps_refl|].
  intros b c H. exists c. cbn. by rewrite lookup_app_l by by eapply lookup_lt_Some.
Qed.

Lemma wf_NewClient uuid id σ : wf σ → wf (NewClient uuid id σ).2.
Proof.
  intros W. pose proof W as (W1 & W2 & W3). unfold NewClient.
  set (id' := if decide (id = "") then uuid else id).
  destruct (clients σ !! id') as [a|] eqn:Hc; [done|]. cbn.
  assert (∀ b c, heap σ !! b = Some c →
            (heap σ ++ [{| c_id := id'; c_stream := []; c_status := Waiting;
                           c_privateTopics := ∅ |}]) !! b = Some c) as Hold.
  { intros b c H. by rewrite lookup_app_l by by eapply lookup_lt_Some. }
  assert (∀ p n t', loadTopic p n
            {| heap := heap σ ++ [{| c_id := id'; c_stream := []; c_status := Waiting;
                                      c_privateTopics := ∅ |}];
               clients := <[id' := length (heap σ)]> (clients σ);
               publicTopics := publicTopics σ |} = Some t' →
            loadTopic p n σ = Some t') as Hload.
  { intros [b|] n t'; cbn; [|done].
    destruct (decide (b < length (heap σ))) as [Hlt|Hge].
    - by rewrite lookup_app_l.
    - rewrite lookup_app_r by lia. destruct (b - length (heap σ)) as [|k]; cbn; [|done].
      by rewrite lookup_empty. }
  split; [|split].
  - intros id0 a. cbn. rewrite lookup_insert. case_decide as Hid.
    + intros [= <-]. subst id0. eexists. split.
      * rewrite lookup_app_r by lia. by rewrite Nat.sub_diag.
      * done.
    + intros Ha. destruct (W1 id0 a Ha) as (c & H & Hc0). exists c. split; [|done].
      by apply Hold.
  - intros p n t' Ht'. by eapply W2, Hload.
  - intros p n t' id0 b Ht' Hb. destruct (W3 p n t' id0 b (Hload _ _ _ Ht') Hb)
      as [(c & H & Hc0) Hown].
    split; [|done]. exists c. split; [by apply Hold|done].
Qed.

Lemma send_keeps a msg σ σ' : send a msg σ = Return σ' → keeps σ σ'.
Proof.
  unfold send, deref. destruct (heap σ !! a) as [c|] eqn:H; [|done]. cbn.
  intros [= <-]. intros b c0 H0. cbn. destruct (decide (b = a)) as [->|Hne].
  - rewrite H in H0. injection H0 as <-.
    rewrite list_lookup_insert_eq by by eapply lookup_lt_Some.
    eexists. split; [done|]. cbn. repeat (split; [done|]). by apply prefix_app_r.
  - rewrite list_lookup_insert_ne by done. by exists c0.
Qed.

Lemma wf_send a msg σ σ' : wf σ → send a msg σ = Return σ' → wf σ'.
Proof.
  intros W Hs. pose proof (send_keeps _ _ _ _ Hs) as K.
  unfold send, deref in Hs. destruct (heap σ !! a) as [c|] eqn:H; [|done]. cbn in Hs.
  injection Hs as <-. apply (wf_evolve σ); [done|done|by apply keeps_ids|].
  intros p n t' Ht'.
  assert (loadTopic p n σ = Some t') as Hl.
  { destruct p as [b|]; [|done]. cbn in *. destruct (decide (b = a)) as [->|Hne].
    - rewrite list_lookup_insert_eq in Ht' by by eapply lookup_lt_Some. by rewrite H.
    - by rewrite list_lookup_insert_ne in Ht'. }
  split; [by eapply (proj1 (proj2 W))|]. intros id b Hb. left. by exists t'.
Qed.

Lemma tame_refl a σ : tame a σ σ.
Proof. split; [apply quiet_refl|done]. Qed.

Lemma tame_trans a σ1 σ2 σ3 : tame a σ1 σ2 → tame a σ2 σ3 → tame a σ1 σ3.
Proof.
  intros (Q12 & C12 & L12 & W12) (Q23 & C23 & L23 & W23).
  split; [by eapply quiet_trans|]. split; [congruence|]. split; [congruence|auto].
Qed.

Lemma tame_delivered a c frame σ : heap σ !! a = Some c → tame a σ (delivered a c frame σ).
Proof.
  intros H. split; [by apply quiet_delivered|]. split; [apply clients_delivered|].
  split; [|intros W; by apply wf_delivered].
  unfold delivered. destruct (c_status c); [done|]. cbn. by rewrite length_insert.
Qed.

Lemma tame_storeClients a c name p t m σ :
  heap σ !! a = Some c → findTopic a c name σ = Some (p, t) →
  (∀ id b, m !! id = Some b → t_Clients t !! id = Some b ∨ (id = c_id c ∧ b = a)) →
  tame a σ (storeClients p name m σ).
Proof.
  intros H Hf Hm. split; [apply quiet_storeClients|]. split; [by destruct p|].
  split; [|intros W; by eapply wf_storeClients].
  unfold storeClients. destruct p; cbn; [|done]. by rewrite length_alter.
Qed.

Lemma Sub_tame a name σ err σ' : Sub a name σ = Return (err, σ') → tame a σ σ'.
Proof.
  intros HSub. destruct (heap σ !! a) as [c|] eqn:H;
    [|unfold Sub, deref in HSub; by rewrite H in HSub].
  destruct (findTopic a c name σ) as [[p t]|] eqn:Hf.
  - destruct (Sub_live _ _ _ _ _ _ H Hf) as (c1 & H1 & _ & _ & _ & HSub').
    rewrite HSub' in HSub. injection HSub as _ <-.
    eapply tame_trans; [|by apply tame_delivered].
    eapply tame_storeClients; [done..|].
    intros id b. rewrite lookup_insert. case_decide; [intros [= <-]; by right|by left].
  - rewrite (Sub_missing _ _ _ _ H Hf) in HSub. injection HSub as _ <-. apply tame_refl.
Qed.

Lemma Unsub_tame a name σ err σ' : Unsub a name σ = Return (err, σ') → tame a σ σ'.
Proof.
  intros HUnsub. destruct (heap σ !! a) as [c|] eqn:H;
    [|unfold Unsub, deref in HUnsub; by rewrite H in HUnsub].
  destruct (findTopic a c name σ) as [[p t]|] eqn:Hf.
  - destruct (t_Clients t !! c_id c) as [x|] eqn:Hx.
    + destruct (Unsub_live _ _ _ _ _ _ H Hf) as (c1 & H1 & _ & _ & _ & HUnsub');
        [by eexists|].
      rewrite HUnsub' in HUnsub. injection HUnsub as _ <-.
      eapply tame_trans; [|by apply tame_delivered].
      eapply tame_storeClients; [done..|].
      intros id b Hd. apply lookup_delete_Some in Hd as [_ Hd]. by left.
    + rewrite (Unsub_not_subscribed _ _ _ _ _ _ H Hf Hx) in HUnsub.
      injection HUnsub as _ <-. apply tame_refl.
  - rewrite (Unsub_missing _ _ _ _ H Hf) in HUnsub. injection HUnsub as _ <-.
    apply tame_refl.
Qed.

Lemma NewPrivateTopic_tame range a name σ err σ' :
  NewPrivateTopic range a name σ = Return (err, σ') → tame a σ σ'.
Proof.
  intros HNew. destruct (heap σ !! a) as [c|] eqn:H;
    [|unfold NewPrivateTopic, deref in HNew; by rewrite H in HNew].
  destruct (c_privateTopics c !! name) as [t|] eqn:Hn.
  - rewrite (NewPrivateTopic_exists _ _ _ _ _ H) in HNew by by eexists.
    injection HNew as _ <-. apply tame_refl.
  - destruct (NewPrivateTopic_live range _ _ _ _ H Hn) as (j & HNew').
    rewrite HNew' in HNew. injection HNew as _ <-.
    eapply tame_trans; [|apply tame_delivered].
    + split; [by apply quiet_set_privateTopics|]. split; [done|].
      split; [cbn; by rewrite length_insert|]. intros W. by apply wf_newTopic.
    + cbn. apply list_lookup_insert_eq. by eapply lookup_lt_Some.
Qed.

Lemma Pub_tame a to message σ err σ' :
  Pub a to message σ = Return (err, σ') → tame a σ σ'.
Proof.
  intros HPub. destruct (heap σ !! a) as [c|] eqn:H;
    [|unfold Pub, deref in HPub; by rewrite H in HPub].
  unfold Pub in HPub. rewrite (deref_live _ _ _ H) in HPub. cbn in HPub.
  case_decide; [injection HPub as _ <-; apply tame_refl|].
  destruct (c_privateTopics c !! to) as [t|]; [|injection HPub as _ <-; apply tame_refl].
  destruct (marshal message) as [d|] eqn:Hd.
  - rewrite (sendUpdate_live _ _ _ _ _ _ H Hd) in HPub. injection HPub as _ <-.
    by apply tame_delivered.
  - rewrite (sendUpdate_error _ _ _ _ Hd) in HPub. injection HPub as _ <-.
    apply tame_refl.
Qed.

Lemma unsubEach_tame a (l : list (string * topic)) σ σ' :
  forEach (λ σ kt, '(_, σ') ← Unsub a (t_Name kt.2) σ; Return σ') l σ = Return σ' →
  tame a σ σ'.
Proof.
  revert σ. induction l as [|kt l IH]; intros σ; cbn.
  - intros [= <-]. apply tame_refl.
  - destruct (Unsub a (t_Name kt.2) σ) as [[err σ1]|] eqn:HU; [|done]. cbn.
    intros Hrest. eapply tame_trans; [by eapply Unsub_tame|by apply IH].
Qed.

(** What [RemoveClient] does, but for the entry it deletes. *)
Lemma RemoveClient_tame range id σ err σ' :
  RemoveClient range id σ = Return (err, σ') →
  ∃ σ2, (∀ a, clients σ !! id = Some a → tame a σ σ2) ∧
        (clients σ !! id = None → σ2 = σ) ∧
        heap σ' = heap σ2 ∧ publicTopics σ' = publicTopics σ2 ∧
        clients σ' = delete id (clients σ).
Proof.
  unfold RemoveClient, getClient, unsubEach.
  destruct (clients σ !! id) as [a|] eqn:Hc.
  - destruct (deref a σ) as [cl|]; [|done]. cbn.
    destruct (forEach _ (range _ (c_privateTopics cl)) σ) as [σ1|] eqn:H1; [|done]. cbn.
    destruct (forEach _ (range _ (publicTopics σ1)) σ1) as [σ2|] eqn:H2; [|done]. cbn.
    intros [= _ <-]. exists σ2. cbn.
    assert (tame a σ σ2) as T.
    { eapply tame_trans; by eapply unsubEach_tame. }
    split; [by intros a' [= <-]|]. split; [done|].
    destruct T as (_ & -> & _). done.
  - intros [= _ <-]. exists σ. split; [done|]. split; [done|].
    by rewrite delete_id.
Qed.

Lemma wf_RemoveClient range id σ err σ' :
  wf σ → RemoveClient range id σ = Return (err, σ') → wf σ'.
Proof.
  intros W HR. destruct (RemoveClient_tame _ _ _ _ _ HR) as (σ2 & T & Tn & Hh & Hp & Hc).
  assert (wf σ2 ∧ clients σ2 = clients σ) as [W2 Hc2].
  { destruct (clients σ !! id) as [a|] eqn:Ha.
    - destruct (T a eq_refl) as (_ & ? & _ & ?). auto.
    - by rewrite Tn. }
  apply (wf_evolve σ2); [done| | |].
  - intros id' a. rewrite Hc, <- Hc2. intros Hd. by apply lookup_delete_Some in Hd as [_ Hd].
  - intros b c. rewrite Hh. by eexists.
  - intros p n t' Ht'.
    assert (loadTopic p n σ2 = Some t') as Hl.
    { destruct p; cbn in *; [by rewrite <- Hh|by rewrite <- Hp]. }
    split; [by eapply (proj1 (proj2 W2))|]. intros id' b Hb. left. by exists t'.
Qed.

Lemma fanout_keeps t message l σ err σ' :
  fanout t message l σ = Return (err, σ') →
  keeps σ σ' ∧ clients σ' = clients σ ∧ publicTopics σ' = publicTopics σ ∧
  length (heap σ') = length (heap σ) ∧ (wf σ → wf σ').
Proof.
  revert σ. induction l as [|[k a] l IH]; intros σ; cbn.
  - intros [= _ <-]. split; [apply keeps_refl|done].
  - destruct (generateUpdateData a t message) as [j [e|]].
    + intros [= _ <-]. split; [apply keeps_refl|done].
    + destruct (send a j σ) as [σ1|] eqn:Hs; [|done]. cbn. intros Hrest.
      destruct (IH _ Hrest) as (K & Hc & Hp & Hl & W).
      pose proof (send_keeps _ _ _ _ Hs) as K1.
      assert (clients σ1 = clients σ ∧ publicTopics σ1 = publicTopics σ ∧
              length (heap σ1) = length (heap σ)) as (Hc1 & Hp1 & Hl1).
      { unfold send in Hs. destruct (deref a σ); [|done]. cbn in Hs.
        injection Hs as <-. cbn. by rewrite length_insert. }
      split; [by eapply keeps_trans|]. split; [congruence|]. split; [congruence|].
      split; [congruence|]. intros W0. apply W. by eapply wf_send.
Qed.

Lemma handler_Pub_keeps range topic message σ err σ' :
  sSEPubSubHandler_Pub range topic message σ = Return (err, σ') →
  keeps σ σ' ∧ clients σ' = clients σ ∧ publicTopics σ' = publicTopics σ ∧
  length (heap σ') = length (heap σ) ∧ (wf σ → wf σ').
Proof.
  unfold sSEPubSubHandler_Pub. destruct (publicTopics σ !! topic) as [t|].
  - apply fanout_keeps.
  - intros [= _ <-]. split; [apply keeps_refl|done].
Qed.

Lemma Subscribe_tame range s r σ w σ' :
  Subscribe range s r σ = Return (w, σ') →
  ∀ a, clients σ !! r (ClientIDQueryParameter s) = Some a → tame a σ σ'.
Proof.
  unfold Subscribe. intros HS a Ha. rewrite Ha in HS.
  destruct (GetTopics range a σ) as [clTop|]; [|done]. cbn in HS.
  case_decide; [|injection HS as _ <-; apply tame_refl].
  destruct (Sub a _ σ) as [[err σ1]|] eqn:HSub; [|done]. cbn in HS.
  injection HS as _ <-. by eapply Sub_tame.
Qed.

Lemma Unsubscribe_tame range s r σ w σ' :
  Unsubscribe range s r σ = Return (w, σ') →
  ∀ a, clients σ !! r (ClientIDQueryParameter s) = Some a → tame a σ σ'.
Proof.
  unfold Unsubscribe. intros HS a Ha. rewrite Ha in HS.
  destruct (GetTopics range a σ) as [clTop|]; [|done]. cbn in HS.
  case_decide; [|injection HS as _ <-; apply tame_refl].
  destruct (Unsub a _ σ) as [[err σ1]|] eqn:HSub; [|done]. cbn in HS.
  injection HS as _ <-. by eapply Unsub_tame.
Qed.

Lemma Subscribe_unknown range s r σ w σ' :
  Subscribe range s r σ = Return (w, σ') →
  clients σ !! r (ClientIDQueryParameter s) = None → σ' = σ.
Proof. unfold Subscribe. intros HS Ha. rewrite Ha in HS. by injection HS as _ <-. Qed.

Lemma Unsubscribe_unknown range s r σ w σ' :
  Unsubscribe range s r σ = Return (w, σ') →
  clients σ !! r (ClientIDQueryParameter s) = None → σ' = σ.
Proof. unfold Unsubscribe. intros HS Ha. rewrite Ha in HS. by injection HS as _ <-. Qed.

Lemma wf_initial : wf NewSSEPubSubHandler.
Proof.
  split; [|split].
  - intros id a. cbn. by rewrite lookup_empty.
  - intros [a|] n t; cbn; rewrite ?lookup_nil, ?lookup_empty; done.
  - intros [a|] n t id b; cbn; rewrite ?lookup_nil, ?lookup_empty; done.
Qed.

Lemma wf_registerPublic name σ : wf σ → wf (registerPublic name σ).
Proof.
  intros W. apply (wf_evolve σ); [done|done|by eauto|].
  intros [a|] n t'; cbn.
  - intros Ht'. assert (loadTopic (PrivateOf a) n σ = Some t') as Hl by done.
    split; [by eapply (proj1 (proj2 W))|]. intros id b Hb. left. by exists t'.
  - rewrite lookup_insert. case_decide as Hn.
    + intros [= <-]. cbn. split; [done|]. intros id b. by rewrite lookup_empty.
    + intros Ht'. assert (loadTopic Shared n σ = Some t') as Hl by done.
      split; [by eapply (proj1 (proj2 W))|]. intros id b Hb. left. by exists t'.
Qed.

Lemma wf_setStatus a st σ : wf σ → wf (setStatus a st σ).
Proof.
  intros W. apply (wf_evolve σ); [done|done| |].
  - intros b c H. unfold setStatus. cbn. rewrite list_lookup_alter.
    case_decide; [subst; rewrite H; by eexists|by exists c].
  - intros p n t' Ht'.
    assert (loadTopic p n σ = Some t') as Hl.
    { destruct p as [b|]; [|done]. cbn in *. rewrite list_lookup_alter in Ht'.
      case_decide; [subst|done]. by destruct (heap σ !! b). }
    split; [by eapply (proj1 (proj2 W))|]. intros id b Hb. left. by exists t'.
Qed.

Lemma step_wf_one range s σ σ' : wf σ → step range s σ σ' → wf σ'.
Proof.
  intros W Hstep.
  destruct Hstep as [uuid id|a name err σ1 H|a name err σ1 H|a name err σ1 H
                     |a to msg err σ1 H|id err σ1 H|topic msg err σ1 H|uuid r
                     |r w σ1 H|r w σ1 H].
  - by apply wf_NewClient.
  - by apply (NewPrivateTopic_tame _ _ _ _ _ _ H).
  - by apply (Sub_tame _ _ _ _ _ H).
  - by apply (Unsub_tame _ _ _ _ _ H).
  - by apply (Pub_tame _ _ _ _ _ _ H).
  - by eapply wf_RemoveClient.
  - by apply (handler_Pub_keeps _ _ _ _ _ _ H).
  - by apply wf_NewClient.
  - destruct (clients σ !! r (ClientIDQueryParameter s)) as [a|] eqn:Ha.
    + by apply (Subscribe_tame _ _ _ _ _ _ H a Ha).
    + by rewrite (Subscribe_unknown _ _ _ _ _ _ H Ha).
  - destruct (clients σ !! r (ClientIDQueryParameter s)) as [a|] eqn:Ha.
    + by apply (Unsubscribe_tame _ _ _ _ _ _ H a Ha).
    + by rewrite (Unsubscribe_unknown _ _ _ _ _ _ H Ha).
Qed.

(** X1.  The operations keep the state well formed, however many are
    called and in whatever order: every registered id names a client object
    of that id, every topic is filed under its name, every subscriber entry
    points to a client object of the entry's id, and a private topic has no
    subscriber but its owner. *)
Theorem step_wf (range : ranging) (s : settings) (σ σ' : state) :
  wf σ → rtc (step range s) σ σ' → wf σ'.
Proof.
  intros W Hsteps. induction Hsteps as [σ|σ σ1 σ' Hstep _ IH]; [done|].
  apply IH. by eapply step_wf_one.
Qed.

Lemma step_wf_witness :
  wf NewSSEPubSubHandler ∧
  rtc (step range_forward defaultSettings) NewSSEPubSubHandler
      (NewClient "7b0e" "c1" NewSSEPubSubHandler).2 ∧
  wf (NewClient "7b0e" "c1" NewSSEPubSubHandler).2.
Proof.
  assert (rtc (step range_forward defaultSettings) NewSSEPubSubHandler
              (NewClient "7b0e" "c1" NewSSEPubSubHandler).2) as Hsteps.
  { apply rtc_once. apply step_NewClient. }
  split; [exact wf_initial|]. split; [exact Hsteps|].
  exact (step_wf range_forward defaultSettings _ _ wf_initial Hsteps).
Defined.

Lemma step_keeps_one range s σ σ' :
  step range s σ σ' →
  keeps σ σ' ∧
  ∀ b c', heap σ' !! b = Some c' → is_Some (heap σ !! b) ∨ c_status c' = Waiting.
Proof.
  assert (∀ σ σ', length (heap σ') = length (heap σ) →
            ∀ b (c' : client), heap σ' !! b = Some c' →
              is_Some (heap σ !! b) ∨ c_status c' = Waiting) as Hlen.
  { intros σ0 σ0' Hl b c' H'. left. apply lookup_lt_is_Some. rewrite <- Hl.
    by eapply lookup_lt_Some. }
  assert (∀ uuid id, keeps σ (NewClient uuid id σ).2 ∧
            ∀ b c', heap (NewClient uuid id σ).2 !! b = Some c' →
              is_Some (heap σ !! b) ∨ c_status c' = Waiting) as Hnew.
  { intros uuid id. split; [apply keeps_NewClient|]. unfold NewClient.
    destruct (clients σ !! _); cbn; [by eauto|].
    intros b c' H'. destruct (decide (b < length (heap σ))) as [Hlt|Hge].
    - left. by apply lookup_lt_is_Some.
    - right. rewrite lookup_app_r in H' by lia.
      destruct (b - length (heap σ)) as [|k]; [|done]. by injection H' as <-. }
  assert (∀ a σ', tame a σ σ' →
            keeps σ σ' ∧ ∀ b c', heap σ' !! b = Some c' →
              is_Some (heap σ !! b) ∨ c_status c' = Waiting) as Htame.
  { intros a σ0 ((K & _) & _ & Hl & _). split; [done|]. by apply Hlen. }
  intros Hstep.
  destruct Hstep as [uuid id|a name err σ1 H|a name err σ1 H|a name err σ1 H
                     |a to msg err σ1 H|id err σ1 H|topic msg err σ1 H|uuid r
                     |r w σ1 H|r w σ1 H].
  - apply Hnew.
  - by eapply Htame, NewPrivateTopic_tame.
  - by eapply Htame, Sub_tame.
  - by eapply Htame, Unsub_tame.
  - by eapply Htame, Pub_tame.
  - destruct (RemoveClient_tame _ _ _ _ _ H) as (σ2 & T & Tn & Hh & _).
    assert (keeps σ σ2 ∧ length (heap σ2) = length (heap σ)) as [K Hl].
    { destruct (clients σ !! id) as [a|] eqn:Ha.
      - by destruct (T a eq_refl) as ((K & _) & _ & Hl & _).
      - rewrite Tn by done. split; [apply keeps_refl|done]. }
    split.
    + intros b c Hb. destruct (K b c Hb) as (c' & H' & ?). exists c'. by rewrite Hh.
    + apply Hlen. by rewrite Hh.
  - destruct (handler_Pub_keeps _ _ _ _ _ _ H) as (K & _ & _ & Hl & _).
    split; [done|]. by apply Hlen.
  - apply Hnew.
  - destruct (clients σ !! r (ClientIDQueryParameter s)) as [a|] eqn:Ha.
    + by eapply Htame, Subscribe_tame.
    + rewrite (Subscribe_unknown _ _ _ _ _ _ H Ha). split; [apply keeps_refl|by eauto].
  - destruct (clients σ !! r (ClientIDQueryParameter s)) as [a|] eqn:Ha.
    + by eapply Htame, Unsubscribe_tame.
    + rewrite (Unsubscribe_unknown _ _ _ _ _ _ H Ha). split; [apply keeps_refl|by eauto].
Qed.

(** X2.  Whatever operations are called, a client object stays where it
    is, with its id and its status, and its stream keeps every frame it
    held, in place: frames are only ever added at the end.  No operation
    assigns a status, so that when every client is waiting, every client is
    waiting ever after, the new ones included. *)
Theorem step_keeps (range : ranging) (s : settings) (σ σ' : state) :
  rtc (step range s) σ σ' →
  keeps σ σ' ∧
  ((∀ b c, heap σ !! b = Some c → c_status c = Waiting) →
   ∀ b c', heap σ' !! b = Some c' → c_status c' = Waiting).
Proof.
  intros Hsteps. induction Hsteps as [σ|σ σ1 σ' Hstep _ [K IH]].
  - split; [apply keeps_refl|done].
  - destruct (step_keeps_one _ _ _ _ Hstep) as [K1 Hnew].
    split; [by eapply keeps_trans|].
    intros Hw. apply IH. intros b c1 H1.
    destruct (Hnew b c1 H1) as [[c Hc]|Hc]; [|done].
    destruct (K1 b c Hc) as (c1' & H1' & _ & Hst & _).
    rewrite H1 in H1'. injection H1' as <-. rewrite Hst. by eapply Hw.
Qed.

Lemma step_keeps_witness :
  rtc (step range_forward defaultSettings) hub_orders hub_subscribed ∧
  keeps hub_orders hub_subscribed ∧
  ((∀ b c, heap hub_orders !! b = Some c → c_status c = Waiting) →
   ∀ b c', heap hub_subscribed !! b = Some c' → c_status c' = Waiting).
Proof.
  assert (rtc (step range_forward defaultSettings) hub_orders hub_subscribed) as Hsteps.
  { apply rtc_once. apply (step_Sub _ _ _ 0 "orders" None). vm_compute. reflexivity. }
  split; [exact Hsteps|].
  exact (step_keeps range_forward defaultSettings _ _ Hsteps).
Defined.

Lemma client_step_tame range s a σ σ' :
  client_step range s a σ σ' →
  ∃ σ2, tame a σ σ2 ∧ heap σ' = heap σ2.
Proof.
  intros Hstep.
  destruct Hstep as [name err σ1 H|name err σ1 H|name err σ1 H|to msg err σ1 H
                     |id err σ1 Ha H|r w σ1 Ha H|r w σ1 Ha H].
  - exists σ1. split; [by eapply NewPrivateTopic_tame|done].
  - exists σ1. split; [by eapply Sub_tame|done].
  - exists σ1. split; [by eapply Unsub_tame|done].
  - exists σ1. split; [by eapply Pub_tame|done].
  - destruct (RemoveClient_tame _ _ _ _ _ H) as (σ2 & T & _ & Hh & _).
    exists σ2. split; [by apply T|done].
  - exists σ1. split; [by eapply Subscribe_tame|done].
  - exists σ1. split; [by eapply Unsubscribe_tame|done].
Qed.

(** X3.  An operation called on behalf of a client sends to that client
    alone, and only if it is receiving: the stream of every other client,
    and of every client that is waiting, is what it was.  This holds of the
    methods of a client, of its removal with the notices of the cascade, and
    of the handlers [Subscribe] and [Unsubscribe]. *)
Theorem client_step_quiet (range : ranging) (s : settings) (a : nat) (σ σ' : state)
    (b : nat) (c : client) :
  client_step range s a σ σ' →
  heap σ !! b = Some c → b ≠ a ∨ c_status c = Waiting →
  streamOf b σ' = c_stream c.
Proof.
  intros Hstep H Hb.
  destruct (client_step_tame _ _ _ _ _ Hstep) as (σ2 & ((_ & Q) & _) & Hh).
  unfold streamOf. rewrite Hh. by apply Q.
Qed.

Lemma client_step_quiet_witness :
  client_step range_forward defaultSettings 0 hub_news hub_shadow ∧
  heap hub_news !! 0 = Some (c1 Waiting [] ∅) ∧
  (0 ≠ 0 ∨ c_status (c1 Waiting [] ∅) = Waiting) ∧
  streamOf 0 hub_shadow = c_stream (c1 Waiting [] ∅).
Proof.
  assert (client_step range_forward defaultSettings 0 hub_news hub_shadow) as Hstep.
  { apply (call_NewPrivateTopic _ _ _ _ "news" None). vm_compute. reflexivity. }
  split; [exact Hstep|]. split; [reflexivity|]. split; [by right|].
  exact (client_step_quiet range_forward defaultSettings 0 hub_news hub_shadow 0
           (c1 Waiting [] ∅) Hstep eq_refl (or_intror eq_refl)).
Defined.

(** ** The maps of topics *)

Lemma range_NoDup range A (m : gmap string A) : range_ok range → NoDup (range A m).*1.
Proof. intros Hr. rewrite (Hr A m). apply NoDup_fst_map_to_list. Qed.

Lemma range_to_map range A (m : gmap string A) :
  range_ok range → list_to_map (range A m) = m.
Proof.
  intros Hr. rewrite <- (list_to_map_to_list m) at 2.
  apply list_to_map_proper; [by apply range_NoDup|apply Hr].
Qed.

Lemma fst_filter_elem {A} (P : string * A → Prop) `{!∀ x, Decision (P x)}
    (l : list (string * A)) k :
  k ∈ (filter P l).*1 → k ∈ l.*1.
Proof.
  rewrite !list_elem_of_fmap. intros (kt & -> & Hin).
  apply list_elem_of_filter in Hin as [_ Hin]. by exists kt.
Qed.

Lemma NoDup_fst_filter {A} (P : string * A → Prop) `{!∀ x, Decision (P x)}
    (l : list (string * A)) :
  NoDup l.*1 → NoDup (filter P l).*1.
Proof.
  induction l as [|[k x] l IH]; [done|]. intros Hnd. cbn in Hnd.
  apply NoDup_cons in Hnd as [Hk Hnd]. rewrite filter_cons. case_decide.
  - cbn. apply NoDup_cons. split; [|by apply IH].
    intros Hin. apply Hk. by eapply fst_filter_elem.
  - by apply IH.
Qed.

(** Filing topics under their names, when they are listed under their
    names, once each. *)
Lemma foldl_addByName_filter (P : string * topic → Prop) `{!∀ x, Decision (P x)}
    (l : list (string * topic)) (acc : gmap string topic) :
  NoDup l.*1 → (∀ k t, (k, t) ∈ l → t_Name t = k) →
  foldl (λ subs kt, if decide (P kt) then addByName subs kt else subs) acc l =
    list_to_map (filter P l) ∪ acc.
Proof.
  revert acc. induction l as [|[k t] l IH]; intros acc Hnd Hname.
  - cbn. by rewrite (left_id_L ∅ (∪)).
  - cbn in Hnd. apply NoDup_cons in Hnd as [Hk Hnd]. cbn [foldl].
    rewrite IH; [|done|intros k' t' Hin; apply Hname; by right].
    rewrite filter_cons. destruct (decide (P (k, t))) as [HP|HP]; [|done].
    unfold addByName. cbn [snd list_to_map foldr uncurry fst].
    rewrite (Hname k t) by by left.
    change (list_to_map ((k, t) :: filter P l))
      with (<[k := t]> (list_to_map (filter P l) : gmap string topic)).
    rewrite <- insert_union_l. symmetry. apply insert_union_r.
    apply not_elem_of_list_to_map_1. intros Hin. apply Hk.
    by eapply fst_filter_elem.
Qed.

Lemma foldl_addByName_union (l : list (string * topic)) (acc : gmap string topic) :
  NoDup l.*1 → (∀ k t, (k, t) ∈ l → t_Name t = k) →
  foldl addByName acc l = list_to_map l ∪ acc.
Proof.
  revert acc. induction l as [|[k t] l IH]; intros acc Hnd Hname.
  - cbn. by rewrite (left_id_L ∅ (∪)).
  - cbn in Hnd. apply NoDup_cons in Hnd as [Hk Hnd]. cbn [foldl].
    rewrite IH; [|done|intros k' t' Hin; apply Hname; by right].
    unfold addByName. cbn [snd]. rewrite (Hname k t) by by left.
    change (list_to_map ((k, t) :: l))
      with (<[k := t]> (list_to_map l : gmap string topic)).
    rewrite <- insert_union_l. symmetry. apply insert_union_r.
    by apply not_elem_of_list_to_map_1.
Qed.

Lemma topicsOf_union range pub priv :
  range_ok range →
  (∀ k t, priv !! k = Some t → t_Name t = k) →
  (∀ k t, pub !! k = Some t → t_Name t = k) →
  topicsOf range pub priv = priv ∪ pub.
Proof.
  intros Hr Hpriv Hpub. unfold topicsOf.
  rewrite (foldl_addByName_union (range _ pub)), (foldl_addByName_union (range _ priv)).
  - by rewrite !range_to_map, (right_id_L ∅ (∪)).
  - by apply range_NoDup.
  - intros k t Hin. apply Hpriv. by apply (elem_of_range _ _ _ _ _ Hr).
  - by apply range_NoDup.
  - intros k t Hin. apply Hpub. by apply (elem_of_range _ _ _ _ _ Hr).
Qed.

Lemma subscribedOf_filter range id (topics : gmap string topic) :
  range_ok range →
  (∀ k t, topics !! k = Some t → t_Name t = k) →
  subscribedOf range id topics =
    filter (λ kt, is_Some (t_Clients kt.2 !! id)) topics.
Proof.
  intros Hr Hname. unfold subscribedOf.
  rewrite (foldl_addByName_filter (λ kt, is_Some (t_Clients kt.2 !! id)));
    [|by apply range_NoDup
     |intros k t Hin; apply Hname; by apply (elem_of_range _ _ _ _ _ Hr)].
  rewrite (right_id_L ∅ (∪)). apply map_eq. intros k. apply option_eq. intros t.
  rewrite <- elem_of_list_to_map by by apply NoDup_fst_filter, range_NoDup.
  rewrite list_elem_of_filter, map_lookup_filter_Some.
  rewrite (elem_of_range _ _ _ _ _ Hr). split; intros [? ?]; by split.
Qed.

Lemma wf_names_private σ a c :
  wf σ → heap σ !! a = Some c → ∀ k t, c_privateTopics c !! k = Some t → t_Name t = k.
Proof.
  intros (_ & W2 & _) H k t Ht. apply (W2 (PrivateOf a)). cbn. by rewrite H.
Qed.

Lemma wf_names_public σ :
  wf σ → ∀ k t, publicTopics σ !! k = Some t → t_Name t = k.
Proof. intros (_ & W2 & _) k t Ht. by apply (W2 Shared). Qed.

Lemma union_findTopic a c name σ :
  (c_privateTopics c ∪ publicTopics σ) !! name = snd <$> findTopic a c name σ.
Proof.
  unfold findTopic. rewrite lookup_union.
  destruct (c_privateTopics c !! name), (publicTopics σ !! name); done.
Qed.

Lemma GetTopics_wf range a c σ :
  range_ok range → wf σ → heap σ !! a = Some c →
  GetTopics range a σ = Return (c_privateTopics c ∪ publicTopics σ).
Proof.
  intros Hr W H. rewrite (GetTopics_live _ _ _ _ H). f_equal.
  apply topicsOf_union; [done|by eapply wf_names_private|by apply wf_names_public].
Qed.

Lemma GetSubscribedTopics_wf range a c σ :
  range_ok range → wf σ → heap σ !! a = Some c →
  GetSubscribedTopics range a σ =
    Return (filter (λ kt, is_Some (t_Clients kt.2 !! c_id c))
              (c_privateTopics c ∪ publicTopics σ)).
Proof.
  intros Hr W H. rewrite (GetSubscribedTopics_live _ _ _ _ H). f_equal.
  rewrite subscribedOf_filter; [|done|].
  - by rewrite topicsOf_union
      by (done || by eapply wf_names_private || by apply wf_names_public).
  - intros k t Ht. symmetry. by eapply topicsOf_keyed.
Qed.

(** X4.  In a well-formed state [GetTopics] returns the private topics of
    the client united with the public topics, a private topic hiding the
    public topic of its name, whatever the order in which the maps are
    ranged over.  A name is in that map exactly when [Sub] and [Unsub]
    resolve it, and to the same topic. *)
Theorem GetTopics_resolves (range : ranging) (a : nat) (c : client) (σ : state) :
  range_ok range → wf σ → heap σ !! a = Some c →
  GetTopics range a σ = Return (c_privateTopics c ∪ publicTopics σ) ∧
  ∀ name, (c_privateTopics c ∪ publicTopics σ) !! name = snd <$> findTopic a c name σ.
Proof.
  intros Hr W H. split; [by apply GetTopics_wf|]. intros name. apply union_findTopic.
Qed.

(** X5.  [GetSubscribedTopics] returns exactly the topics of [GetTopics]
    that hold the id of the client among their subscribers, whatever the
    order in which the maps are ranged over and in any state. *)
Theorem GetSubscribedTopics_filter (range : ranging) (a : nat) (c : client) (σ : state)
    (topics : gmap string topic) :
  range_ok range → heap σ !! a = Some c →
  GetTopics range a σ = Return topics →
  GetSubscribedTopics range a σ =
    Return (filter (λ kt, c_id c ∈ dom (t_Clients kt.2)) topics).
Proof.
  intros Hr H HT. rewrite (GetTopics_live _ _ _ _ H) in HT. injection HT as <-.
  rewrite (GetSubscribedTopics_live _ _ _ _ H). f_equal.
  rewrite subscribedOf_filter;
    [|done|intros k t Ht; symmetry; by eapply topicsOf_keyed].
  apply map_filter_ext. intros k t _. cbn. by rewrite elem_of_dom.
Qed.

Lemma GetSubscribedTopics_filter_witness :
  range_ok range_forward ∧
  heap hub_subscribed !! 0 =
    Some (c1 Receving [ordersListed; ordersSubscribed] {["orders" := orders {["c1" := 0]}]}) ∧
  GetTopics range_forward 0 hub_subscribed = Return {["orders" := orders {["c1" := 0]}]} ∧
  GetSubscribedTopics range_forward 0 hub_subscribed =
    Return (filter (λ kt, ("c1" : string) ∈ dom (t_Clients kt.2))
              {["orders" := orders {["c1" := 0]}]}).
Proof.
  assert (GetTopics range_forward 0 hub_subscribed =
            Return {["orders" := orders {["c1" := 0]}]}) as HT
    by (vm_compute; reflexivity).
  split; [exact range_forward_ok|]. split; [reflexivity|]. split; [exact HT|].
  exact (GetSubscribedTopics_filter range_forward 0 _ hub_subscribed _
           range_forward_ok eq_refl HT).
Defined.

(** ** Subscriptions seen from outside *)

(** The receiver and the pointer after a [Sub] that resolves. *)
Lemma Sub_post a c name p t σ :
  heap σ !! a = Some c → findTopic a c name σ = Some (p, t) →
  ∃ σ' c', Sub a name σ = Return (None, σ') ∧
    heap σ' !! a = Some c' ∧ c_id c' = c_id c ∧
    findTopic a c' name σ' = Some (p, set_Clients (<[c_id c := a]> (t_Clients t)) t).
Proof.
  intros H Hf. destruct (Sub_live _ _ _ _ _ _ H Hf) as (c1 & H1 & Hid1 & _ & _ & HSub).
  destruct (delivered_live _ _ (noticeFrame "subscribed" (t_Name t)) _ H1)
    as (c' & H' & Hid' & _ & Hpriv' & _).
  eexists _, c'. split; [exact HSub|]. split; [exact H'|]. split; [congruence|].
  rewrite (findTopic_ext a c' c1 name _ (storeClients p name (<[c_id c := a]> (t_Clients t)) σ)
             Hpriv' (publicTopics_delivered _ _ _ _)).
  by apply (findTopic_storeClients _ c).
Qed.

(** The receiver and the pointer after an [Unsub] of a subscriber. *)
Lemma Unsub_post a c name p t σ :
  heap σ !! a = Some c → findTopic a c name σ = Some (p, t) →
  is_Some (t_Clients t !! c_id c) →
  ∃ σ' c', Unsub a name σ = Return (None, σ') ∧
    heap σ' !! a = Some c' ∧ c_id c' = c_id c ∧
    findTopic a c' name σ' = Some (p, set_Clients (delete (c_id c) (t_Clients t)) t).
Proof.
  intros H Hf Hs.
  destruct (Unsub_live _ _ _ _ _ _ H Hf Hs) as (c1 & H1 & Hid1 & _ & _ & HUnsub).
  destruct (delivered_live _ _ (noticeFrame "unsubscribed" (t_Name t)) _ H1)
    as (c' & H' & Hid' & _ & Hpriv' & _).
  eexists _, c'. split; [exact HUnsub|]. split; [exact H'|]. split; [congruence|].
  rewrite (findTopic_ext a c' c1 name _ (storeClients p name (delete (c_id c) (t_Clients t)) σ)
             Hpriv' (publicTopics_delivered _ _ _ _)).
  by apply (findTopic_storeClients _ c).
Qed.

Lemma Sub_success a c name σ σ' :
  heap σ !! a = Some c → Sub a name σ = Return (None, σ') →
  ∃ p t, findTopic a c name σ = Some (p, t).
Proof.
  intros H HSub. destruct (findTopic a c name σ) as [[p t]|] eqn:Hf; [by eauto|].
  by rewrite (Sub_missing _ _ _ _ H Hf) in HSub.
Qed.

Lemma Unsub_success a c name σ σ' :
  heap σ !! a = Some c → Unsub a name σ = Return (None, σ') →
  ∃ p t, findTopic a c name σ = Some (p, t) ∧ is_Some (t_Clients t !! c_id c).
Proof.
  intros H HU. destruct (findTopic a c name σ) as [[p t]|] eqn:Hf.
  - destruct (t_Clients t !! c_id c) as [x|] eqn:Hx; [by eauto|].
    by rewrite (Unsub_not_subscribed _ _ _ _ _ _ H Hf Hx) in HU.
  - by rewrite (Unsub_missing _ _ _ _ H Hf) in HU.
Qed.

(** X6.  In a well-formed state, a [Sub] that succeeds is seen by
    [GetSubscribedTopics]: the name is in the map it returns next, with the
    client among the subscribers; an [Unsub] that succeeds takes the name
    out of it. *)
Theorem subscription_shows (range : ranging) (a : nat) (c : client) (name : string)
    (σ : state) :
  range_ok range → wf σ → heap σ !! a = Some c →
  (∀ σ', Sub a name σ = Return (None, σ') →
     ∃ subs t, GetSubscribedTopics range a σ' = Return subs ∧
               subs !! name = Some t ∧ t_Clients t !! c_id c = Some a) ∧
  (∀ σ', Unsub a name σ = Return (None, σ') →
     ∃ subs, GetSubscribedTopics range a σ' = Return subs ∧ subs !! name = None).
Proof.
  intros Hr W H. split.
  - intros σ' HSub. destruct (Sub_success _ _ _ _ _ H HSub) as (p & t & Hf).
    destruct (Sub_post _ _ _ _ _ _ H Hf) as (σ1 & c' & HSub' & H' & Hid & Hf').
    rewrite HSub' in HSub. injection HSub as ->.
    assert (wf σ') as W' by by apply (Sub_tame _ _ _ _ _ HSub').
    eexists _, (set_Clients (<[c_id c := a]> (t_Clients t)) t).
    split; [by apply GetSubscribedTopics_wf|].
    split; [|cbn; apply lookup_insert_eq].
    apply map_lookup_filter_Some. split.
    + by rewrite (union_findTopic a), Hf'.
    + cbn. rewrite Hid, lookup_insert_eq. by eexists.
  - intros σ' HU. destruct (Unsub_success _ _ _ _ _ H HU) as (p & t & Hf & Hs).
    destruct (Unsub_post _ _ _ _ _ _ H Hf Hs) as (σ1 & c' & HU' & H' & Hid & Hf').
    rewrite HU' in HU. injection HU as ->.
    assert (wf σ') as W' by by apply (Unsub_tame _ _ _ _ _ HU').
    eexists. split; [by apply GetSubscribedTopics_wf|].
    apply eq_None_not_Some. intros [t' Ht'].
    apply map_lookup_filter_Some in Ht' as [Ht' [x Hx]].
    rewrite (union_findTopic a), Hf' in Ht'. injection Ht' as <-.
    cbn in Hx. by rewrite Hid, lookup_delete_eq in Hx.
Qed.

Lemma wf_hub_c1 : wf hub_c1.
Proof.
  change hub_c1 with (setStatus 0 Receving (NewClient "7b0e" "c1" NewSSEPubSubHandler).2).
  apply wf_setStatus, wf_NewClient, wf_initial.
Qed.

Lemma wf_hub_orders : wf hub_orders.
Proof.
  apply (NewPrivateTopic_tame range_forward 0 "orders" hub_c1 None); [|exact wf_hub_c1].
  vm_compute. reflexivity.
Qed.

Lemma wf_hub_subscribed : wf hub_subscribed.
Proof.
  apply (Sub_tame 0 "orders" hub_orders None); [|exact wf_hub_orders].
  vm_compute. reflexivity.
Qed.

Lemma wf_hub_news : wf hub_news.
Proof.
  apply (Sub_tame 0 "news" (hub_of (c1 Waiting [] ∅) {["news" := news ∅]}) None).
  { vm_compute. reflexivity. }
  change (hub_of (c1 Waiting [] ∅) {["news" := news ∅]})
    with (NewClient "7b0e" "c1" (registerPublic "news" NewSSEPubSubHandler)).2.
  apply wf_NewClient, wf_registerPublic, wf_initial.
Qed.

Lemma wf_hub_shadow : wf hub_shadow.
Proof.
  apply (NewPrivateTopic_tame range_forward 0 "news" hub_news None hub_shadow);
    [vm_compute; reflexivity|exact wf_hub_news].
Qed.

Lemma GetTopics_resolves_witness :
  range_ok range_backward ∧ wf hub_shadow ∧
  heap hub_shadow !! 0 =
    Some (c1 Waiting [] {["news" := {| t_Name := "news"; t_Type := Private;
                                       t_Clients := ∅ |}]}) ∧
  publicTopics hub_shadow = {["news" := news {["c1" := 0]}]} ∧
  GetTopics range_backward 0 hub_shadow =
    Return ({["news" := {| t_Name := "news"; t_Type := Private; t_Clients := ∅ |}]} ∪
            {["news" := news {["c1" := 0]}]}) ∧
  (∀ name,
     (({["news" := {| t_Name := "news"; t_Type := Private; t_Clients := ∅ |}]} : gmap string topic) ∪
       {["news" := news {["c1" := 0]}]}) !! name =
     snd <$> findTopic 0 (c1 Waiting [] {["news" := {| t_Name := "news"; t_Type := Private;
                                                        t_Clients := ∅ |}]})
               name hub_shadow) ∧
  findTopic 0 (c1 Waiting [] {["news" := {| t_Name := "news"; t_Type := Private;
                                            t_Clients := ∅ |}]}) "news" hub_shadow =
    Some (PrivateOf 0, {| t_Name := "news"; t_Type := Private; t_Clients := ∅ |}).
Proof.
  split; [exact range_backward_ok|]. split; [exact wf_hub_shadow|].
  split; [reflexivity|]. split; [reflexivity|].
  destruct (GetTopics_resolves range_backward 0 _ hub_shadow range_backward_ok
              wf_hub_shadow eq_refl) as [HG Hres].
  split; [exact HG|]. split; [exact Hres|]. reflexivity.
Defined.

Lemma subscription_shows_witness :
  range_ok range_forward ∧ wf hub_orders ∧
  heap hub_orders !! 0 = Some (c1 Receving [ordersListed] {["orders" := orders ∅]}) ∧
  ∃ subs t, GetSubscribedTopics range_forward 0 hub_subscribed = Return subs ∧
            subs !! "orders" = Some t ∧ t_Clients t !! "c1" = Some 0.
Proof.
  split; [exact range_forward_ok|]. split; [exact wf_hub_orders|].
  split; [reflexivity|].
  refine (proj1 (subscription_shows range_forward 0 _ "orders" hub_orders
                   range_forward_ok wf_hub_orders eq_refl) hub_subscribed _).
  vm_compute. reflexivity.
Defined.

(** ** The handlers *)

Lemma wf_client σ id a :
  wf σ → clients σ !! id = Some a → ∃ c, heap σ !! a = Some c ∧ c_id c = id.
Proof. intros (W1 & _) Ha. by apply W1. Qed.

Lemma findTopic_is_Some a c name σ :
  is_Some ((c_privateTopics c ∪ publicTopics σ) !! name) ↔
  is_Some (findTopic a c name σ).
Proof. rewrite (union_findTopic a). by rewrite fmap_is_Some. Qed.

(** X7.  The handler [Subscribe] in a well-formed state: it answers 404
    and changes nothing when the id names no client, and when the topic
    name resolves to no topic of the client (the body then names the client
    id where the topic is meant); otherwise it answers 200, the call of
    [Sub] it makes has succeeded, and the client is a subscriber of the
    topic the name resolves to. *)
Theorem Subscribe_responds (range : ranging) (s : settings) (r : request) (σ : state) :
  range_ok range → wf σ →
  match clients σ !! r (ClientIDQueryParameter s) with
  | None =>
      Subscribe range s r σ =
        Return (jsonResponse StatusNotFound
                  (errorBody "client" (r (ClientIDQueryParameter s))), σ)
  | Some a =>
      ∃ c, heap σ !! a = Some c ∧ c_id c = r (ClientIDQueryParameter s) ∧
        match findTopic a c (r (TopicQueryParameter s)) σ with
        | None =>
            Subscribe range s r σ =
              Return (jsonResponse StatusNotFound
                        (errorBody "topic" (r (ClientIDQueryParameter s))), σ)
        | Some (p, t) =>
            ∃ σ', Subscribe range s r σ = Return (jsonResponse StatusOK okBody, σ') ∧
                  Sub a (r (TopicQueryParameter s)) σ = Return (None, σ') ∧
                  subscribers p (r (TopicQueryParameter s)) σ' =
                    Some ({[r (ClientIDQueryParameter s)]} ∪ dom (t_Clients t))
        end
  end.
Proof.
  intros Hr W. unfold Subscribe.
  destruct (clients σ !! r (ClientIDQueryParameter s)) as [a|] eqn:Ha; [|done].
  destruct (wf_client _ _ _ W Ha) as (c & H & Hid). exists c.
  split; [done|]. split; [done|].
  rewrite (GetTopics_wf _ _ _ _ Hr W H). cbn.
  destruct (findTopic a c (r (TopicQueryParameter s)) σ) as [[p t]|] eqn:Hf.
  - rewrite decide_True by (apply (findTopic_is_Some a); rewrite Hf; by eexists).
    destruct (Sub_post _ _ _ _ _ _ H Hf) as (σ' & c' & HSub & H' & Hid' & Hf').
    exists σ'. rewrite HSub. cbn. split; [done|]. split; [done|].
    unfold subscribers. rewrite (findTopic_load _ _ _ _ _ _ H' Hf'). cbn.
    by rewrite dom_insert_L, Hid.
  - rewrite decide_False; [done|].
    intros Hs. apply (findTopic_is_Some a) in Hs. rewrite Hf in Hs. by destruct Hs.
Qed.

(** X8.  The handler [Unsubscribe] in a well-formed state: the same two
    answers 404; otherwise it answers 200 whether or not the client was a
    subscriber, and the client is then not a subscriber of the topic the
    name resolves to, the other subscribers being as they were. *)
Theorem Unsubscribe_responds (range : ranging) (s : settings) (r : request) (σ : state) :
  range_ok range → wf σ →
  match clients σ !! r (ClientIDQueryParameter s) with
  | None =>
      Unsubscribe range s r σ =
        Return (jsonResponse StatusNotFound
                  (errorBody "client" (r (ClientIDQueryParameter s))), σ)
  | Some a =>
      ∃ c, heap σ !! a = Some c ∧ c_id c = r (ClientIDQueryParameter s) ∧
        match findTopic a c (r (TopicQueryParameter s)) σ with
        | None =>
            Unsubscribe range s r σ =
              Return (jsonResponse StatusNotFound
                        (errorBody "topic" (r (ClientIDQueryParameter s))), σ)
        | Some (p, t) =>
            ∃ σ', Unsubscribe range s r σ = Return (jsonResponse StatusOK okBody, σ') ∧
                  subscribers p (r (TopicQueryParameter s)) σ' =
                    Some (dom (t_Clients t) ∖ {[r (ClientIDQueryParameter s)]})
        end
  end.
Proof.
  intros Hr W. unfold Unsubscribe.
  destruct (clients σ !! r (ClientIDQueryParameter s)) as [a|] eqn:Ha; [|done].
  destruct (wf_client _ _ _ W Ha) as (c & H & Hid). exists c.
  split; [done|]. split; [done|].
  rewrite (GetTopics_wf _ _ _ _ Hr W H). cbn.
  destruct (findTopic a c (r (TopicQueryParameter s)) σ) as [[p t]|] eqn:Hf.
  - rewrite decide_True by (apply (findTopic_is_Some a); rewrite Hf; by eexists).
    destruct (t_Clients t !! c_id c) as [x|] eqn:Hx.
    + destruct (Unsub_post _ _ _ _ _ _ H Hf) as (σ' & c' & HU & H' & Hid' & Hf');
        [by eexists|].
      exists σ'. rewrite HU. cbn. split; [done|].
      unfold subscribers. rewrite (findTopic_load _ _ _ _ _ _ H' Hf'). cbn.
      by rewrite dom_delete_L, Hid.
    + rewrite (Unsub_not_subscribed _ _ _ _ _ _ H Hf Hx). cbn.
      exists σ. split; [done|].
      unfold subscribers. rewrite (findTopic_load _ _ _ _ _ _ H Hf). cbn. f_equal.
      apply not_elem_of_dom in Hx. rewrite Hid in Hx. set_solver.
  - rewrite decide_False; [done|].
    intros Hs. apply (findTopic_is_Some a) in Hs. rewrite Hf in Hs. by destruct Hs.
Qed.

Lemma Subscribe_responds_witness :
  range_ok range_forward ∧ wf hub_orders ∧
  ∃ c, heap hub_orders !! 0 = Some c ∧ c_id c = "c1" ∧
    match findTopic 0 c "orders" hub_orders with
    | None =>
        Subscribe range_forward defaultSettings request_c1_orders hub_orders =
          Return (jsonResponse StatusNotFound (errorBody "topic" "c1"), hub_orders)
    | Some (p, t) =>
        ∃ σ', Subscribe range_forward defaultSettings request_c1_orders hub_orders =
                Return (jsonResponse StatusOK okBody, σ') ∧
              Sub 0 "orders" hub_orders = Return (None, σ') ∧
              subscribers p "orders" σ' = Some ({["c1"]} ∪ dom (t_Clients t))
    end.
Proof.
  split; [exact range_forward_ok|]. split; [exact wf_hub_orders|].
  exact (Subscribe_responds range_forward defaultSettings request_c1_orders hub_orders
           range_forward_ok wf_hub_orders).
Defined.

Lemma Unsubscribe_responds_witness :
  range_ok range_forward ∧ wf hub_orders ∧
  ∃ c, heap hub_orders !! 0 = Some c ∧ c_id c = "c1" ∧
    match findTopic 0 c "orders" hub_orders with
    | None =>
        Unsubscribe range_forward defaultSettings request_c1_orders hub_orders =
          Return (jsonResponse StatusNotFound (errorBody "topic" "c1"), hub_orders)
    | Some (p, t) =>
        ∃ σ', Unsubscribe range_forward defaultSettings request_c1_orders hub_orders =
                Return (jsonResponse StatusOK okBody, σ') ∧
              subscribers p "orders" σ' = Some (dom (t_Clients t) ∖ {["c1"]})
    end.
Proof.
  split; [exact range_forward_ok|]. split; [exact wf_hub_orders|].
  exact (Unsubscribe_responds range_forward defaultSettings request_c1_orders hub_orders
           range_forward_ok wf_hub_orders).
Defined.

(** The handler answers 200 to a client that is not subscribed. *)
Example Unsubscribe_not_subscribed :
  Unsubscribe range_forward defaultSettings request_c1_orders hub_orders =
    Return ({| Header := [("Content-Type", "application/json")]; StatusCode := 200;
               Body := js "{'ok': true}" |}, hub_orders).
Proof. vm_compute. reflexivity. Qed.

(** The answer to an unknown topic names the client. *)
Example Subscribe_unknown_topic :
  Subscribe range_forward defaultSettings request_c1_orders hub_c1 =
    Return ({| Header := [("Content-Type", "application/json")]; StatusCode := 404;
               Body := js "{'ok': false, 'error': 'topic c1 does not exists'}" |}, hub_c1).
Proof. vm_compute. reflexivity. Qed.

(** ** The fanout of the handler, when the frames are generated *)

Lemma send_stream a c msg σ :
  heap σ !! a = Some c →
  ∃ σ', send a msg σ = Return σ' ∧
    ∀ b, streamOf b σ' = streamOf b σ ++ (if decide (a = b) then [msg] else []).
Proof.
  intros H. rewrite (send_live _ _ _ _ H). eexists. split; [done|].
  intros b. unfold streamOf. cbn. case_decide as Hb.
  - subst. rewrite list_lookup_insert_eq by by eapply lookup_lt_Some. by rewrite H.
  - rewrite list_lookup_insert_ne by done. by rewrite app_nil_r.
Qed.

Lemma fanout_streams t message frame (l : list (string * nat)) σ :
  (∀ b, generateUpdateData b t message = (frame, None)) →
  (∀ k b, (k, b) ∈ l → is_Some (heap σ !! b)) →
  ∃ σ', fanout t message l σ = Return (None, σ') ∧
    ∀ b, streamOf b σ' =
           streamOf b σ ++ replicate (length (filter (λ kb, kb.2 = b) l)) frame.
Proof.
  intros Hgen. revert σ. induction l as [|[k a] l IH]; intros σ Hlive.
  - exists σ. split; [done|]. intros b. cbn. by rewrite app_nil_r.
  - cbn [fanout]. rewrite Hgen.
    destruct (Hlive k a) as [c H]; [by left|].
    destruct (send_stream a c frame σ H) as (σ1 & Hs1 & Hq1). rewrite Hs1. cbn.
    destruct (IH σ1) as (σ' & -> & Hq).
    { intros k' b Hin. destruct (Hlive k' b) as [cb Hb]; [by right|].
      destruct (send_keeps _ _ _ _ Hs1 b cb Hb) as (cb' & Hb' & _). by eexists. }
    exists σ'. split; [done|]. intros b. rewrite Hq, Hq1, <- app_assoc. f_equal.
    by destruct (decide (a = b)).
Qed.

Lemma count_pointer (l : list (string * nat)) (id : string) (b : nat) :
  NoDup l.*1 → (∀ k, (k, b) ∈ l → k = id) →
  length (filter (λ kb : string * nat, kb.2 = b) l) =
    if decide ((id, b) ∈ l) then 1 else 0.
Proof.
  induction l as [|[k b'] l IH]; intros Hnd Hid.
  - by rewrite decide_False by apply not_elem_of_nil.
  - cbn in Hnd. apply NoDup_cons in Hnd as [Hk Hnd].
    rewrite filter_cons. cbn [snd].
    destruct (decide (b' = b)) as [->|Hne].
    + assert (k = id) as -> by (apply Hid; by left).
      cbn. rewrite IH; [|done|intros k' Hin; apply Hid; by right].
      rewrite decide_False.
      * by rewrite decide_True by by left.
      * intros Hin. apply Hk. apply list_elem_of_fmap. by exists (id, b).
    + rewrite IH; [|done|intros k' Hin; apply Hid; by right].
      destruct (decide ((id, b) ∈ l)) as [Hin|Hnin].
      * by rewrite decide_True by by right.
      * rewrite decide_False; [done|].
        intros Hin. apply elem_of_cons in Hin as [[= _ ->]|Hin]; done.
Qed.

(** Every frame received: the handler's [Pub] sends its frame once to
    every subscriber of the topic and nothing to any other client. *)
Lemma handler_Pub_streams (range : ranging) (name : string) (t : topic)
    (message : value) (frame : string) (σ : state) :
  range_ok range → wf σ → publicTopics σ !! name = Some t →
  (∀ b, generateUpdateData b t message = (frame, None)) →
  ∃ σ', sSEPubSubHandler_Pub range name message σ = Return (None, σ') ∧
    ∀ b c, heap σ !! b = Some c →
      streamOf b σ' =
        c_stream c ++ (if decide (t_Clients t !! c_id c = Some b) then [frame] else []).
Proof.
  intros Hr W Ht Hgen. pose proof W as (_ & _ & W3).
  unfold sSEPubSubHandler_Pub. rewrite Ht.
  destruct (fanout_streams t message frame (range _ (t_Clients t)) σ Hgen)
    as (σ' & HP & Hq).
  { intros k b Hin. apply (elem_of_range _ _ _ _ _ Hr) in Hin.
    destruct (W3 Shared name t k b Ht Hin) as [(c & H & _) _]. by eexists. }
  exists σ'. split; [done|]. intros b c H. rewrite Hq, (streamOf_live _ _ _ H). f_equal.
  rewrite (count_pointer _ (c_id c) b).
  - destruct (decide (t_Clients t !! c_id c = Some b)) as [Hs|Hs].
    + by rewrite decide_True by by apply (elem_of_range _ _ _ _ _ Hr).
    + rewrite decide_False; [done|]. by rewrite (elem_of_range _ _ _ _ _ Hr).
  - by apply range_NoDup.
  - intros k Hin. apply (elem_of_range _ _ _ _ _ Hr) in Hin.
    destruct (W3 Shared name t k b Ht Hin) as [(c' & H' & Hid) _]. congruence.
Qed.

Lemma wf_hub_pair : wf hub_pair.
Proof.
  set (σ1 := (NewClient "7b0e" "c1" (registerPublic "news" NewSSEPubSubHandler)).2).
  set (σ2 := (NewClient "41c2" "c2" σ1).2).
  assert (wf σ2) as W2 by apply wf_NewClient, wf_NewClient, wf_registerPublic, wf_initial.
  assert (∃ σ3 σ4, Sub 0 "news" σ2 = Return (None, σ3) ∧
            Sub 1 "news" σ3 = Return (None, σ4) ∧
            setStatus 1 Receving (setStatus 0 Receving σ4) = hub_pair)
    as (σ3 & σ4 & H3 & H4 & <-).
  { eexists _, _. repeat split; vm_compute; reflexivity. }
  apply wf_setStatus, wf_setStatus. apply (Sub_tame _ _ _ _ _ H4).
  by apply (Sub_tame _ _ _ _ _ H3).
Qed.

(** ** The life of a client *)

Lemma RemoveClient_live range id a c σ :
  clients σ !! id = Some a → heap σ !! a = Some c →
  ∃ σ', RemoveClient range id σ = Return (None, σ').
Proof.
  intros Ha H. unfold RemoveClient, getClient, unsubEach.
  rewrite Ha, (deref_live _ _ _ H). cbn.
  destruct (unsubEach_shrinks a (range _ (c_privateTopics c)) c σ H)
    as (σ1 & -> & Hsh1 & _). cbn.
  destruct (proj1 (proj2 (proj2 Hsh1)) c H) as (c1 & H1 & _).
  destruct (unsubEach_shrinks a (range _ (publicTopics σ1)) c1 σ1 H1)
    as (σ2 & -> & _ & _). cbn. by eexists.
Qed.

(** X10.  In a well-formed state [RemoveClient] of a registered id
    succeeds whatever the client is subscribed to, and takes the id, and no
    other, out of [s.clients]: [getClient] and a second [RemoveClient] of
    the id then fail with "does not exists".  The object of the client is
    left where it was, and [NewClient] of the same id afterwards makes a
    new object at a new address, waiting, with an empty stream and no
    private topic. *)
Theorem RemoveClient_lifecycle (range : ranging) (id : string) (a : nat) (σ : state) :
  wf σ → clients σ !! id = Some a →
  ∃ σ', RemoveClient range id σ = Return (None, σ') ∧
    clients σ' = delete id (clients σ) ∧
    getClient id σ' = (None, Some (ClientDoesNotExist id)) ∧
    RemoveClient range id σ' = Return (Some (ClientDoesNotExist id), σ') ∧
    keeps σ σ' ∧
    (id ≠ "" → ∀ uuid,
       (NewClient uuid id σ').1 = length (heap σ) ∧ a < length (heap σ) ∧
       heap (NewClient uuid id σ').2 !! length (heap σ) =
         Some {| c_id := id; c_stream := []; c_status := Waiting;
                 c_privateTopics := ∅ |}).
Proof.
  intros W Ha. destruct (wf_client _ _ _ W Ha) as (c & H & Hid).
  destruct (RemoveClient_live range _ _ _ _ Ha H) as (σ' & HR).
  destruct (RemoveClient_tame _ _ _ _ _ HR) as (σ2 & T & _ & Hh & _ & Hc).
  destruct (T a Ha) as ((K & _) & _ & Hl & _).
  assert (clients σ' !! id = None) as Hnone by (rewrite Hc; apply lookup_delete_eq).
  exists σ'. split; [done|]. split; [done|].
  split; [unfold getClient; by rewrite Hnone|].
  split; [by apply RemoveClient_missing|]. split.
  { intros b cb Hb. destruct (K b cb Hb) as (cb' & ? & ?). exists cb'. by rewrite Hh. }
  intros Hne uuid. unfold NewClient. rewrite decide_False by done. rewrite Hnone. cbn.
  rewrite Hh. split; [done|]. split; [by eapply lookup_lt_Some|].
  rewrite <- Hl, lookup_app_r by lia. by rewrite Nat.sub_diag.
Qed.

Lemma RemoveClient_lifecycle_witness :
  wf hub_news ∧ clients hub_news !! "c1" = Some 0 ∧
  ∃ σ', RemoveClient range_forward "c1" hub_news = Return (None, σ') ∧
    clients σ' = delete "c1" (clients hub_news) ∧
    getClient "c1" σ' = (None, Some (ClientDoesNotExist "c1")) ∧
    RemoveClient range_forward "c1" σ' = Return (Some (ClientDoesNotExist "c1"), σ') ∧
    keeps hub_news σ' ∧
    ("c1" ≠ "" → ∀ uuid,
       (NewClient uuid "c1" σ').1 = length (heap hub_news) ∧
       0 < length (heap hub_news) ∧
       heap (NewClient uuid "c1" σ').2 !! length (heap hub_news) =
         Some {| c_id := "c1"; c_stream := []; c_status := Waiting;
                 c_privateTopics := ∅ |}).
Proof.
  split; [exact wf_hub_news|]. split; [reflexivity|].
  exact (RemoveClient_lifecycle range_forward "c1" 0 hub_news wf_hub_news eq_refl).
Defined.

Lemma RemoveClient_cascade_witness :
  range_ok range_forward ∧ clients hub_news !! "c1" = Some 0 ∧
  heap hub_news !! 0 = Some (c1 Waiting [] ∅) ∧
  ∃ σ', RemoveClient range_forward "c1" hub_news = Return (None, σ') ∧
    clients σ' = delete "c1" (clients hub_news) ∧
    (∀ b, b ≠ 0 → heap σ' !! b = heap hub_news !! b) ∧
    (∀ n t, loadTopic Shared n σ' = Some t → ("c1" : string) ∉ dom (t_Clients t)) ∧
    (∀ n t, loadTopic (PrivateOf 0) n σ' = Some t → ("c1" : string) ∉ dom (t_Clients t)).
Proof.
  split; [exact range_forward_ok|]. split; [reflexivity|]. split; [reflexivity|].
  apply (RemoveClient_cascade range_forward "c1" 0 (c1 Waiting [] ∅) hub_news
           range_forward_ok eq_refl eq_refl eq_refl).
  - intros k t Ht. by apply (wf_names_private _ 0 _ wf_hub_news eq_refl).
  - apply (wf_names_public _ wf_hub_news).
  - intros k [t Ht]. cbn in Ht. by rewrite lookup_empty in Ht.
Defined.

(** ** What the snapshot holds *)

Lemma forEach_cons {A S : Type} (g : S → A → run S) (x : A) (l : list A) (s : S) :
  forEach g (x :: l) s = g s x ≫= forEach g l.
Proof. reflexivity. Qed.

Lemma setSys_step i ty t fd sys e :
  Sys fd = Some sys → sys !! i = Some e →
  setSys i ty t fd =
    Return {| Sys := Some (<[i := {| sys_Type := ty;
                                    sys_List := append (sys_List e) t |}]> sys);
              Updates := Updates fd |}.
Proof. intros Hs He. unfold setSys. by rewrite Hs, He. Qed.

Lemma forEach_setSys_cons i ty (f : topic → eventDataSysList) (x : string * topic)
    (l : list (string * topic)) fd sys e :
  Sys fd = Some sys → sys !! i = Some e →
  forEach (λ fd kt, setSys i ty (f kt.2) fd) (x :: l) fd =
    Return {| Sys := Some (<[i := {| sys_Type := ty;
                                    sys_List := Some (default [] (sys_List e) ++
                                                      (f ∘ snd <$> x :: l)) |}]> sys);
              Updates := Updates fd |}.
Proof.
  revert x fd sys e. induction l as [|y l IH]; intros x fd sys e Hs He.
  - cbn. unfold setSys. by rewrite Hs, He.
  - rewrite forEach_cons, (setSys_step _ _ _ _ _ _ Hs He). cbn [mbind run_bind].
    assert (i < length sys) as Hlt by by eapply lookup_lt_Some.
    erewrite IH; [|done|by apply list_lookup_insert_eq].
    cbn. rewrite list_insert_insert_eq. by rewrite <- app_assoc.
Qed.

Lemma range_nil_size range A (m : gmap string A) :
  range_ok range → range A m = [] ↔ size m = 0.
Proof.
  intros Hr. rewrite <- (range_length _ _ m Hr). by destruct (range A m).
Qed.

Lemma generateInit_initData range a c σ :
  range_ok range → heap σ !! a = Some c →
  generateInit range a σ =
    Return (marshalled
              (initData
                 (range _ (topicsOf range (publicTopics σ) (c_privateTopics c)))
                 (range _ (subscribedOf range (c_id c)
                             (topicsOf range (publicTopics σ) (c_privateTopics c)))))).
Proof.
  intros Hr H. unfold generateInit.
  rewrite (GetTopics_live _ _ _ _ H), (GetSubscribedTopics_live _ _ _ _ H). cbn.
  set (topics := topicsOf range (publicTopics σ) (c_privateTopics c)).
  set (subtopics := subscribedOf range (c_id c) topics).
  pose proof (range_length range _ topics Hr) as Ht.
  pose proof (range_length range _ subtopics Hr) as Hs.
  pose proof (subscribedOf_size range (c_id c) topics Hr) as Hsub. fold subtopics in Hsub.
  destruct (range _ topics) as [|x l] eqn:Hl;
    destruct (range _ subtopics) as [|y l'] eqn:Hl'; cbn in Ht, Hs.
  - rewrite !decide_False by lia. done.
  - exfalso. rewrite <- Hs, <- Ht in Hsub. lia.
  - rewrite (decide_False (P := 0 < size subtopics)),
      (decide_True (P := 0 < size topics)) by lia.
    erewrite forEach_setSys_cons; [|done..]. done.
  - rewrite !decide_True by lia.
    erewrite forEach_setSys_cons; [|done..]. cbn [mbind run_bind].
    erewrite (forEach_setSys_cons 1); [|done..]. done.
Qed.

Lemma sendNewTopicsList_initData range a c σ :
  range_ok range → heap σ !! a = Some c →
  sendNewTopicsList range a σ =
    Return (None,
            delivered a c
              (marshalled
                 (initData (range _ (topicsOf range (publicTopics σ) (c_privateTopics c)))
                           [])).1 σ).
Proof.
  intros Hr H.
  destruct (sendNewTopicsList_live range _ _ _ H) as (fd & j & Hfd & Hj & ->).
  do 3 f_equal.
  set (topics := topicsOf range (publicTopics σ) (c_privateTopics c)) in *.
  unfold topicsListData in Hfd.
  pose proof (range_length range _ topics Hr) as Ht.
  destruct (range _ topics) as [|x l] eqn:Hl; cbn in Ht.
  - rewrite decide_False in Hfd by lia. injection Hfd as <-.
    unfold initData. cbn. by rewrite Hj.
  - rewrite decide_True in Hfd by lia.
    erewrite forEach_setSys_cons in Hfd; [|done..]. injection Hfd as <-.
    unfold initData. cbn. cbn in Hj.
    change (list_fmap _ _ (topicsEntry ∘ snd) l) with (topicsEntry ∘ snd <$> l) in Hj.
    by rewrite Hj.
Qed.

(** X11.  For a client that exists, [generateInit] returns, without error,
    the marshalled envelope whose [sys] holds one entry "topics" listing
    every topic of [GetTopics] once, by name and type, and after it one
    entry "subscribed" listing every topic of [GetSubscribedTopics] once, by
    name; an entry whose list would be empty is left out, and [updates] is
    null.  [sendNewTopicsList] sends the same envelope without the entry
    "subscribed". *)
Theorem generateInit_contents (range : ranging) (a : nat) (c : client) (σ : state) :
  range_ok range → heap σ !! a = Some c →
  ∃ topics subtopics ts ss jsonData,
    GetTopics range a σ = Return topics ∧
    GetSubscribedTopics range a σ = Return subtopics ∧
    ts ≡ₚ map_to_list topics ∧ ss ≡ₚ map_to_list subtopics ∧
    Marshal (initData ts ss) = Some jsonData ∧
    generateInit range a σ = Return (jsonData, None) ∧
    ∃ jsonList,
      Marshal (initData ts []) = Some jsonList ∧
      sendNewTopicsList range a σ = Return (None, delivered a c jsonList σ).
Proof.
  intros Hr H.
  set (topics := topicsOf range (publicTopics σ) (c_privateTopics c)).
  set (subtopics := subscribedOf range (c_id c) topics).
  destruct (Marshal_sys_total (initData (range _ topics) (range _ subtopics)) eq_refl)
    as [j Hj].
  destruct (Marshal_sys_total (initData (range _ topics) []) eq_refl) as [j' Hj'].
  assert (∀ fd j0, marshalled fd = (j0, None) → Marshal fd = Some j0) as HM.
  { intros fd j0. unfold marshalled. destruct (Marshal fd); by intros [= <-]. }
  exists topics, subtopics, (range _ topics), (range _ subtopics), j.
  split; [by apply GetTopics_live|]. split; [by apply GetSubscribedTopics_live|].
  split; [apply Hr|]. split; [apply Hr|]. split; [by apply HM|].
  split.
  { rewrite (generateInit_initData _ _ _ _ Hr H).
    change (Return (marshalled (initData (range _ topics) (range _ subtopics))) =
            Return (j, None)).
    by rewrite Hj. }
  exists j'. split; [by apply HM|].
  rewrite (sendNewTopicsList_initData _ _ _ _ Hr H).
  change (Return (@None error,
                  delivered a c (marshalled (initData (range _ topics) [])).1 σ) =
          Return (None, delivered a c j' σ)).
  by rewrite Hj'.
Qed.

Lemma generateInit_contents_witness :
  range_ok range_backward ∧
  heap hub_two !! 0 =
    Some (c1 Receving [] (<["alerts" := alerts]> {["orders" := orders ∅]})) ∧
  ∃ topics subtopics ts ss jsonData,
    GetTopics range_backward 0 hub_two = Return topics ∧
    GetSubscribedTopics range_backward 0 hub_two = Return subtopics ∧
    ts ≡ₚ map_to_list topics ∧ ss ≡ₚ map_to_list subtopics ∧
    Marshal (initData ts ss) = Some jsonData ∧
    generateInit range_backward 0 hub_two = Return (jsonData, None) ∧
    ∃ jsonList,
      Marshal (initData ts []) = Some jsonList ∧
      sendNewTopicsList range_backward 0 hub_two =
        Return (None,
                delivered 0 (c1 Receving [] (<["alerts" := alerts]> {["orders" := orders ∅]}))
                          jsonList hub_two).
Proof.
  split; [exact range_backward_ok|]. split; [reflexivity|].
  exact (generateInit_contents range_backward 0 _ hub_two range_backward_ok eq_refl).
Defined.

(** ** The encoder, again *)

Lemma sendNewTopicsList_small range a c σ :
  range_ok range → heap σ !! a = Some c →
  size (publicTopics σ) + size (c_privateTopics c) ≤ 1 →
  sendNewTopicsList range a σ = sendNewTopicsList range_forward a σ.
Proof.
  intros Hr H Hsize. unfold sendNewTopicsList.
  rewrite !(GetTopics_live _ _ _ _ H). cbn [mbind run_bind].
  assert (topicsOf range (publicTopics σ) (c_privateTopics c) =
          topicsOf range_forward (publicTopics σ) (c_privateTopics c)) as ->.
  { unfold topicsOf. by rewrite !(range_small range) by (done || lia). }
  set (topics := topicsOf range_forward (publicTopics σ) (c_privateTopics c)).
  assert (size topics ≤ 1) as Ht.
  { etrans; [apply (topicsOf_size _ _ _ range_forward_ok)|done]. }
  unfold topicsListData. by rewrite (range_small range) by done.
Qed.

(** A frame without updates on the wire. *)
Lemma Marshal_updates_null (fd : eventData) :
  Updates fd = None →
  ∃ sys, marshalled fd = (js "{'sys':" +:+ sys +:+ js ",'updates':null}", None).
Proof.
  intros Hu. unfold marshalled, Marshal. rewrite Hu.
  assert (is_Some (marshal_slice marshal_sys (Sys fd))) as [sys ->].
  { destruct (Sys fd) as [l|]; cbn; [|by eexists].
    apply fmap_is_Some, mapM_is_Some, Forall_forall. intros e _.
    apply marshal_sys_total. }
  exists sys. cbn [mbind option_bind marshal_slice]. f_equal.
  cbv -[String.append]. rewrite ?append_assoc. cbv. reflexivity.
Qed.

(** C8, amended.  The encoder reads the client's id and private topics,
    the public topics, and the topic and the data it is given, and nothing
    else: two clients, in two states, that agree on these are sent the same
    frames by [generateInit], [sendNewTopicsList] and [sendUpdate], for one
    order of ranging over the maps.  The order shows in the frame as soon as
    there are two topics; with at most one topic, every order gives the same
    frame, of [generateInit] and of [sendNewTopicsList] ([sendUpdate] ranges
    over no map).  A client that sees no topic is sent the empty array as
    [sys]; the section a frame does not use is written [null]: [updates] in
    the frames of [generateInit] and [sendNewTopicsList], [sys] in the frame
    of [sendUpdate]. *)
Theorem encoder_pure (range : ranging) (a a' : nat) (c c' : client) (σ σ' : state) :
  heap σ !! a = Some c → heap σ' !! a' = Some c' →
  c_id c = c_id c' → c_privateTopics c = c_privateTopics c' →
  publicTopics σ = publicTopics σ' →
  generateInit range a σ = generateInit range a' σ' ∧
  (∃ jsonData,
     sendNewTopicsList range a σ = Return (None, delivered a c jsonData σ) ∧
     sendNewTopicsList range a' σ' = Return (None, delivered a' c' jsonData σ')) ∧
  (∀ to data,
     match marshal data with
     | Some d =>
         sendUpdate a to data σ =
           Return (None, delivered a c (updateFrame (t_Name to) d) σ) ∧
         sendUpdate a' to data σ' =
           Return (None, delivered a' c' (updateFrame (t_Name to) d) σ')
     | None =>
         sendUpdate a to data σ = Return (Some MarshalError, σ) ∧
         sendUpdate a' to data σ' = Return (Some MarshalError, σ')
     end) ∧
  (range_ok range →
   size (publicTopics σ) + size (c_privateTopics c) ≤ 1 →
   ∀ range', range_ok range' →
     generateInit range' a σ = generateInit range a σ ∧
     sendNewTopicsList range' a σ = sendNewTopicsList range a σ) ∧
  (range_ok range → publicTopics σ = ∅ → c_privateTopics c = ∅ →
   generateInit range a σ = Return (js "{'sys':[],'updates':null}", None)) ∧
  (range_ok range →
   ∃ sys, generateInit range a σ =
            Return (js "{'sys':" +:+ sys +:+ js ",'updates':null}", None)) ∧
  (∃ sys, sendNewTopicsList range a σ =
            Return (None,
                    delivered a c (js "{'sys':" +:+ sys +:+ js ",'updates':null}") σ)) ∧
  (∀ name d, ∃ upd, updateFrame name d = js "{'sys':null,'updates':" +:+ upd +:+ "}").
Proof.
  intros H H' Hid Hpriv Hpub.
  split; [|split; [|split; [|split; [|split; [|split; [|split]]]]]].
  - unfold generateInit.
    rewrite (GetTopics_live _ _ _ _ H), (GetTopics_live _ _ _ _ H').
    rewrite (GetSubscribedTopics_live _ _ _ _ H), (GetSubscribedTopics_live _ _ _ _ H').
    by rewrite Hid, Hpriv, Hpub.
  - destruct (sendNewTopicsList_live range _ _ _ H) as (fd & j & Hfd & Hj & Hrun).
    destruct (sendNewTopicsList_live range _ _ _ H') as (fd' & j' & Hfd' & Hj' & Hrun').
    rewrite <- Hpriv, <- Hpub, Hfd in Hfd'. injection Hfd' as <-.
    rewrite Hj in Hj'. injection Hj' as <-. by exists j.
  - intros to data. destruct (marshal data) as [d|] eqn:Hd.
    + by rewrite (sendUpdate_live _ _ _ _ _ _ H Hd), (sendUpdate_live _ _ _ _ _ _ H' Hd).
    + by rewrite !(sendUpdate_error _ _ _ _ Hd).
  - intros Hr Hsize range' Hr'. split.
    + rewrite (generateInit_small _ _ _ _ Hr H Hsize).
      by rewrite (generateInit_small _ _ _ _ Hr' H Hsize).
    + rewrite (sendNewTopicsList_small _ _ _ _ Hr H Hsize).
      by rewrite (sendNewTopicsList_small _ _ _ _ Hr' H Hsize).
  - intros Hr Hpub0 Hpriv0.
    rewrite (generateInit_small _ _ _ _ Hr H)
      by (rewrite Hpub0, Hpriv0, !map_size_empty; lia).
    unfold generateInit.
    rewrite (GetTopics_live _ _ _ _ H), (GetSubscribedTopics_live _ _ _ _ H).
    rewrite Hpub0, Hpriv0. reflexivity.
  - intros Hr. rewrite (generateInit_initData _ _ _ _ Hr H).
    match goal with
    | |- context [marshalled ?fd] =>
        destruct (Marshal_updates_null fd eq_refl) as [sys ->]
    end.
    by exists sys.
  - destruct (sendNewTopicsList_live range _ _ _ H) as (fd & j & Hfd & Hj & Hrun).
    destruct (topicsListData_total range
                (topicsOf range (publicTopics σ) (c_privateTopics c)))
      as (fd0 & Hfd0 & Hu).
    rewrite Hfd in Hfd0. injection Hfd0 as <-.
    destruct (Marshal_updates_null fd Hu) as [sys Hsys].
    rewrite Hj in Hsys. injection Hsys as ->. by exists sys.
  - intros name d.
    exists (js "[{'topic':" +:+ quote name +:+ js ",'data':" +:+ d +:+ js "}]").
    unfold updateFrame. cbv -[String.append quote_bytes]. rewrite ?append_assoc.
    cbv -[quote_bytes]. reflexivity.
Qed.

Lemma encoder_pure_witness :
  heap hub_orders !! 0 = Some (c1 Receving [ordersListed] {["orders" := orders ∅]}) ∧
  heap (hub_of (c1 Waiting [] {["orders" := orders ∅]}) ∅) !! 0 =
    Some (c1 Waiting [] {["orders" := orders ∅]}) ∧
  generateInit range_forward 0 hub_orders =
    generateInit range_forward 0 (hub_of (c1 Waiting [] {["orders" := orders ∅]}) ∅) ∧
  generateInit range_backward 0 hub_orders = generateInit range_forward 0 hub_orders ∧
  sendNewTopicsList range_backward 0 hub_orders =
    sendNewTopicsList range_forward 0 hub_orders ∧
  (∃ sys, generateInit range_forward 0 hub_orders =
            Return (js "{'sys':" +:+ sys +:+ js ",'updates':null}", None)).
Proof.
  split; [reflexivity|]. split; [reflexivity|].
  pose proof (encoder_pure range_forward 0 0
                (c1 Receving [ordersListed] {["orders" := orders ∅]})
                (c1 Waiting [] {["orders" := orders ∅]})
                hub_orders (hub_of (c1 Waiting [] {["orders" := orders ∅]}) ∅)
                eq_refl eq_refl eq_refl eq_refl eq_refl)
    as (Hinit & _ & _ & Hsmall & _ & Hnull & _).
  split; [exact Hinit|].
  assert (size (publicTopics hub_orders) +
          size (c_privateTopics (c1 Receving [ordersListed] {["orders" := orders ∅]})) ≤ 1)
    as Hsize by (vm_compute; lia).
  destruct (Hsmall range_forward_ok Hsize range_backward range_backward_ok) as [Hi Hl].
  split; [exact Hi|]. split; [exact Hl|]. exact (Hnull range_forward_ok).
Defined.

(** C8 as stated fails twice.  A client that sees no topic has nothing to
    report and is sent the empty array as [sys].  With two topics, two runs
    of [generateInit] on one state list them in two orders when the runtime
    ranges over the map in two orders. *)
Lemma encoder_not_minimal_nor_ordered :
  generateInit range_forward 0 hub_c1 = Return (js "{'sys':[],'updates':null}", None) ∧
  range_ok range_forward ∧ range_ok range_backward ∧
  generateInit range_forward 0 hub_two =
    Return (js "{'sys':[{'type':'topics','list':[{'name':'orders','type':'private'},{'name':'alerts','type':'private'}]}],'updates':null}",
            None) ∧
  generateInit range_backward 0 hub_two =
    Return (js "{'sys':[{'type':'topics','list':[{'name':'alerts','type':'private'},{'name':'orders','type':'private'}]}],'updates':null}",
            None) ∧
  generateInit range_forward 0 hub_two ≠ generateInit range_backward 0 hub_two.
Proof.
  split; [vm_compute; reflexivity|].
  split; [exact range_forward_ok|]. split; [exact range_backward_ok|].
  split; [vm_compute; reflexivity|]. split; [vm_compute; reflexivity|].
  vm_compute. intros H. discriminate H.
Qed.

(** ** Private topics and the names of public ones *)

(** X12.  [NewPrivateTopic] under a name the client has no private topic
    of succeeds, also when a public topic has that name.  The name then
    resolves, for this client, to the new private topic, which has no
    subscriber, while the public topics are as they were: a second
    [NewPrivateTopic] under the name fails with "already exists", and an
    [Unsub] of the name fails with "not subscribed" even when the client is
    a subscriber of the public topic of that name. *)
Theorem NewPrivateTopic_shadows (range : ranging) (a : nat) (c : client) (name : string)
    (σ : state) :
  heap σ !! a = Some c → c_privateTopics c !! name = None →
  ∃ σ' c',
    NewPrivateTopic range a name σ = Return (None, σ') ∧
    heap σ' !! a = Some c' ∧ c_id c' = c_id c ∧
    c_privateTopics c' =
      <[name := {| t_Name := name; t_Type := Private; t_Clients := ∅ |}]>
        (c_privateTopics c) ∧
    publicTopics σ' = publicTopics σ ∧
    findTopic a c' name σ' =
      Some (PrivateOf a, {| t_Name := name; t_Type := Private; t_Clients := ∅ |}) ∧
    NewPrivateTopic range a name σ' = Return (Some (TopicAlreadyExists name), σ') ∧
    Unsub a name σ' = Return (Some (ClientNotSubscribed (c_id c) name), σ').
Proof.
  intros H Hn. destruct (NewPrivateTopic_live range _ _ _ _ H Hn) as (j & HNew).
  set (top := {| t_Name := name; t_Type := Private; t_Clients := ∅ |}) in *.
  set (c0 := set_privateTopics (<[name := top]> (c_privateTopics c)) c) in *.
  set (σ0 := set_heap (<[a := c0]> (heap σ)) σ) in *.
  assert (heap σ0 !! a = Some c0) as H0.
  { cbn. apply list_lookup_insert_eq. by eapply lookup_lt_Some. }
  destruct (delivered_live _ _ j _ H0) as (c' & H' & Hid' & _ & Hpriv' & _).
  assert (findTopic a c' name (delivered a c0 j σ0) = Some (PrivateOf a, top)) as Hf.
  { unfold findTopic. rewrite Hpriv'. cbn. by rewrite lookup_insert_eq. }
  exists (delivered a c0 j σ0), c'.
  split; [exact HNew|]. split; [exact H'|]. split; [by rewrite Hid'|].
  split; [by rewrite Hpriv'|]. split; [by rewrite publicTopics_delivered|].
  split; [exact Hf|]. split.
  - apply (NewPrivateTopic_exists _ _ c'); [done|].
    rewrite Hpriv'. cbn. rewrite lookup_insert_eq. by eexists.
  - change (c_id c) with (c_id c0). rewrite <- Hid'.
    by apply (Unsub_not_subscribed _ _ _ _ _ _ H' Hf).
Qed.

Lemma NewPrivateTopic_shadows_witness :
  publicTopics hub_news !! "news" = Some (news {["c1" := 0]}) ∧
  ∃ σ' c',
    NewPrivateTopic range_forward 0 "news" hub_news = Return (None, σ') ∧
    heap σ' !! 0 = Some c' ∧ c_id c' = "c1" ∧
    c_privateTopics c' =
      <["news" := {| t_Name := "news"; t_Type := Private; t_Clients := ∅ |}]> ∅ ∧
    publicTopics σ' = publicTopics hub_news ∧
    findTopic 0 c' "news" σ' =
      Some (PrivateOf 0, {| t_Name := "news"; t_Type := Private; t_Clients := ∅ |}) ∧
    NewPrivateTopic range_forward 0 "news" σ' =
      Return (Some (TopicAlreadyExists "news"), σ') ∧
    Unsub 0 "news" σ' = Return (Some (ClientNotSubscribed "c1" "news"), σ').
Proof.
  split; [reflexivity|].
  exact (NewPrivateTopic_shadows range_forward 0 (c1 Waiting [] ∅) "news" hub_news
           eq_refl eq_refl).
Defined.

(** ** A new client subscribes *)

(** X13.  [AddClient] for an id that is not registered (the id of the query
    or, when that is empty, the generated one), followed by [Subscribe] of
    that id to a public topic, in a well-formed state: both answer 200 with
    the same body, which does not tell the id; the client is then among the
    subscribers of the topic, and no frame has been sent to it, the notice
    "subscribed" included, as a new client is not receiving. *)
Theorem AddClient_then_Subscribe (range : ranging) (s : settings) (uuid : string)
    (r r' : request) (t : topic) (σ : state) :
  let id := if decide (r (ClientIDQueryParameter s) = "") then uuid
            else r (ClientIDQueryParameter s) in
  range_ok range → wf σ → clients σ !! id = None →
  r' (ClientIDQueryParameter s) = id →
  publicTopics σ !! r' (TopicQueryParameter s) = Some t →
  ∃ σ1 σ2,
    AddClient s uuid r σ = (jsonResponse StatusOK okBody, σ1) ∧
    clients σ1 !! id = Some (length (heap σ)) ∧
    Subscribe range s r' σ1 = Return (jsonResponse StatusOK okBody, σ2) ∧
    subscribers Shared (r' (TopicQueryParameter s)) σ2 =
      Some ({[id]} ∪ dom (t_Clients t)) ∧
    streamOf (length (heap σ)) σ2 = [] ∧
    wf σ2.
Proof.
  intros id Hr W Hnew Hid Ht.
  pose proof (wf_NewClient uuid (r (ClientIDQueryParameter s)) σ W) as W1.
  unfold AddClient. revert W1. unfold NewClient. fold id. rewrite Hnew. cbn [snd].
  set (cl := {| c_id := id; c_stream := []; c_status := Waiting; c_privateTopics := ∅ |}).
  set (a := length (heap σ)).
  set (σ1 := {| heap := heap σ ++ [cl]; clients := <[id := a]> (clients σ);
                publicTopics := publicTopics σ |}).
  intros W1.
  assert (heap σ1 !! a = Some cl) as H1.
  { cbn. rewrite lookup_app_r by (unfold a; lia). unfold a. by rewrite Nat.sub_diag. }
  assert (clients σ1 !! id = Some a) as Ha by (cbn; by rewrite lookup_insert_eq).
  assert (findTopic a cl (r' (TopicQueryParameter s)) σ1 = Some (Shared, t)) as Hf.
  { unfold findTopic. cbn. by rewrite lookup_empty, Ht. }
  destruct (Sub_live _ _ _ _ _ _ H1 Hf) as (c1 & Hc1 & Hid1 & Hst1 & Hq1 & HSub).
  assert (delivered a c1 (noticeFrame "subscribed" (t_Name t))
            (storeClients Shared (r' (TopicQueryParameter s))
               (<[c_id cl := a]> (t_Clients t)) σ1) =
          storeClients Shared (r' (TopicQueryParameter s))
               (<[c_id cl := a]> (t_Clients t)) σ1) as Hd.
  { unfold delivered. by rewrite Hst1. }
  rewrite Hd in HSub.
  exists σ1, (storeClients Shared (r' (TopicQueryParameter s))
                (<[c_id cl := a]> (t_Clients t)) σ1).
  split; [done|]. split; [exact Ha|]. split.
  { assert (is_Some ((c_privateTopics cl ∪ publicTopics σ1) !!
                       r' (TopicQueryParameter s))) as Hin
      by (apply (findTopic_is_Some a); rewrite Hf; by eexists).
    unfold Subscribe. rewrite Hid, Ha. rewrite (GetTopics_wf _ _ _ _ Hr W1 H1).
    cbn [mbind run_bind]. rewrite decide_True by exact Hin.
    by rewrite HSub. }
  split.
  { unfold subscribers. rewrite loadTopic_storeClients, decide_True by done.
    cbn. rewrite Ht. cbn. by rewrite dom_insert_L. }
  split; [by rewrite (streamOf_live _ _ _ Hc1), Hq1|].
  by apply (Sub_tame a (r' (TopicQueryParameter s)) σ1 None _ HSub).
Qed.

Lemma AddClient_then_Subscribe_witness :
  range_ok range_forward ∧ wf hub_news ∧ clients hub_news !! "c2" = None ∧
  ∃ σ1 σ2,
    AddClient defaultSettings "6ba7b810" request_c2_news hub_news =
      (jsonResponse StatusOK okBody, σ1) ∧
    clients σ1 !! "c2" = Some 1 ∧
    Subscribe range_forward defaultSettings request_c2_news σ1 =
      Return (jsonResponse StatusOK okBody, σ2) ∧
    subscribers Shared "news" σ2 = Some ({["c2"]} ∪ dom (t_Clients (news {["c1" := 0]}))) ∧
    streamOf 1 σ2 = [] ∧
    wf σ2.
Proof.
  split; [exact range_forward_ok|]. split; [exact wf_hub_news|]. split; [reflexivity|].
  exact (AddClient_then_Subscribe range_forward defaultSettings "6ba7b810"
           request_c2_news request_c2_news (news {["c1" := 0]}) hub_news
           range_forward_ok wf_hub_news eq_refl eq_refl eq_refl).
Defined.

(** ** Failures *)

(** X14.  A call of a client or of the hub that returns an error has
    changed nothing and has sent nothing: the state it leaves is the state
    it found.  The errors are: "already exists" for [NewPrivateTopic];
    "does not exists" for [Sub]; the same or "not subscribed" for [Unsub];
    "not receving", "does not exists" or the error of the encoder, for data
    it cannot encode, for [Pub]; "does not exists" for [RemoveClient]. *)
Theorem failure_changes_nothing (range : ranging) (k : call) (σ σ' : state) (err : error) :
  exec range k σ = Return (Some err, σ') →
  σ' = σ ∧
  match k with
  | CallNewPrivateTopic a name => err = TopicAlreadyExists name
  | CallSub a name => err = TopicDoesNotExist name
  | CallUnsub a name =>
      err = TopicDoesNotExist name ∨
      ∃ c, heap σ !! a = Some c ∧ err = ClientNotSubscribed (c_id c) name
  | CallPub a to message =>
      ∃ c, heap σ !! a = Some c ∧
        (err = ClientNotReceiving (c_id c) ∧ c_status c = Waiting ∨
         err = TopicDoesNotExist to ∧ c_privateTopics c !! to = None ∨
         err = MarshalError ∧ json.marshal message = None)
  | CallRemoveClient id => err = ClientDoesNotExist id ∧ clients σ !! id = None
  end.
Proof.
  destruct k as [a name|a name|a name|a name message|name]; cbn [exec].
  - intros HNew. destruct (heap σ !! a) as [c|] eqn:H;
      [|unfold NewPrivateTopic, deref in HNew; by rewrite H in HNew].
    destruct (c_privateTopics c !! name) as [t|] eqn:Hn.
    + rewrite (NewPrivateTopic_exists _ _ _ _ _ H) in HNew by by eexists.
      by injection HNew as <- <-.
    + destruct (NewPrivateTopic_live range _ _ _ _ H Hn) as (j & HNew').
      rewrite HNew' in HNew. discriminate HNew.
  - intros HSub. destruct (heap σ !! a) as [c|] eqn:H;
      [|unfold Sub, deref in HSub; by rewrite H in HSub].
    destruct (findTopic a c name σ) as [[p t]|] eqn:Hf.
    + destruct (Sub_live _ _ _ _ _ _ H Hf) as (c1 & _ & _ & _ & _ & HSub').
      rewrite HSub' in HSub. discriminate HSub.
    + rewrite (Sub_missing _ _ _ _ H Hf) in HSub. by injection HSub as <- <-.
  - intros HU. destruct (heap σ !! a) as [c|] eqn:H;
      [|unfold Unsub, deref in HU; by rewrite H in HU].
    destruct (findTopic a c name σ) as [[p t]|] eqn:Hf.
    + destruct (t_Clients t !! c_id c) as [x|] eqn:Hx.
      * destruct (Unsub_live _ _ _ _ _ _ H Hf) as (c1 & _ & _ & _ & _ & HU');
          [by eexists|].
        rewrite HU' in HU. discriminate HU.
      * rewrite (Unsub_not_subscribed _ _ _ _ _ _ H Hf Hx) in HU.
        injection HU as <- <-. split; [done|]. right. by exists c.
    + rewrite (Unsub_missing _ _ _ _ H Hf) in HU. injection HU as <- <-.
      split; [done|]. by left.
  - intros HPub. destruct (heap σ !! a) as [c|] eqn:H;
      [|unfold Pub, deref in HPub; by rewrite H in HPub].
    unfold Pub in HPub. rewrite (deref_live _ _ _ H) in HPub. cbn in HPub.
    destruct (decide (c_status c = Waiting)) as [Hs|Hs].
    + injection HPub as <- <-. split; [done|]. exists c. split; [done|]. by left.
    + destruct (c_privateTopics c !! name) as [t|] eqn:Ht.
      * destruct (json.marshal message) as [d|] eqn:Hd.
        -- rewrite (sendUpdate_live _ _ _ _ _ _ H Hd) in HPub. discriminate HPub.
        -- rewrite (sendUpdate_error _ _ _ _ Hd) in HPub. injection HPub as <- <-.
           split; [done|]. exists c. split; [done|]. right. by right.
      * injection HPub as <- <-. split; [done|]. exists c. split; [done|].
        right. by left.
  - intros HR. destruct (clients σ !! name) as [b|] eqn:Hb.
    + destruct (heap σ !! b) as [c|] eqn:H.
      * destruct (RemoveClient_live range _ _ _ _ Hb H) as (σ1 & HR').
        rewrite HR' in HR. discriminate HR.
      * unfold RemoveClient, getClient, deref in HR. rewrite Hb in HR.
        by rewrite H in HR.
    + rewrite (proj1 (RemoveClient_missing range _ _ Hb)) in HR.
      by injection HR as <- <-.
Qed.

Lemma failure_changes_nothing_witness :
  exec range_forward (CallUnsub 0 "news") hub_c1 =
    Return (Some (TopicDoesNotExist "news"), hub_c1) ∧
  hub_c1 = hub_c1 ∧
  (TopicDoesNotExist "news" = TopicDoesNotExist "news" ∨
   ∃ c, heap hub_c1 !! 0 = Some c ∧
        TopicDoesNotExist "news" = ClientNotSubscribed (c_id c) "news").
Proof.
  split; [reflexivity|].
  exact (failure_changes_nothing range_forward (CallUnsub 0 "news") hub_c1 hub_c1
           (TopicDoesNotExist "news") eq_refl).
Defined.

(** ** The lock of a client and the wait of a send *)

Lemma Lock_free a (h : gset nat) σ :
  a ∉ h → locking.Lock a h σ = locking.Done () ({[a]} ∪ h) σ.
Proof. intros Ha. unfold locking.Lock. by rewrite decide_False. Qed.

Lemma Lock_held a (h : gset nat) σ : a ∈ h → locking.Lock a h σ = locking.Blocks a.
Proof. intros Ha. unfold locking.Lock. by rewrite decide_True. Qed.

Lemma Unlock_locked a (h : gset nat) σ :
  a ∉ h → locking.Unlock a ({[a]} ∪ h) σ = locking.Done () h σ.
Proof.
  intros Ha. unfold locking.Unlock. rewrite decide_True by set_solver.
  f_equal. set_solver.
Qed.

Lemma task_bind_eq {A B : Type} (m : locking.task A) (f : A → locking.task B) h σ :
  (m ≫= f) h σ =
    match m h σ with
    | locking.Done x h' σ' => f x h' σ'
    | locking.Panics p => locking.Panics p
    | locking.Blocks a => locking.Blocks a
    | locking.Waits a h' σ' => locking.Waits a h' σ'
    | locking.Fatal a => locking.Fatal a
    end.
Proof. reflexivity. Qed.

Lemma send_received rx a msg (h : gset nat) σ :
  a ∈ rx → locking.send rx a msg h σ = locking.writing (send a msg) h σ.
Proof.
  intros Ha. unfold locking.send. rewrite task_bind_eq. unfold locking.reading.
  destruct (deref a σ) as [c|p] eqn:Hd.
  - by rewrite decide_True.
  - unfold locking.writing, send. by rewrite Hd.
Qed.

Lemma send_waits rx a c msg (h : gset nat) σ :
  heap σ !! a = Some c → a ∉ rx → locking.send rx a msg h σ = locking.Waits a h σ.
Proof.
  intros H Ha. unfold locking.send. rewrite task_bind_eq. unfold locking.reading.
  rewrite (deref_live _ _ _ H). by rewrite decide_False.
Qed.

Lemma sendIfReceving_task rx a c j (h : gset nat) σ :
  heap σ !! a = Some c →
  locking.sendIfReceving rx a j h σ =
    if decide (c_status c = Receving ∧ a ∉ rx) then locking.Waits a h σ
    else locking.writing (sendIfReceving a j) h σ.
Proof.
  intros H. unfold locking.sendIfReceving. rewrite task_bind_eq.
  unfold locking.reading at 1. rewrite (deref_live _ _ _ H).
  destruct (decide (c_status c = Receving)) as [Hs|Hs].
  - destruct (decide (a ∈ rx)) as [Ha|Ha].
    + rewrite (decide_False (P := _ ∧ _)) by tauto.
      rewrite (send_received _ _ _ _ _ Ha).
      unfold locking.writing, sendIfReceving. rewrite (deref_live _ _ _ H).
      cbn [mbind run_bind]. by rewrite decide_True.
    + rewrite (decide_True (P := _ ∧ _)) by done. by apply (send_waits _ _ c).
  - rewrite (decide_False (P := _ ∧ _)) by tauto.
    unfold locking.writing, sendIfReceving. rewrite (deref_live _ _ _ H).
    cbn [mbind run_bind]. by rewrite decide_False.
Qed.

Lemma sendUnsubscribedTopic_locks rx a c top (h : gset nat) σ :
  heap σ !! a = Some c → a ∉ h →
  locking.sendUnsubscribedTopic rx a top h σ =
    if decide (c_status c = Receving ∧ a ∉ rx) then locking.Waits a ({[a]} ∪ h) σ
    else locking.lockfree (sendUnsubscribedTopic a top) h σ.
Proof.
  intros H Ha.
  unfold locking.sendUnsubscribedTopic, locking.lockfree, sendUnsubscribedTopic.
  rewrite task_bind_eq. unfold locking.pure, locking.reading.
  destruct (noticeData_frame "unsubscribed" top) as (fd & Hfd & Hj).
  rewrite Hfd. cbn [mbind run_bind]. cbv beta iota. rewrite Hj.
  rewrite task_bind_eq, (Lock_free _ _ _ Ha), task_bind_eq.
  rewrite (sendIfReceving_task _ _ _ _ _ _ H).
  case_decide; [done|].
  unfold locking.writing.
  destruct (sendIfReceving a _ σ) as [σ'|p]; [|done].
  by rewrite task_bind_eq, (Unlock_locked _ _ _ Ha).
Qed.

(** X17.  [Unsub] with the lock of the client and the wait of the send,
    called by a goroutine that does not hold the lock.  When the notice is
    to be sent (the client is a subscriber of the topic and is receiving)
    and no goroutine receives from its stream, the call does not return: it
    waits in the send of [sendUnsubscribedTopic], holding the lock of the
    client, the client already taken out of the topic.  In every other case
    it returns what the operation without locks returns, in the same state,
    holding the locks it held before. *)
Theorem Unsub_locks (rx : gset nat) (a : nat) (c : client) (name : string)
    (h : gset nat) (σ : state) :
  heap σ !! a = Some c → a ∉ h →
  locking.Unsub rx a name h σ =
    match findTopic a c name σ with
    | Some (p, t) =>
        if decide (is_Some (t_Clients t !! c_id c) ∧ c_status c = Receving ∧ a ∉ rx)
        then locking.Waits a ({[a]} ∪ h)
               (storeClients p name (delete (c_id c) (t_Clients t)) σ)
        else locking.lockfree (Unsub a name) h σ
    | None => locking.lockfree (Unsub a name) h σ
    end.
Proof.
  intros H Ha. unfold locking.Unsub, locking.lockfree, Unsub.
  rewrite task_bind_eq, (Lock_free _ _ _ Ha), task_bind_eq.
  unfold locking.reading at 1. rewrite (deref_live _ _ _ H). cbn [mbind run_bind].
  rewrite task_bind_eq. unfold locking.reading at 1.
  destruct (findTopic a c name σ) as [[p t]|].
  - destruct (decide (is_Some (t_Clients t !! c_id c))) as [Hs|Hs].
    + rewrite task_bind_eq. unfold locking.writing at 1.
      rewrite task_bind_eq, (Unlock_locked _ _ _ Ha), task_bind_eq.
      destruct (storeClients_live p name (delete (c_id c) (t_Clients t)) _ _ _ H)
        as (c1 & H1 & _ & Hst & _).
      rewrite (sendUnsubscribedTopic_locks _ _ _ _ _ _ H1 Ha), Hst.
      destruct (decide (c_status c = Receving ∧ a ∉ rx)) as [Hw|Hw].
      * by rewrite (decide_True (P := _ ∧ _ ∧ _)) by tauto.
      * rewrite (decide_False (P := _ ∧ _ ∧ _)) by tauto.
        unfold locking.lockfree.
        by destruct (sendUnsubscribedTopic a t _) as [[e σ']|q].
    + rewrite (decide_False (P := _ ∧ _ ∧ _)) by tauto.
      by rewrite task_bind_eq, (Unlock_locked _ _ _ Ha).
  - by rewrite task_bind_eq, (Unlock_locked _ _ _ Ha).
Qed.

Lemma Unsub_locks_witness :
  heap hub_subscribed !! 0 =
    Some (c1 Receving [ordersListed; ordersSubscribed] {["orders" := orders {["c1" := 0]}]}) ∧
  locking.Unsub ∅ 0 "orders" ∅ hub_subscribed =
    locking.Waits 0 ({[0]} ∪ ∅)
      (storeClients (PrivateOf 0) "orders" (delete "c1" {["c1" := 0]}) hub_subscribed) ∧
  locking.Unsub {[0]} 0 "orders" ∅ hub_subscribed =
    locking.lockfree (Unsub 0 "orders") ∅ hub_subscribed.
Proof.
  split; [reflexivity|]. split.
  - exact (Unsub_locks ∅ 0 _ "orders" ∅ hub_subscribed eq_refl (not_elem_of_empty 0)).
  - rewrite (Unsub_locks {[0]} 0 _ "orders" ∅ hub_subscribed eq_refl (not_elem_of_empty 0)).
    vm_compute. reflexivity.
Defined.

(** X18.  [RemovePrivateTopic] removes nothing.  For a name that is not
    a private topic of the client it returns the error "does not exists";
    for a private topic it does not return: it waits for ever in the
    [c.lock.Lock()] of the [Unsub] it calls, or in its own when the caller
    holds the lock, so the [delete] after the call is never reached. *)
Theorem RemovePrivateTopic_blocks (rx : gset nat) (a : nat) (c : client) (name : string)
    (h : gset nat) (σ : state) :
  heap σ !! a = Some c →
  locking.RemovePrivateTopic rx a name h σ =
    (if decide (is_Some (c_privateTopics c !! name)) then locking.Blocks a
     else locking.Done (Some (TopicDoesNotExist name)) h σ) ∧
  ∀ x h' σ', locking.RemovePrivateTopic rx a name h σ = locking.Done x h' σ' →
    x = Some (TopicDoesNotExist name) ∧ h' = h ∧ σ' = σ.
Proof.
  intros H.
  assert (locking.RemovePrivateTopic rx a name h σ =
            (if decide (is_Some (c_privateTopics c !! name)) then locking.Blocks a
             else locking.Done (Some (TopicDoesNotExist name)) h σ)) as Heq.
  { unfold locking.RemovePrivateTopic. rewrite task_bind_eq. unfold locking.reading.
    rewrite (deref_live _ _ _ H). case_decide; [|done].
    rewrite task_bind_eq. destruct (decide (a ∈ h)) as [Ha|Ha].
    - by rewrite (Lock_held _ _ _ Ha).
    - rewrite (Lock_free _ _ _ Ha), task_bind_eq.
      unfold locking.Unsub. rewrite task_bind_eq, Lock_held; [done|set_solver]. }
  split; [exact Heq|]. intros x h' σ'. rewrite Heq. case_decide; [done|].
  by intros [= <- <- <-].
Qed.

Lemma RemovePrivateTopic_blocks_witness :
  heap hub_two !! 0 =
    Some (c1 Receving [] (<["alerts" := alerts]> {["orders" := orders ∅]})) ∧
  locking.RemovePrivateTopic ∅ 0 "orders" ∅ hub_two = locking.Blocks 0 ∧
  ∀ x h' σ', locking.RemovePrivateTopic ∅ 0 "orders" ∅ hub_two = locking.Done x h' σ' →
    x = Some (TopicDoesNotExist "orders") ∧ h' = ∅ ∧ σ' = hub_two.
Proof.
  split; [reflexivity|].
  exact (RemovePrivateTopic_blocks ∅ 0 _ "orders" ∅ hub_two eq_refl).
Defined.

(** ** The fanout of the handler and the receivers *)

Lemma fanout_received rx t message (subs : list (string * nat)) (h : gset nat) σ :
  (∀ k b, (k, b) ∈ subs → b ∈ rx) →
  locking.fanout rx t message subs h σ = locking.lockfree (fanout t message subs) h σ.
Proof.
  revert σ. induction subs as [|[k b] subs IH]; intros σ Hrx; [done|].
  cbn [locking.fanout fanout].
  destruct (generateUpdateData b t message) as [j [err|]]; [done|].
  rewrite task_bind_eq, send_received by (apply (Hrx k); by left).
  unfold locking.writing, locking.lockfree.
  destruct (send b j σ) as [σ1|p]; [|done]. cbn [mbind run_bind].
  rewrite IH by (intros k' b' Hin; apply (Hrx k'); by right). done.
Qed.

Lemma fanout_waits rx t message frame (pre post : list (string * nat)) k b
    (h : gset nat) σ :
  (∀ b, generateUpdateData b t message = (frame, None)) →
  (∀ k' b', (k', b') ∈ (pre ++ (k, b) :: post) → is_Some (heap σ !! b')) →
  (∀ k' b', (k', b') ∈ pre → b' ∈ rx) → b ∉ rx →
  ∃ σ', fanout t message pre σ = Return (None, σ') ∧
        locking.fanout rx t message (pre ++ (k, b) :: post) h σ = locking.Waits b h σ'.
Proof.
  intros Hgen. revert σ. induction pre as [|[k1 b1] pre IH]; intros σ Hlive Hrx Hb.
  - exists σ. split; [done|]. cbn [app locking.fanout]. rewrite Hgen.
    destruct (Hlive k b) as [c H]; [by left|].
    by rewrite task_bind_eq, (send_waits _ _ c).
  - cbn [app locking.fanout fanout]. rewrite Hgen.
    destruct (Hlive k1 b1) as [c1 H1]; [by left|].
    destruct (send_stream b1 c1 frame σ H1) as (σ1 & Hs1 & _).
    rewrite task_bind_eq, send_received by (apply (Hrx k1); by left).
    unfold locking.writing. rewrite Hs1. cbn [mbind run_bind].
    destruct (IH σ1) as (σ' & Hpre & Hw); [| |done|].
    + intros k' b' Hin. destruct (Hlive k' b') as [cb Hcb]; [by right|].
      destruct (send_keeps _ _ _ _ Hs1 b' cb Hcb) as (cb' & Hcb' & _). by eexists.
    + intros k' b' Hin. apply (Hrx k'). by right.
    + exists σ'. split; [exact Hpre|exact Hw].
Qed.

Lemma first_without_receiver (rx : gset nat) (l : list (string * nat)) k b :
  (k, b) ∈ l → b ∉ rx →
  ∃ pre k' b' post, l = pre ++ (k', b') :: post ∧ (b' ∉ rx) ∧
                    ∀ k1 b1, (k1, b1) ∈ pre → b1 ∈ rx.
Proof.
  induction l as [|[k1 b1] l IH]; intros Hin Hb; [by apply elem_of_nil in Hin|].
  destruct (decide (b1 ∈ rx)) as [H1|H1].
  - apply elem_of_cons in Hin as [[= -> ->]|Hin]; [done|].
    destruct (IH Hin Hb) as (pre & k' & b' & post & -> & Hb' & Hpre).
    exists ((k1, b1) :: pre), k', b', post. split; [done|]. split; [done|].
    intros k2 b2 [[= -> ->]|Hin2]%elem_of_cons; [done|by eapply Hpre].
  - exists [], k1, b1, l. split; [done|]. split; [done|].
    intros k2 b2 Hin2. by apply elem_of_nil in Hin2.
Qed.

(** X9.  The handler's [Pub] on a registered topic, in a well-formed state,
    when the frames are generated without error.  If a goroutine receives
    from the stream of every subscriber of the topic, the call returns no
    error and has sent its frame once to every subscriber, whatever its
    status, and nothing to any other client, whatever the order in which
    the subscribers are ranged over.  If some subscriber has nobody
    receiving from its stream, the call does not return: it waits in the
    send to such a subscriber, the subscribers after it not served. *)
Theorem handler_Pub_isolation (rx : gset nat) (range : ranging) (name : string)
    (t : topic) (message : value) (frame : string) (h : gset nat) (σ : state) :
  range_ok range → wf σ → publicTopics σ !! name = Some t →
  (∀ b, generateUpdateData b t message = (frame, None)) →
  ((∀ id b, t_Clients t !! id = Some b → b ∈ rx) →
   ∃ σ', locking.sSEPubSubHandler_Pub rx range name message h σ =
           locking.Done None h σ' ∧
     ∀ b c, heap σ !! b = Some c →
       streamOf b σ' =
         c_stream c ++ (if decide (t_Clients t !! c_id c = Some b) then [frame] else [])) ∧
  (∀ id b, t_Clients t !! id = Some b → b ∉ rx →
   ∃ pre id' b' post σ',
     range _ (t_Clients t) = pre ++ (id', b') :: post ∧ (b' ∉ rx) ∧
     (∀ k1 b1, (k1, b1) ∈ pre → b1 ∈ rx) ∧
     fanout t message pre σ = Return (None, σ') ∧
     locking.sSEPubSubHandler_Pub rx range name message h σ = locking.Waits b' h σ').
Proof.
  intros Hr W Ht Hgen.
  assert (∀ k b, (k, b) ∈ range _ (t_Clients t) → is_Some (heap σ !! b)) as Hlive.
  { intros k b Hin. apply (elem_of_range _ _ _ _ _ Hr) in Hin.
    destruct W as (_ & _ & W3).
    destruct (W3 Shared name t k b Ht Hin) as [(c & H & _) _]. by eexists. }
  assert (∀ h0 σ0, publicTopics σ0 !! name = Some t →
            locking.sSEPubSubHandler_Pub rx range name message h0 σ0 =
              locking.fanout rx t message (range _ (t_Clients t)) h0 σ0) as HPub.
  { intros h0 σ0 Ht0. unfold locking.sSEPubSubHandler_Pub.
    rewrite task_bind_eq. unfold locking.reading. by rewrite Ht0. }
  split.
  - intros Hrx.
    destruct (handler_Pub_streams range name t message frame σ Hr W Ht Hgen)
      as (σ' & HP & Hq).
    exists σ'. split; [|exact Hq].
    rewrite (HPub _ _ Ht), fanout_received.
    + unfold sSEPubSubHandler_Pub in HP. rewrite Ht in HP.
      unfold locking.lockfree. by rewrite HP.
    + intros k b Hin. apply (elem_of_range _ _ _ _ _ Hr) in Hin. by eapply Hrx.
  - intros id b Hin Hb. apply (elem_of_range _ _ _ _ _ Hr) in Hin.
    destruct (first_without_receiver rx _ _ _ Hin Hb)
      as (pre & id' & b' & post & Hl & Hb' & Hpre).
    rewrite Hl in Hlive.
    destruct (fanout_waits rx t message frame pre post id' b' h σ Hgen Hlive Hpre Hb')
      as (σ' & Hfan & Hw).
    exists pre, id', b', post, σ'. split; [done|]. split; [done|]. split; [done|].
    split; [done|]. by rewrite (HPub _ _ Ht), Hl.
Qed.

Lemma handler_Pub_isolation_witness :
  range_ok range_backward ∧ wf hub_pair ∧
  publicTopics hub_pair !! "news" = Some (news (<["c2" := 1]> {["c1" := 0]})) ∧
  (∀ b, generateUpdateData b (news (<["c2" := 1]> {["c1" := 0]})) (Number 1) =
          (js "{'sys':null,'updates':[{'topic':'news','data':1}]}", None)) ∧
  (∃ σ', locking.sSEPubSubHandler_Pub {[0; 1]} range_backward "news" (Number 1) ∅ hub_pair =
           locking.Done None ∅ σ' ∧
     ∀ b c, heap hub_pair !! b = Some c →
       streamOf b σ' =
         c_stream c ++
         (if decide (t_Clients (news (<["c2" := 1]> {["c1" := 0]})) !! c_id c = Some b)
          then [js "{'sys':null,'updates':[{'topic':'news','data':1}]}"] else [])) ∧
  (∃ pre id' b' post σ',
     range_backward _ (t_Clients (news (<["c2" := 1]> {["c1" := 0]}))) =
       pre ++ (id', b') :: post ∧ (b' ∉ ({[1]} : gset nat)) ∧
     (∀ k1 b1, (k1, b1) ∈ pre → b1 ∈ ({[1]} : gset nat)) ∧
     fanout (news (<["c2" := 1]> {["c1" := 0]})) (Number 1) pre hub_pair =
       Return (None, σ') ∧
     locking.sSEPubSubHandler_Pub {[1]} range_backward "news" (Number 1) ∅ hub_pair =
       locking.Waits b' ∅ σ').
Proof.
  split; [exact range_backward_ok|]. split; [exact wf_hub_pair|].
  split; [reflexivity|]. split; [intros b; reflexivity|]. split.
  - apply (handler_Pub_isolation {[0; 1]} range_backward "news" _ (Number 1) _ ∅ hub_pair
             range_backward_ok wf_hub_pair eq_refl (λ b, eq_refl)).
    intros id b Hin.
    destruct wf_hub_pair as (_ & _ & W3).
    destruct (W3 Shared "news" _ id b eq_refl Hin) as [(c & H & _) _].
    apply lookup_lt_Some in H. cbn in H.
    assert (b = 0 ∨ b = 1) as [-> | ->] by lia; set_solver.
  - apply (proj2 (handler_Pub_isolation {[1]} range_backward "news" _ (Number 1) _ ∅
                    hub_pair range_backward_ok wf_hub_pair eq_refl (λ b, eq_refl))
             "c1" 0); [reflexivity|set_solver].
Defined.

Example hub_pair_new_built :
  ∃ σ1 σ2 σ3,
    NewClient "7b0e" "c1" (registerPublic "news" NewSSEPubSubHandler) = (0, σ1) ∧
    NewClient "41c2" "c2" σ1 = (1, σ2) ∧
    Sub 0 "news" σ2 = Return (None, σ3) ∧
    Sub 1 "news" σ3 = Return (None, hub_pair_new).
Proof. eexists _, _, _. repeat split; vm_compute; reflexivity. Qed.

(** C1 fails on the handler's [Pub].  "c1" and "c2" have been created and
    subscribed to "news"; a goroutine receives from the stream of "c2",
    none from the stream of "c1".  When the runtime ranges over "c1" first,
    the call waits in the send to "c1" and "c2" is sent nothing; when it
    ranges over "c2" first, "c2" is sent the frame and the call waits in
    the send to "c1".  In neither order does the publisher get a result.
    With a receiver for each, the call returns and both have the frame. *)
Theorem handler_Pub_waits :
  locking.sSEPubSubHandler_Pub {[1]} range_forward "news" (Number 1) ∅ hub_pair_new =
    locking.Waits 0 ∅ hub_pair_new ∧
  streamOf 1 hub_pair_new = [] ∧
  (∃ σ', locking.sSEPubSubHandler_Pub {[1]} range_backward "news" (Number 1) ∅
           hub_pair_new = locking.Waits 0 ∅ σ' ∧
         streamOf 0 σ' = [] ∧
         streamOf 1 σ' = [js "{'sys':null,'updates':[{'topic':'news','data':1}]}"]) ∧
  (∃ σ', locking.sSEPubSubHandler_Pub {[0; 1]} range_forward "news" (Number 1) ∅
           hub_pair_new = locking.Done None ∅ σ' ∧
         streamOf 0 σ' = [js "{'sys':null,'updates':[{'topic':'news','data':1}]}"] ∧
         streamOf 1 σ' = [js "{'sys':null,'updates':[{'topic':'news','data':1}]}"]).
Proof.
  split; [vm_compute; reflexivity|]. split; [reflexivity|]. split.
  - eexists. split; [vm_compute; reflexivity|]. split; vm_compute; reflexivity.
  - eexists. split; [vm_compute; reflexivity|]. split; vm_compute; reflexivity.
Qed.

(** ** The subscribers of a [Topic] of package [pubsubsse] *)

(** X19.  The subscribers of a [Topic] are kept by the id of the client.
    After [addClient] of a client, [IsSubscribed] holds of it and of every
    client object with its id, and is as before for the other ids; [Pub]
    then calls [send] once for that client and once for each subscriber
    there was under another id, so not for a client object that was there
    under the same id.  [removeClient] after it makes [IsSubscribed] false
    and, when the id was not subscribed before, gives the topic back as it
    was.  Name, id and type of the topic do not change. *)
Theorem Topic_membership {Client : Type} (cid : Client → string) (range : ranging)
    (t : pubsubsse.Topic Client) (c : Client) :
  range_ok range →
  let t' := pubsubsse.addClient Client cid t c in
  (∀ c', pubsubsse.IsSubscribed Client cid t' c' =
           if decide (cid c' = cid c) then true
           else pubsubsse.IsSubscribed Client cid t c') ∧
  (range _ (pubsubsse.GetClients Client t')).*2 ≡ₚ
     c :: (map_to_list (delete (cid c) (pubsubsse.clients Client t))).*2 ∧
  (∀ c', pubsubsse.IsSubscribed Client cid (pubsubsse.removeClient Client cid t' c) c' =
           if decide (cid c' = cid c) then false
           else pubsubsse.IsSubscribed Client cid t c') ∧
  (pubsubsse.IsSubscribed Client cid t c = false →
     pubsubsse.removeClient Client cid t' c = t) ∧
  pubsubsse.GetName Client t' = pubsubsse.GetName Client t ∧
  pubsubsse.GetID Client t' = pubsubsse.GetID Client t ∧
  pubsubsse.GetType Client t' = pubsubsse.GetType Client t.
Proof.
  intros Hr t'. split; [|split; [|split; [|split]]].
  - intros c'. unfold pubsubsse.IsSubscribed. cbn. case_decide as Hc.
    + rewrite Hc, lookup_insert_eq. apply bool_decide_eq_true. by eexists.
    + by rewrite lookup_insert_ne by done.
  - unfold pubsubsse.GetClients. rewrite (Hr _ _). cbn.
    rewrite <- insert_delete_eq.
    rewrite map_to_list_insert by apply lookup_delete_eq. done.
  - intros c'. unfold pubsubsse.IsSubscribed. cbn. case_decide as Hc.
    + rewrite Hc, lookup_delete_eq. apply bool_decide_eq_false. by intros [? [=]].
    + by rewrite lookup_delete_ne, lookup_insert_ne by done.
  - unfold pubsubsse.IsSubscribed. intros Hs. apply bool_decide_eq_false in Hs.
    unfold pubsubsse.removeClient. cbn. rewrite delete_insert_eq.
    rewrite delete_id by (by apply eq_None_not_Some). by destruct t.
  - done.
Qed.

Lemma Topic_membership_witness :
  range_ok range_forward ∧
  let t' := pubsubsse.addClient string (λ c, c)
              (pubsubsse.newTopic string "6ba7b810" "news" pubsubsse.TPublic) "c1" in
  (∀ c', pubsubsse.IsSubscribed string (λ c, c) t' c' =
           if decide (c' = "c1") then true
           else pubsubsse.IsSubscribed string (λ c, c)
                  (pubsubsse.newTopic string "6ba7b810" "news" pubsubsse.TPublic) c') ∧
  (range_forward _ (pubsubsse.GetClients string t')).*2 ≡ₚ
     "c1" :: (map_to_list (delete "c1" (∅ : gmap string string))).*2 ∧
  (∀ c', pubsubsse.IsSubscribed string (λ c, c)
           (pubsubsse.removeClient string (λ c, c) t' "c1") c' =
           if decide (c' = "c1") then false
           else pubsubsse.IsSubscribed string (λ c, c)
                  (pubsubsse.newTopic string "6ba7b810" "news" pubsubsse.TPublic) c') ∧
  pubsubsse.IsSubscribed string (λ c, c)
    (pubsubsse.newTopic string "6ba7b810" "news" pubsubsse.TPublic) "c1" = false ∧
  pubsubsse.removeClient string (λ c, c) t' "c1" =
    pubsubsse.newTopic string "6ba7b810" "news" pubsubsse.TPublic ∧
  pubsubsse.GetName string t' = "news" ∧
  pubsubsse.GetID string t' = "6ba7b810" ∧
  pubsubsse.GetType string t' = "public".
Proof.
  split; [exact range_forward_ok|].
  destruct (Topic_membership (λ c : string, c) range_forward
              (pubsubsse.newTopic string "6ba7b810" "news" pubsubsse.TPublic) "c1"
              range_forward_ok) as (H1 & H2 & H3 & H4 & H5).
  split; [exact H1|]. split; [exact H2|]. split; [exact H3|].
  split; [reflexivity|]. split; [exact (H4 eq_refl)|]. exact H5.
Defined.

Lemma send_functions_drop_witness :
  heap hub_news !! 0 = Some (c1 Waiting [] ∅) ∧
  (∀ to data d, marshal data = Some d →
     sendUpdate 0 to data hub_news = Return (None, hub_news)) ∧
  sendNewTopicsList range_forward 0 hub_news = Return (None, hub_news) ∧
  (∀ top, sendNewSubscribedTopic 0 top hub_news = Return (None, hub_news)) ∧
  (∀ top, sendUnsubscribedTopic 0 top hub_news = Return (None, hub_news)).
Proof.
  split; [reflexivity|].
  exact (send_functions_drop range_forward 0 (c1 Waiting [] ∅) hub_news eq_refl eq_refl).
Defined.
